(** * LeaderboardForensics: the similarity clustering engine of
      [Scripts/Filters/MainFilter.py]

    A shallow embedding of the username normaliser, the similarity engine,
    the cluster builder, the score validator, the per-batch filter and
    the run of the orchestrator with the files it writes, with the
    properties the specification states about them.

    Conventions.
    - A Python [str] is a list of Unicode code points ([pystr]).
    - [unidecode] (package Unidecode) is a parameter of the normaliser.  It
      returns ASCII text, so the character classes [\s], [\d] and
      [str.lower] are written out for ASCII code points.
    - [difflib.SequenceMatcher] is embedded in [Module Difflib].  A ratio
      [2.0 * M / T] is kept as the exact rational [2M / T], and so are the
      sums and averages of ratios in [pairwise_avg_similarity].  Where a
      rounded average is compared with the threshold, in the run of
      [process_batches], the sum and the average are the binary64 values
      of the interpreter ([pairwise_avg_similarity_binary64]).
    - Scores are IEEE 754 binary64 values ([spec_float] at precision 53),
      with NaN and the infinities.
    - A value read from JSON is a [pyval]; a dict is the list of its items
      in insertion order; an exception is a [Raise] result.
    - The iteration order of a Python set of strings ([list(unassigned)])
      and the built-in [float] on strings are parameters of the engine;
      so is the outcome of writing a file. *)

From Stdlib Require Import Ascii String.
From Stdlib Require Import List Bool Arith ZArith NArith QArith Lia.
From Stdlib Require Import Permutation Sorted SpecFloat.
Import ListNotations.

Close Scope Q_scope.

Set Implicit Arguments.

(** ** Python strings *)

Definition pystr := list N.

Definition str (s : string) : pystr :=
  List.map N_of_ascii (list_ascii_of_string s).

Definition ch (a : ascii) : N := N_of_ascii a.

Definition pystr_eqb (a b : pystr) : bool :=
  if list_eq_dec N.eq_dec a b then true else false.

Module Py.

(** Character classes of [re] and [str] on ASCII code points. *)

Definition in_range (lo hi c : N) : bool := (lo <=? c)%N && (c <=? hi)%N.

(** [str.isspace] and [\s]: TAB..CR, FS..US and the space. *)
Definition is_space (c : N) : bool :=
  in_range 9 13 c || in_range 28 31 c || (c =? 32)%N.

(** [\d] *)
Definition is_digit (c : N) : bool := in_range 48 57 c.

(** [[a-z]] *)
Definition is_lower (c : N) : bool := in_range 97 122 c.

(** [[a-z0-9]] *)
Definition is_alnum_lower (c : N) : bool := is_lower c || is_digit c.

(** [str.lower] on one ASCII character. *)
Definition lower_char (c : N) : N :=
  if in_range 65 90 c then (c + 32)%N else c.

Definition lower (s : pystr) : pystr := List.map lower_char s.

Fixpoint dropwhile (p : N -> bool) (s : pystr) : pystr :=
  match s with
  | [] => []
  | c :: t => if p c then dropwhile p t else s
  end.

Definition lstrip (s : pystr) : pystr := dropwhile is_space s.
Definition rstrip (s : pystr) : pystr := rev (dropwhile is_space (rev s)).

(** [str.strip()] *)
Definition strip (s : pystr) : pystr := rstrip (lstrip s).

(** [re.sub(r'[class]+', repl, s)]: every maximal run of characters of
    the class is replaced by [repl].  [in_run] tells that the previous
    character belonged to the run being replaced. *)
Fixpoint sub_runs_from (p : N -> bool) (repl : pystr) (in_run : bool)
    (s : pystr) : pystr :=
  match s with
  | [] => []
  | c :: t =>
      if p c then
        if in_run then sub_runs_from p repl true t
        else repl ++ sub_runs_from p repl true t
      else c :: sub_runs_from p repl false t
  end.

Definition sub_runs (p : N -> bool) (repl : pystr) (s : pystr) : pystr :=
  sub_runs_from p repl false s.

(** [re.sub(r'[class]', '', s)]: every character of the class is
    deleted. *)
Definition sub_each_empty (p : N -> bool) (s : pystr) : pystr :=
  List.filter (fun c => negb (p c)) s.

(** [str.replace(k, v)] for one-character [k] and [v]. *)
Definition replace_char (k v : N) (s : pystr) : pystr :=
  List.map (fun c => if (c =? k)%N then v else c) s.

(** [x in l] on a list of strings. *)
Definition mem (x : pystr) (l : list pystr) : bool :=
  existsb (pystr_eqb x) l.

End Py.

(** ** Configuration constants *)

Definition MIN_GROUP_SIZE : nat := 3.
Definition NAME_SIMILARITY_THRESHOLD : Q := (70 # 100)%Q.
Definition LEET_MODE : bool := true.

Definition LEET_SUBS : list (N * N) :=
  [ (ch "4", ch "a"); (ch "@", ch "a"); (ch "8", ch "b"); (ch "3", ch "e");
    (ch "6", ch "g"); (ch "9", ch "g"); (ch "1", ch "l"); (ch "!", ch "i");
    (ch "0", ch "o"); (ch "5", ch "s"); (ch "$", ch "s"); (ch "7", ch "t");
    (ch "+", ch "t"); (ch "2", ch "z") ]%char.

(** U+0E3F, U+20AC, U+00A3, U+20A9, U+00A5, U+00A9, U+00AE. *)
Definition HOMOGLYPHS : list (N * N) :=
  [ (3647, ch "b"); (8364, ch "e"); (163, ch "l"); (8361, ch "w");
    (165, ch "y"); (169, ch "c"); (174, ch "r") ]%N%char.

Fixpoint dict_get (d : list (N * N)) (k : N) : option N :=
  match d with
  | [] => None
  | (k', v) :: t => if (k =? k')%N then Some v else dict_get t k
  end.

(** ** The normaliser *)

(** [collapse_repeats]: [re.sub(r'(.)\1{2,}', r'\1\1', s)].  A maximal run
    of three or more equal characters keeps its first two; [.] does not
    match a line feed.  [run] is the length of the run of [c] that ends just
    before [s]. *)
Fixpoint collapse_repeats_from (c : N) (run : nat) (s : pystr) : pystr :=
  match s with
  | [] => []
  | d :: t =>
      if (d =? c)%N then
        if (2 <=? run)%nat && negb (d =? 10)%N
        then collapse_repeats_from c (S run) t
        else d :: collapse_repeats_from c (S run) t
      else d :: collapse_repeats_from d 1 t
  end.

Definition collapse_repeats (s : pystr) : pystr :=
  match s with
  | [] => []
  | c :: t => c :: collapse_repeats_from c 1 t
  end.

Definition is_separator (c : N) : bool :=
  Py.is_space c || (c =? ch "-")%N || (c =? ch "_")%N || (c =? ch ".")%N.

(** [remove_separators]: [re.sub(r'[\s\-_\.]+', '', s)] *)
Definition remove_separators (s : pystr) : pystr :=
  Py.sub_runs is_separator [] s.

Definition replace_homoglyphs (s : pystr) : pystr :=
  fold_left (fun acc kv => Py.replace_char (fst kv) (snd kv) acc) HOMOGLYPHS s.

Definition de_leet_char (c : N) : N :=
  let low := Py.lower_char c in
  match dict_get LEET_SUBS low with
  | Some v => v
  | None => low
  end.

Definition de_leet (s : pystr) : pystr := List.map de_leet_char s.

(** [[\s\-_\.@!$+]] *)
Definition is_name_separator (c : N) : bool :=
  is_separator c || (c =? ch "@")%N || (c =? ch "!")%N || (c =? ch "$")%N
  || (c =? ch "+")%N.

(** [[a-z0-9\s\-_\.@!$+]] *)
Definition is_base_char (c : N) : bool :=
  Py.is_alnum_lower c || is_name_separator c.

(** [re.sub(r'\d+', '', s)] *)
Definition stripped_numbers (s : pystr) : pystr := Py.sub_runs Py.is_digit [] s.

(** The loop [for x in variants: if x not in uniq: uniq.append(x)]. *)
Definition dedup_step (uniq : list pystr) (x : pystr) : list pystr :=
  if Py.mem x uniq then uniq else uniq ++ [x].

Definition dedup (variants : list pystr) : list pystr :=
  fold_left dedup_step variants [].

(** [re.sub(r'[^a-z0-9]+', '', u)] *)
Definition clean (u : pystr) : pystr :=
  Py.sub_runs (fun c => negb (Py.is_alnum_lower c)) [] u.

Definition nonempty (s : pystr) : bool :=
  match s with [] => false | _ => true end.

Section Normalizer.

(** The transliteration of the Unidecode package. *)
Variable unidecode : pystr -> pystr.

Definition base_of (raw : pystr) : pystr :=
  let base := unidecode raw in
  let base := replace_homoglyphs base in
  let base := Py.lower base in
  let base := Py.sub_each_empty (fun c => negb (is_base_char c)) base in
  Py.strip base.

Definition v1_of (base : pystr) : pystr :=
  let v1 := Py.strip (Py.sub_runs is_name_separator [ch " "] base) in
  Py.sub_runs Py.is_space [ch " "] v1.

Definition variants_of (raw : pystr) (leet : bool) : list pystr :=
  let v1 := v1_of (base_of raw) in
  let v2 := collapse_repeats v1 in
  let v3 := remove_separators v2 in
  let dl_v1 := if leet then de_leet v1 else v1 in
  let dl_v2 := if leet then de_leet v2 else v2 in
  let dl_v3 := if leet then de_leet v3 else v3 in
  [ v1; v2; v3; dl_v1; dl_v2; dl_v3;
    stripped_numbers v1; stripped_numbers v2; stripped_numbers v3;
    stripped_numbers dl_v1; stripped_numbers dl_v2; stripped_numbers dl_v3 ].

Definition normalize_name_variants_leet (raw : pystr) (leet : bool)
    : list pystr :=
  let uniq := dedup (variants_of raw leet) in
  let cleaned := List.map clean uniq in
  List.filter nonempty cleaned.

(** [normalize_name_variants(raw)] with the default [leet=LEET_MODE]. *)
Definition normalize_name_variants (raw : pystr) : list pystr :=
  normalize_name_variants_leet raw LEET_MODE.

End Normalizer.

(** A table of the transliteration for concrete evaluation: ASCII is
    returned unchanged, and a few Latin-1 letters have their Unidecode
    entries; no other code point occurs in the examples below. *)
Definition unidecode_char (c : N) : pystr :=
  if (c <? 128)%N then [c]
  else if (c =? 223)%N then str "ss"        (* U+00DF sharp s *)
  else if (c =? 230)%N then str "ae"        (* U+00E6 ae ligature *)
  else if (c =? 233)%N then str "e"         (* U+00E9 e acute *)
  else if (c =? 252)%N then str "u"         (* U+00FC u diaeresis *)
  else [].

Definition unidecode_table (s : pystr) : pystr := flat_map unidecode_char s.

(** ** difflib.SequenceMatcher

    [SequenceMatcher(None, a, b)]: no junk predicate, [autojunk=True].
    [find_longest_match] and the loop of [get_matching_blocks] are
    written as in CPython's [difflib.py].  Indices are naturals, so the
    dictionary read [j2len.get(j-1, 0)] at [j = 0] is written as [0]. *)

Module Difflib.

Definition block : Type := nat * nat * nat.
Definition region : Type := nat * nat * nat * nat.

Fixpoint indices_from (c : N) (s : pystr) (j : nat) : list nat :=
  match s with
  | [] => []
  | d :: t =>
      if (d =? c)%N then j :: indices_from c t (S j)
      else indices_from c t (S j)
  end.

Section Matcher.

Variables a b : pystr.

(** [bpopular]: when [len(b) >= 200], an element with more than
    [len(b) // 100 + 1] occurrences in [b]. *)
Definition popular (c : N) : bool :=
  (200 <=? length b) &&
  (length b / 100 + 1 <? length (indices_from c b 0)).

(** [b2j.get(c, [])] after the popular elements were purged. *)
Definition b2j (c : N) : list nat :=
  if popular c then [] else indices_from c b 0.

Definition a_at (i : nat) : N := nth i a 0%N.
Definition b_at (j : nat) : N := nth j b 0%N.

(** The loop [for j in b2j.get(a[i], nothing)] of one row [i]. *)
Fixpoint row (i blo bhi : nat) (j2len : nat -> nat) (js : list nat)
    (newj2len : nat -> nat) (best : block) : (nat -> nat) * block :=
  match js with
  | [] => (newj2len, best)
  | j :: js' =>
      if j <? blo then row i blo bhi j2len js' newj2len best
      else if bhi <=? j then (newj2len, best)
      else
        let k := S (match j with 0 => 0 | S j' => j2len j' end) in
        let newj2len' := fun x => if x =? j then k else newj2len x in
        let '(_, _, bestsize) := best in
        let best' :=
          if bestsize <? k then (i + 1 - k, j + 1 - k, k) else best in
        row i blo bhi j2len js' newj2len' best'
  end.

(** The loop [for i in range(alo, ahi)]. *)
Fixpoint rows (blo bhi : nat) (is_ : list nat) (j2len : nat -> nat)
    (best : block) : block :=
  match is_ with
  | [] => best
  | i :: is' =>
      let '(newj2len, best') :=
        row i blo bhi j2len (b2j (a_at i)) (fun _ => 0) best in
      rows blo bhi is' newj2len best'
  end.

(** [while besti > alo and bestj > blo and a[besti-1] == b[bestj-1]] *)
Fixpoint extend_back (alo blo besti bestj bestsize : nat) {struct besti}
    : block :=
  match besti, bestj with
  | S i', S j' =>
      if (alo <? besti) && (blo <? bestj) && (a_at i' =? b_at j')%N
      then extend_back alo blo i' j' (S bestsize)
      else (besti, bestj, bestsize)
  | _, _ => (besti, bestj, bestsize)
  end.

(** [while besti+bestsize < ahi and bestj+bestsize < bhi and
    a[besti+bestsize] == b[bestj+bestsize]]; [steps] is
    [ahi - (besti+bestsize)], which bounds the iterations. *)
Fixpoint extend_fwd (steps ahi bhi besti bestj bestsize : nat) : nat :=
  match steps with
  | 0 => bestsize
  | S steps' =>
      if (besti + bestsize <? ahi) && (bestj + bestsize <? bhi)
         && (a_at (besti + bestsize) =? b_at (bestj + bestsize))%N
      then extend_fwd steps' ahi bhi besti bestj (S bestsize)
      else bestsize
  end.

(** [find_longest_match(alo, ahi, blo, bhi)].  With no junk predicate
    [bjunk] is empty, so the two loops that absorb junk never run. *)
Definition find_longest_match (alo ahi blo bhi : nat) : block :=
  let '(besti, bestj, bestsize) :=
    rows blo bhi (seq alo (ahi - alo)) (fun _ => 0) (alo, blo, 0) in
  let '(besti, bestj, bestsize) :=
    extend_back alo blo besti bestj bestsize in
  (besti, bestj,
   extend_fwd (ahi - (besti + bestsize)) ahi bhi besti bestj bestsize).

(** The loop [while queue] of [get_matching_blocks]; the head of the
    list is the end of the Python list, where [pop] and [append]
    work.  [None] when [fuel] iterations were not enough. *)
Fixpoint blocks_loop (fuel : nat) (queue : list region)
    (matching_blocks : list block) : option (list block) :=
  match queue with
  | [] => Some matching_blocks
  | (alo, ahi, blo, bhi) :: rest =>
      match fuel with
      | 0 => None
      | S fuel' =>
          let '(i, j, k) := find_longest_match alo ahi blo bhi in
          if k =? 0 then blocks_loop fuel' rest matching_blocks
          else
            let left :=
              if (alo <? i) && (blo <? j) then [(alo, i, blo, j)]
              else [] in
            let right :=
              if (i + k <? ahi) && (j + k <? bhi)
              then [(i + k, ahi, j + k, bhi)] else [] in
            blocks_loop fuel' (right ++ left ++ rest)
              (matching_blocks ++ [(i, j, k)])
      end
  end.

(** The blocks found by [get_matching_blocks], before they are sorted
    and adjacent ones merged, which leaves the sum of their sizes as
    it is. *)
Definition get_matching_blocks : list block :=
  match blocks_loop (2 * length a + 1)
          [(0, length a, 0, length b)] [] with
  | Some l => l
  | None => []
  end.

Definition matches (l : list block) : nat :=
  fold_right (fun x acc => snd x + acc) 0 l.

(** [ratio()]: [2.0 * matches / length], or [1.0] when both sequences
    are empty. *)
Definition ratio : Q :=
  let m := matches get_matching_blocks in
  let len := length a + length b in
  match len with
  | 0 => 1%Q
  | _ => (Z.of_nat (2 * m) # Pos.of_nat len)%Q
  end.

End Matcher.

End Difflib.

(** ** The similarity engine *)

Definition name_similarity (a b : pystr) : Q :=
  if negb (nonempty a) || negb (nonempty b) then 0%Q
  else Difflib.ratio a b.

Definition Qlt_bool (x y : Q) : bool := negb (Qle_bool y x).

Inductive loop (A : Type) : Type :=
| Next (x : A)
| Return (x : A).

Arguments Next {A} x.
Arguments Return {A} x.

(** The loop [for bv in b_vars] for one [av]. *)
Fixpoint similarity_row (av : pystr) (b_vars : list pystr) (best : Q)
    : loop Q :=
  match b_vars with
  | [] => Next best
  | bv :: rest =>
      let sim := name_similarity av bv in
      if Qlt_bool best sim then
        if Qle_bool (999 # 1000)%Q sim then Return sim
        else similarity_row av rest sim
      else similarity_row av rest best
  end.

(** The loop [for av in a_vars]. *)
Fixpoint similarity_rows (a_vars b_vars : list pystr) (best : Q) : Q :=
  match a_vars with
  | [] => best
  | av :: rest =>
      match similarity_row av b_vars best with
      | Return r => r
      | Next best' => similarity_rows rest b_vars best'
      end
  end.

Section Similarity.

Variable unidecode : pystr -> pystr.

Definition max_variant_similarity (a_raw b_raw : pystr) : Q :=
  let a_vars := normalize_name_variants unidecode a_raw in
  let b_vars := normalize_name_variants unidecode b_raw in
  similarity_rows a_vars b_vars 0%Q.

End Similarity.

(** ** Python values, exceptions and floats *)

Inductive exn : Type :=
| AttributeError
| KeyError
| OverflowError
| StatisticsError
| TypeError
| IndexError
| OSError
| UnicodeEncodeError.

Inductive result (A : Type) : Type :=
| Ok (x : A)
| Raise (e : exn).

Arguments Ok {A} x.
Arguments Raise {A} e.

Definition bind {A B : Type} (m : result A) (k : A -> result B) : result B :=
  match m with
  | Ok x => k x
  | Raise e => Raise e
  end.

Notation "x <- m ;; k" := (bind m (fun x => k))
  (at level 61, m at next level, right associativity).

(** Python's [float]: IEEE 754 binary64. *)
Module F.

Definition prec : Z := 53.
Definition emax : Z := 1024.

Definition float := spec_float.

Definition zero : float := S754_zero false.
Definition nan : float := S754_nan.
Definition of_Z (z : Z) : float := binary_normalize prec emax z 0 false.
Definition one : float := Eval vm_compute in of_Z 1.
Definition two : float := Eval vm_compute in of_Z 2.

Definition add : float -> float -> float := SFadd prec emax.
Definition sub : float -> float -> float := SFsub prec emax.
Definition div : float -> float -> float := SFdiv prec emax.
Definition abs : float -> float := SFabs.

(** [x == y], [x < y], [x <= y], [x > y] *)
Definition eqb : float -> float -> bool := SFeqb.
Definition ltb : float -> float -> bool := SFltb.
Definition leb : float -> float -> bool := SFleb.
Definition gtb (x y : float) : bool := SFltb y x.

Definition is_nan (x : float) : bool :=
  match x with S754_nan => true | _ => false end.

Definition is_inf (x : float) : bool :=
  match x with S754_infinity _ => true | _ => false end.

(** The built-in [max(x, y)]: [y] when [y > x], else [x]. *)
Definition max (x y : float) : float := if gtb y x then y else x.

(** The decimal literal [n / 10^k], rounded once. *)
Definition decimal (n : Z) (k : nat) : float :=
  div (of_Z n) (of_Z (10 ^ Z.of_nat k)).

End F.

Definition SCORE_TOLERANCE_RATIO : F.float := Eval vm_compute in F.decimal 30 2.

Unset Elimination Schemes.
Inductive pyval : Type :=
| PNone
| PBool (b : bool)
| PInt (z : Z)
| PFloat (f : F.float)
| PStr (s : pystr)
| PList (l : list pyval)
| PDict (d : list (pystr * pyval)).
Set Elimination Schemes.

Definition pydict := list (pystr * pyval).

Fixpoint dict_lookup (d : pydict) (k : pystr) : option pyval :=
  match d with
  | [] => None
  | (k', v) :: t => if pystr_eqb k k' then Some v else dict_lookup t k
  end.

(** [d.get(k, default)] *)
Definition dict_get_default (d : pydict) (k : pystr) (default : pyval) : pyval :=
  match dict_lookup d k with
  | Some v => v
  | None => default
  end.

(** [d[k] = v]: the value of an existing key is replaced where it stands, a
    new key goes to the end. *)
Fixpoint dict_set (d : pydict) (k : pystr) (v : pyval) : pydict :=
  match d with
  | [] => [(k, v)]
  | (k', v') :: t =>
      if pystr_eqb k k' then (k', v) :: t else (k', v') :: dict_set t k v
  end.

(** [x.get(k, default)] on an arbitrary value: only a dict has [get]. *)
Definition py_get (x : pyval) (k : pystr) (default : pyval) : result pyval :=
  match x with
  | PDict d => Ok (dict_get_default d k default)
  | _ => Raise AttributeError
  end.

Definition truthy (x : pyval) : bool :=
  match x with
  | PNone => false
  | PBool b => b
  | PInt z => negb (z =? 0)%Z
  | PFloat f => negb (F.eqb f F.zero)
  | PStr s => nonempty s
  | PList l => match l with [] => false | _ => true end
  | PDict d => match d with [] => false | _ => true end
  end.

(** [x or y] *)
Definition py_or (x y : pyval) : pyval := if truthy x then x else y.

(** [float(z)] for an [int]: the nearest double, [OverflowError] beyond the
    finite range. *)
Definition float_of_int (z : Z) : result F.float :=
  let f := F.of_Z z in
  if F.is_inf f then Raise OverflowError else Ok f.

(** ** The score validator *)

(** [sorted] on floats, by [<] only and stable.  On a list without NaN
    this is the one stable ascending arrangement. *)
Fixpoint insert_sorted (x : F.float) (l : list F.float) : list F.float :=
  match l with
  | [] => [x]
  | e :: t => if F.ltb x e then x :: l else e :: insert_sorted x t
  end.

Definition sorted (l : list F.float) : list F.float :=
  fold_left (fun acc x => insert_sorted x acc) l [].

(** [statistics.median] *)
Definition median (data : list F.float) : result F.float :=
  let data := sorted data in
  let n := length data in
  if n =? 0 then Raise StatisticsError
  else if n mod 2 =? 1 then Ok (nth (n / 2) data F.nan)
  else
    let i := n / 2 in
    Ok (F.div (F.add (nth (i - 1) data F.nan) (nth i data F.nan)) F.two).

(** The loop [for v in vals: if ... > tolerance_ratio: return False]. *)
Fixpoint within_tolerance (med tolerance_ratio : F.float)
    (vals : list F.float) : bool :=
  match vals with
  | [] => true
  | v :: rest =>
      if F.gtb (F.div (F.abs (F.sub v med)) (F.max (F.abs med) F.one))
               tolerance_ratio
      then false
      else within_tolerance med tolerance_ratio rest
  end.

Definition scores_consistent (vals : list F.float)
    (tolerance_ratio : F.float) : result bool :=
  if length vals <? 2 then Ok false
  else
    med <- median vals ;;
    if F.eqb med F.zero
    then Ok (forallb (fun v => F.leb (F.abs v) tolerance_ratio) vals)
    else Ok (within_tolerance med tolerance_ratio vals).

(** [round(x, 3)] on an exact rational: the nearest multiple of 1/1000,
    a tie going to the even one. *)
Definition round3 (x : Q) : Q :=
  let n := (Qnum x * 1000)%Z in
  let d := Zpos (Qden x) in
  let q := (n / d)%Z in
  let r := (n mod d)%Z in
  let q' :=
    if (2 * r <? d)%Z then q
    else if (d <? 2 * r)%Z then (q + 1)%Z
    else if Z.even q then q else (q + 1)%Z in
  (q' # 1000)%Q.

(** ** Clustering and the per-batch filter *)

Definition uid := pystr.

Definition k_latest : pystr := str "latest".
Definition k_username : pystr := str "username".
Definition k_score : pystr := str "score".
Definition k_user_id : pystr := str "user_id".

(** [udata.get("latest", {}).get("username") or ""] *)
Definition username_of (udata : pyval) : result pyval :=
  latest <- py_get udata k_latest (PDict []) ;;
  uname <- py_get latest k_username PNone ;;
  Ok (py_or uname (PStr [])).

Fixpoint entries_of (items : pydict) : result (list (uid * pyval)) :=
  match items with
  | [] => Ok []
  | (u, udata) :: rest =>
      uname <- username_of udata ;;
      entries <- entries_of rest ;;
      Ok ((u, uname) :: entries)
  end.

Definition uid_mem (u : uid) (l : list uid) : bool := existsb (pystr_eqb u) l.

(** [set.remove] and [set.discard] on the members of a set. *)
Definition set_remove (u : uid) (l : list uid) : list uid :=
  List.filter (fun x => negb (pystr_eqb x u)) l.

(** [{uid: nm for uid, nm in entries}[u]] *)
Fixpoint name_map_get (entries : list (uid * pyval)) (u : uid)
    : result pyval :=
  match entries with
  | [] => Raise KeyError
  | (u', nm) :: rest =>
      match name_map_get rest u with
      | Ok v => Ok v
      | Raise _ => if pystr_eqb u u' then Ok nm else Raise KeyError
      end
  end.

Record payload : Type := {
  usernames : list pyval;
  count : nat;
  avg_name_similarity : Q;
  median_score : option F.float;
  score_consistent : bool;
  accounts : list pydict
}.

Section Engine.

(** The transliteration of the Unidecode package. *)
Variable unidecode : pystr -> pystr.

(** The built-in [float(s)] on a string: [None] where it raises
    [ValueError]. *)
Variable parse_float : pystr -> option F.float.

(** [list(s)] for a set [s] of strings: the members in the order of the
    hash table, which is not the order of insertion. *)
Variable set_iter : list uid -> list uid.

(** [normalize_name_variants(raw)] on an arbitrary value: [unidecode]
    accepts a [str] only. *)
Definition normalize_name_variants_dyn (raw : pyval) : result (list pystr) :=
  match py_or raw (PStr []) with
  | PStr s => Ok (normalize_name_variants unidecode s)
  | _ => Raise AttributeError
  end.

Definition max_variant_similarity_dyn (a_raw b_raw : pyval) : result Q :=
  a_vars <- normalize_name_variants_dyn a_raw ;;
  b_vars <- normalize_name_variants_dyn b_raw ;;
  Ok (similarity_rows a_vars b_vars 0%Q).

(** The loop [for j in range(i+1, len(names))] for one [names[i]]. *)
Fixpoint pair_row (x : pyval) (rest : list pyval) (acc : Q * nat)
    : result (Q * nat) :=
  match rest with
  | [] => Ok acc
  | y :: rest' =>
      sim <- max_variant_similarity_dyn x y ;;
      pair_row x rest' ((fst acc + sim)%Q, S (snd acc))
  end.

(** The loop [for i in range(len(names))]. *)
Fixpoint pair_rows (names : list pyval) (acc : Q * nat) : result (Q * nat) :=
  match names with
  | [] => Ok acc
  | x :: rest =>
      acc' <- pair_row x rest acc ;;
      pair_rows rest acc'
  end.

Definition pairwise_avg_similarity (names : list pyval) : result Q :=
  if length names <? 2 then Ok 0%Q
  else
    acc <- pair_rows names (0%Q, 0) ;;
    match snd acc with
    | 0 => Ok 0%Q
    | S _ => Ok (fst acc / inject_Z (Z.of_nat (snd acc)))%Q
    end.

(** [float(str(val))] inside [try]: [str(None)] is ["None"], and the text
    of a list or a dict starts with a bracket, which [float] rejects. *)
Definition float_of_text (val : pyval) : option F.float :=
  match val with
  | PStr s => parse_float s
  | _ => None
  end.

Definition numeric_score (val : pyval) : result (option F.float) :=
  match val with
  | PBool b => f <- float_of_int (if b then 1 else 0)%Z ;; Ok (Some f)
  | PInt z => f <- float_of_int z ;; Ok (Some f)
  | PFloat f => Ok (Some f)
  | _ => Ok (float_of_text val)
  end.

(** The loop [for other in to_check]; the state is [group] and
    [unassigned]. *)
Fixpoint scan_others (entries : list (uid * pyval)) (nm : pyval)
    (name_threshold : Q) (to_check : list uid)
    (group unassigned : list uid) : result (list uid * list uid) :=
  match to_check with
  | [] => Ok (group, unassigned)
  | other :: rest =>
      other_nm <- name_map_get entries other ;;
      sim <- max_variant_similarity_dyn nm other_nm ;;
      if Qle_bool name_threshold sim
      then scan_others entries nm name_threshold rest
             (group ++ [other]) (set_remove other unassigned)
      else scan_others entries nm name_threshold rest group unassigned
  end.

(** The loop [for uid, nm in entries]; the state is [unassigned] and
    [clusters]. *)
Fixpoint seed_loop (entries : list (uid * pyval)) (name_threshold : Q)
    (min_group : nat) (todo : list (uid * pyval))
    (unassigned : list uid) (clusters : list (list uid))
    : result (list (list uid)) :=
  match todo with
  | [] => Ok clusters
  | (u, nm) :: rest =>
      if negb (uid_mem u unassigned)
      then seed_loop entries name_threshold min_group rest unassigned clusters
      else
        let unassigned := set_remove u unassigned in
        let to_check := set_iter unassigned in
        st <- scan_others entries nm name_threshold to_check [u] unassigned ;;
        let '(group, unassigned) := st in
        if min_group <=? length group
        then seed_loop entries name_threshold min_group rest unassigned
               (clusters ++ [group])
        else seed_loop entries name_threshold min_group rest unassigned
               clusters
  end.

(** [set(uid for uid, _ in entries)]: the members, each once. *)
Definition set_of (l : list uid) : list uid :=
  fold_left (fun acc u => if uid_mem u acc then acc else acc ++ [u]) l [].

Definition cluster_similar_users (users : pydict) (name_threshold : Q)
    (min_group : nat) : result (list (list uid)) :=
  entries <- entries_of users ;;
  seed_loop entries name_threshold min_group entries
    (set_of (List.map fst entries)) [].

(** The body of [for uid in group_uids]; the state is [accounts], [names]
    and [scores]. *)
Definition payload_step (users : pydict)
    (st : list pydict * list pyval * list F.float) (u : uid)
    : result (list pydict * list pyval * list F.float) :=
  let '(accounts, names, scores) := st in
  let rec := dict_get_default users u (PDict []) in
  uname <- username_of rec ;;
  let acct := [(k_user_id, PStr u); (k_username, uname)] in
  score <- py_get rec k_score PNone ;;
  sc <- numeric_score score ;;
  let acct :=
    match sc with Some f => dict_set acct k_score (PFloat f) | None => acct end in
  let scores := match sc with Some f => scores ++ [f] | None => scores end in
  let fields := match rec with PDict d => d | _ => [] end in
  let acct :=
    fold_left
      (fun acc kv =>
         if pystr_eqb (fst kv) k_latest || pystr_eqb (fst kv) k_score
         then acc else dict_set acc (fst kv) (snd kv))
      fields acct in
  Ok (accounts ++ [acct], names ++ [uname], scores).

Fixpoint payload_loop (users : pydict) (group_uids : list uid)
    (st : list pydict * list pyval * list F.float)
    : result (list pydict * list pyval * list F.float) :=
  match group_uids with
  | [] => Ok st
  | u :: rest =>
      st' <- payload_step users st u ;;
      payload_loop users rest st'
  end.

Definition build_group_payload (group_uids : list uid) (users : pydict)
    : result payload :=
  st <- payload_loop users group_uids ([], [], []) ;;
  let '(accounts, names, scores) := st in
  avg_name_sim <- pairwise_avg_similarity names ;;
  med_score <-
    match scores with
    | [] => Ok None
    | _ => m <- median scores ;; Ok (Some m)
    end ;;
  score_ok <-
    match scores with
    | [] => Ok false
    | _ => scores_consistent scores SCORE_TOLERANCE_RATIO
    end ;;
  Ok {| usernames :=
          List.map (fun a => dict_get_default a k_username PNone) accounts;
        count := length accounts;
        avg_name_similarity := round3 avg_name_sim;
        median_score := med_score;
        score_consistent := score_ok;
        accounts := accounts |}.

(** The three tests of [process_batches] before a payload is kept. *)
Definition kept (p : payload) : bool :=
  if count p <? MIN_GROUP_SIZE then false
  else if Qlt_bool (avg_name_similarity p) NAME_SIMILARITY_THRESHOLD then false
  else if negb (score_consistent p) then false
  else true.

(** The loop [for cluster in clusters] of one batch. *)
Fixpoint filter_clusters (data : pydict) (clusters : list (list uid))
    (suspicious_for_batch : list payload) : result (list payload) :=
  match clusters with
  | [] => Ok suspicious_for_batch
  | cluster :: rest =>
      p <- build_group_payload cluster data ;;
      if kept p
      then filter_clusters data rest (suspicious_for_batch ++ [p])
      else filter_clusters data rest suspicious_for_batch
  end.

(** The body of [process_batches] for one loaded [data.json], with the
    average in exact arithmetic; writing the files is left out.  The run
    with the average of the interpreter and its files is
    [process_batches] below. *)
Definition process_batch (data : pydict) : result (list payload) :=
  clusters <-
    cluster_similar_users data NAME_SIMILARITY_THRESHOLD MIN_GROUP_SIZE ;;
  filter_clusters data clusters [].

End Engine.

(** ** Auxiliary notions for the matcher *)

Definition block_in (alo ahi blo bhi : nat) (x : Difflib.block) : Prop :=
  let '(i, j, k) := x in
  alo <= i /\ i + k <= ahi /\ blo <= j /\ j + k <= bhi.

Definition j2len_in (alo blo i : nat) (f : nat -> nat) : Prop :=
  forall j, f j <= i - alo /\ f j <= j + 1 - blo.

Definition region_ok (r : Difflib.region) : Prop :=
  let '(alo, ahi, blo, bhi) := r in alo <= ahi /\ blo <= bhi.

Definition span_a (r : Difflib.region) : nat :=
  let '(alo, ahi, _, _) := r in ahi - alo.

Definition span_b (r : Difflib.region) : nat :=
  let '(_, _, blo, bhi) := r in bhi - blo.

Definition cost (r : Difflib.region) : nat := 2 * span_a r + 1.

Definition total (f : Difflib.region -> nat) (q : list Difflib.region) : nat :=
  fold_right (fun r acc => f r + acc) 0 q.

(** [diag s i]: the length of the run of elements that are not popular
    which ends at [s[i]]. *)
Fixpoint diag (s : pystr) (i : nat) : nat :=
  if Difflib.popular s (Difflib.a_at s i) then 0
  else S (match i with 0 => 0 | S i' => diag s i' end).

Definition prevdiag (s : pystr) (i : nat) : nat :=
  match i with 0 => 0 | S i' => diag s i' end.

Definition j2len_diag (s : pystr) (i : nat) (f : nat -> nat) : Prop :=
  (forall j, f j <= prevdiag s i)
  /\ (forall j, f j <= diag s j)
  /\ match i with 0 => True | S i' => f i' = diag s i' end.

Definition best_diag (s : pystr) (i : nat) (x : Difflib.block) : Prop :=
  let '(bi, bj, bs) := x in
  bi = bj /\ forall j, j < i -> diag s j <= bs.

(** ** Auxiliary notions for the similarity engine *)

(** The ratios of the pairs of variants, in the order in which the two
    loops of [max_variant_similarity] meet them. *)
Definition ratios (a_vars b_vars : list pystr) : list Q :=
  flat_map (fun av => List.map (name_similarity av) b_vars) a_vars.

(** The two loops as one loop over the ratios. *)
Fixpoint scan (rs : list Q) (best : Q) : loop Q :=
  match rs with
  | [] => Next best
  | r :: rest =>
      if Qlt_bool best r then
        if Qle_bool (999 # 1000)%Q r then Return r else scan rest r
      else scan rest best
  end.

Definition loop_value (l : loop Q) : Q :=
  match l with
  | Next x => x
  | Return x => x
  end.

(** Two names of 1001 characters that differ in their last character. *)
Definition long_stem : pystr := concat (repeat (str "ab") 500).
Definition long_name_a : pystr := long_stem ++ str "1".
Definition long_name_b : pystr := long_stem ++ str "l".

(** ** Auxiliary notions for the cluster builder *)

(** The test of the inner loop of [cluster_similar_users] for one
    unassigned account: its name is looked up and compared with the name
    of the seed. *)
Definition joins (unidecode : pystr -> pystr) (entries : list (uid * pyval))
    (nm : pyval) (name_threshold : Q) (other : uid) : result bool :=
  other_nm <- name_map_get entries other ;;
  sim <- max_variant_similarity_dyn unidecode nm other_nm ;;
  Ok (Qle_bool name_threshold sim).

Definition joined (unidecode : pystr -> pystr) (entries : list (uid * pyval))
    (nm : pyval) (name_threshold : Q) (other : uid) : bool :=
  match joins unidecode entries nm name_threshold other with
  | Ok b => b
  | Raise _ => false
  end.

Definition comparable (unidecode : pystr -> pystr)
    (entries : list (uid * pyval)) (nm : pyval) (name_threshold : Q)
    (other : uid) : bool :=
  match joins unidecode entries nm name_threshold other with
  | Ok _ => true
  | Raise _ => false
  end.

Definition remove_all (l unassigned : list uid) : list uid :=
  List.filter (fun x => negb (uid_mem x l)) unassigned.

(** Every group the outer loop builds, kept or not, in the order of the
    seeds. *)
Fixpoint formed_groups (unidecode : pystr -> pystr)
    (set_iter : list uid -> list uid) (entries : list (uid * pyval))
    (name_threshold : Q) (todo : list (uid * pyval))
    (unassigned : list uid) : list (list uid) :=
  match todo with
  | [] => []
  | (u, nm) :: rest =>
      if negb (uid_mem u unassigned)
      then formed_groups unidecode set_iter entries name_threshold rest
             unassigned
      else
        let unassigned := set_remove u unassigned in
        let members :=
          List.filter (joined unidecode entries nm name_threshold)
            (set_iter unassigned) in
        (u :: members)
        :: formed_groups unidecode set_iter entries name_threshold rest
             (remove_all members unassigned)
  end.

(** No comparison of the outer loop raises. *)
Fixpoint all_comparable (unidecode : pystr -> pystr)
    (set_iter : list uid -> list uid) (entries : list (uid * pyval))
    (name_threshold : Q) (todo : list (uid * pyval))
    (unassigned : list uid) : Prop :=
  match todo with
  | [] => True
  | (u, nm) :: rest =>
      if negb (uid_mem u unassigned)
      then all_comparable unidecode set_iter entries name_threshold rest
             unassigned
      else
        let unassigned := set_remove u unassigned in
        let members :=
          List.filter (joined unidecode entries nm name_threshold)
            (set_iter unassigned) in
        Forall (fun o => comparable unidecode entries nm name_threshold o
                         = true) (set_iter unassigned)
        /\ all_comparable unidecode set_iter entries name_threshold rest
             (remove_all members unassigned)
  end.

(** Two groups with the same seed and the same members, in any order
    after the seed. *)
Definition same_group (g g' : list uid) : Prop :=
  hd_error g = hd_error g' /\ Permutation g g'.

(** The batch of the end-to-end example: three farm accounts and two
    others. *)
Definition account (name : pystr) (score : Z) : pyval :=
  PDict [(k_latest, PDict [(k_username, PStr name)]); (k_score, PInt score)].

Definition gold_batch : pydict :=
  [ (str "1", account (str "GoldFarmer1") 500);
    (str "2", account (str "Alex") 10);
    (str "3", account (str "GoldFarmer2") 520);
    (str "4", account (str "Jamie") 9999);
    (str "5", account (str "GoldFarmer3") 510) ].

(** ** Auxiliary notions for the score validator *)

(** [abs(v - med) / max(abs(med), 1.0)] *)
Definition deviation (v med : F.float) : F.float :=
  F.div (F.abs (F.sub v med)) (F.max (F.abs med) F.one).

(** ** Auxiliary notions for the per-batch filter *)

(** A batch of three accounts whose names are close to the first one and
    less close to each other. *)
Definition rounding_batch : pydict :=
  [ (str "1", account (str "bggbhid") 100);
    (str "2", account (str "bggcghi") 100);
    (str "3", account (str "bggeid") 100) ].

(** [float(s)] for the examples below, none of which has a string score. *)
Definition no_text_scores (s : pystr) : option F.float := None.

(** A record the payload can be built from: its username is a string and
    its score does not overflow. *)
Definition usable (parse_float : pystr -> option F.float) (udata : pyval)
    : Prop :=
  (exists s, username_of udata = Ok (PStr s))
  /\ forall score,
       py_get udata k_score PNone = Ok score ->
       exists sc, numeric_score parse_float score = Ok sc.

Definition all_strings (names : list pyval) : Prop :=
  Forall (fun nm => exists s, nm = PStr s) names.

(** * Further definitions *)

From Stdlib Require DecimalFacts DecimalNat DecimalString.

(** ** Auxiliary notions for the helpers of the normaliser *)

(** Three equal characters in a row, other than line feeds. *)
Fixpoint has_run3 (s : pystr) : bool :=
  match s with
  | [] => false
  | c :: t =>
      match t with
      | d :: e :: _ => (c =? d)%N && (d =? e)%N && negb (c =? 10)%N
      | _ => false
      end || has_run3 t
  end.

(** A string of ASCII characters. *)
Definition is_ascii (s : pystr) : bool := forallb (fun c => (c <? 128)%N) s.

(** [[A-Za-z0-9]] *)
Definition is_alnum (c : N) : bool :=
  Py.in_range 65 90 c || Py.in_range 97 122 c || Py.in_range 48 57 c.

(** What [de_leet] leaves of a character: no digit, no capital, none of
    the symbols of [LEET_SUBS]; and a second pass changes nothing. *)
Definition de_leet_char_ok (c : N) : bool :=
  negb (Py.is_digit (de_leet_char c))
  && negb (Py.in_range 65 90 (de_leet_char c))
  && match dict_get LEET_SUBS (de_leet_char c) with
     | None => true
     | Some _ => false
     end
  && (de_leet_char (de_leet_char c) =? de_leet_char c)%N.

(** ** Auxiliary notions for the blocks of the matcher *)

(** The block is a run of equal elements of [a] and [b]. *)
Definition block_match (a b : pystr) (x : Difflib.block) : Prop :=
  let '(i, j, k) := x in
  forall t, t < k -> Difflib.a_at a (i + t) = Difflib.b_at b (j + t).

(** [f j] is the length of a run of equal elements that ends at
    [a[n-1]] and [b[j]]. *)
Definition j2len_match (a b : pystr) (n : nat) (f : nat -> nat) : Prop :=
  forall j t, t < f j ->
    t < n /\ t <= j /\ Difflib.a_at a (n - 1 - t) = Difflib.b_at b (j - t).

(** The two sides of the region are equal. *)
Definition seg_eq (a b : pystr) (r : Difflib.region) : Prop :=
  let '(alo, ahi, blo, bhi) := r in
  ahi - alo = bhi - blo
  /\ forall t, t < ahi - alo ->
       Difflib.a_at a (alo + t) = Difflib.b_at b (blo + t).

Definition sum_ok (acc : Q * nat) : Prop :=
  (0 <= fst acc <= inject_Z (Z.of_nat (snd acc)))%Q.

(** ** File names *)

Definition MAX_FILENAME_LEN : Z := 64.

(** [[A-Za-z0-9_\-]] *)
Definition is_filename_char (c : N) : bool :=
  Py.in_range 65 90 c || Py.in_range 97 122 c || Py.in_range 48 57 c
  || (c =? ch "_")%N || (c =? ch "-")%N.

(** [s[:n]]: a negative [n] counts from the end. *)
Definition slice_to (s : pystr) (n : Z) : pystr :=
  if (0 <=? n)%Z then firstn (Z.to_nat n) s
  else firstn (length s - Z.to_nat (- n)) s.

(** [s.strip(c)] for one character [c]. *)
Definition strip_char (c : N) (s : pystr) : pystr :=
  rev (Py.dropwhile (N.eqb c) (rev (Py.dropwhile (N.eqb c) s))).

(** [sanitize_filename(s, maxlen)] *)
Definition sanitize_filename_maxlen (s : pystr) (maxlen : Z) : pystr :=
  let s2 :=
    strip_char (ch "_")
      (slice_to
         (List.map (fun c => if is_filename_char c then c else ch "_") s)
         maxlen) in
  if nonempty s2 then s2 else str "group".

(** [sanitize_filename(s)] with the default [maxlen=MAX_FILENAME_LEN]. *)
Definition sanitize_filename (s : pystr) : pystr :=
  sanitize_filename_maxlen s MAX_FILENAME_LEN.

(** A name that is fit for a file name of at most [maxlen] characters. *)
Definition filename_safe (s : pystr) (maxlen : Z) : Prop :=
  s <> []
  /\ Forall (fun c => is_filename_char c = true) s
  /\ (forall t, s <> ch "_" :: t)
  /\ (forall t, s <> t ++ [ch "_"])
  /\ (Z.of_nat (length s) <= maxlen)%Z.

(** The name of the file of one group in [Bot_Recognition]:
    [f"{sanitize_filename(entry.name)}_{sanitize_filename(
    payload['usernames'][0] or 'group')}.json"], for a first username
    that is a string. *)
Definition group_file_name (entry_name first_username : pystr) : pystr :=
  sanitize_filename entry_name ++ str "_"
  ++ sanitize_filename
       (if nonempty first_username then first_username else str "group")
  ++ str ".json".

(** ** Auxiliary notions for the payload of a group *)

(** [acct.update({k: v for k, v in u.items() if k != "latest" and
    k != "score"})] *)
Definition update_fields (fields acct : pydict) : pydict :=
  fold_left
    (fun acc kv =>
       if pystr_eqb (fst kv) k_latest || pystr_eqb (fst kv) k_score
       then acc else dict_set acc (fst kv) (snd kv))
    fields acct.

(** The record of an account, as [build_group_payload] reads it. *)
Definition record_of (users : pydict) (u : uid) : pyval :=
  dict_get_default users u (PDict []).

(** What the loop adds for one member [u]: an account and a name. *)
Definition member_ok (parse_float : pystr -> option F.float)
    (users : pydict) (u : uid) (acct : pydict) (nm : pyval) : Prop :=
  exists d sc,
    record_of users u = PDict d
    /\ username_of (PDict d) = Ok nm
    /\ numeric_score parse_float (dict_get_default d k_score PNone) = Ok sc
    /\ acct
       = update_fields d
           (match sc with
            | Some f =>
                dict_set [(k_user_id, PStr u); (k_username, nm)]
                  k_score (PFloat f)
            | None => [(k_user_id, PStr u); (k_username, nm)]
            end).

(** ** Batches for the examples of the payload and of the clusters *)

(** A batch with an account whose name holds no letter and no digit. *)
Definition symbol_batch : pydict :=
  [ (str "1", account (str "GoldFarmer1") 500);
    (str "2", account (str "-_-") 505);
    (str "3", account (str "GoldFarmer2") 520);
    (str "5", account (str "GoldFarmer3") 510) ].

(** A record with a field [username] of its own beside [latest]. *)
Definition renamed_batch : pydict :=
  [ (str "1",
     PDict [(k_latest, PDict [(k_username, PStr (str "GoldFarmer1"))]);
            (k_username, PStr (str "Other"));
            (k_score, PInt 500)]) ].

(** ** The files of the collection *)

(** [str(n)] for a natural number: its decimal digits. *)
Definition str_of_nat (n : nat) : pystr :=
  str (DecimalString.NilZero.string_of_uint (Nat.to_uint n)).

(** The name of the file of one group in
    [suspicious_accounts_collections]:
    [f"group_{idx}_{sanitize_filename(g['usernames'][0] or 'group')}"]
    with [.json], for a first username that is a string. *)
Definition collection_file_name (idx : nat) (first_username : pystr)
    : pystr :=
  str "group_" ++ str_of_nat idx ++ str "_"
  ++ sanitize_filename
       (if nonempty first_username then first_username else str "group")
  ++ str ".json".

(** Two accounts with the same name among others. *)
Definition twin_batch : pydict :=
  [ (str "1", account (str "GoldFarmer1") 500);
    (str "2", account (str "Alex") 10);
    (str "3", account (str "GoldFarmer2") 520);
    (str "4", account (str "Alex") 9999);
    (str "5", account (str "GoldFarmer3") 510) ].

(** ** Auxiliary notions for names that are written differently *)

(** The letters and digits of a name, in lower case and with the
    substitutions of [LEET_SUBS] undone. *)
Definition skeleton (t : pystr) : pystr := de_leet (List.filter is_alnum t).

(** * The run of [process_batches] *)

(** ** The average name similarity in binary64 *)

(** The double of a similarity.  [2.0 * matches / length] is the quotient
    of two integers, rounded once; the numerator and the denominator of
    the exact ratio are these integers, and [0.0] and [1.0] are [0 / 1]
    and [1 / 1].  The lengths of names are far below [2^53], where
    [F.of_Z] is exact. *)
Definition float_of_ratio (q : Q) : F.float :=
  F.div (F.of_Z (Qnum q)) (F.of_Z (Zpos (Qden q))).

(** The exact value of a finite double. *)
Definition float_value (x : F.float) : Q :=
  match x with
  | S754_finite s m e => (inject_Z (cond_Zopp s (Zpos m)) * 2 ^ e)%Q
  | _ => 0%Q
  end.

(** [round(x, 3)] on a double: the exact value of [x] is rounded to the
    nearest multiple of 1/1000, a tie going to the even one, and the
    result is the double nearest to that decimal.  The decimal stands for
    this double; a sum of ratios and its average are finite. *)
Definition round3_binary64 (x : F.float) : Q := round3 (float_value x).

Section Run.

Variable unidecode : pystr -> pystr.
Variable parse_float : pystr -> option F.float.
Variable set_iter : list uid -> list uid.

(** The loop [for j in range(i+1, len(names))] for one [names[i]], with
    [total] a double. *)
Fixpoint pair_row_binary64 (x : pyval) (rest : list pyval)
    (acc : F.float * nat) : result (F.float * nat) :=
  match rest with
  | [] => Ok acc
  | y :: rest' =>
      sim <- max_variant_similarity_dyn unidecode x y ;;
      pair_row_binary64 x rest'
        (F.add (fst acc) (float_of_ratio sim), S (snd acc))
  end.

(** The loop [for i in range(len(names))]. *)
Fixpoint pair_rows_binary64 (names : list pyval) (acc : F.float * nat)
    : result (F.float * nat) :=
  match names with
  | [] => Ok acc
  | x :: rest =>
      acc' <- pair_row_binary64 x rest acc ;;
      pair_rows_binary64 rest acc'
  end.

(** [pairwise_avg_similarity(names)] as the interpreter computes it. *)
Definition pairwise_avg_similarity_binary64 (names : list pyval)
    : result F.float :=
  if length names <? 2 then Ok F.zero
  else
    acc <- pair_rows_binary64 names (F.zero, 0) ;;
    match snd acc with
    | 0 => Ok F.zero
    | S _ => Ok (F.div (fst acc) (F.of_Z (Z.of_nat (snd acc))))
    end.

(** [build_group_payload(group_uids, users)] with the average of the
    interpreter. *)
Definition build_group_payload_binary64 (group_uids : list uid)
    (users : pydict) : result payload :=
  st <- payload_loop parse_float users group_uids ([], [], []) ;;
  let '(accounts, names, scores) := st in
  avg_name_sim <- pairwise_avg_similarity_binary64 names ;;
  med_score <-
    match scores with
    | [] => Ok None
    | _ => m <- median scores ;; Ok (Some m)
    end ;;
  score_ok <-
    match scores with
    | [] => Ok false
    | _ => scores_consistent scores SCORE_TOLERANCE_RATIO
    end ;;
  Ok {| usernames :=
          List.map (fun a => dict_get_default a k_username PNone) accounts;
        count := length accounts;
        avg_name_similarity := round3_binary64 avg_name_sim;
        median_score := med_score;
        score_consistent := score_ok;
        accounts := accounts |}.

(** ** The files of the run *)

(** A file the run writes, with the value that [json.dump] receives: the
    file of one group in [Bot_Recognition], the combined summary
    [suspicious_accounts.json], the file of one group in
    [suspicious_accounts_collections]. *)
Inductive written : Type :=
| BotFile (name : pystr) (p : payload)
| CombinedFile (total : nat) (groups : list payload)
| CollectionFile (name : pystr) (g : payload).

(** The exception, if any, of opening a file and dumping the value into
    it: an [OSError] of the file system, or the [UnicodeEncodeError] of a
    string that holds a surrogate. *)
Variable write_error : written -> option exn.

(** [with path.open("w", encoding="utf-8") as f: json.dump(value, f,
    ...)]; the state is the list of the files written so far. *)
Definition write_file (w : written) (log : list written)
    : list written * result unit :=
  match write_error w with
  | Some e => (log, Raise e)
  | None => (log ++ [w], Ok tt)
  end.

(** [sanitize_filename(x)] on an arbitrary value: [re.sub] accepts a [str]
    only. *)
Definition sanitize_filename_dyn (x : pyval) : result pystr :=
  match x with
  | PStr s => Ok (sanitize_filename s)
  | _ => Raise TypeError
  end.

(** [sanitize_filename(payload['usernames'][0] or 'group')] *)
Definition first_username_part (p : payload) : result pystr :=
  match usernames p with
  | [] => Raise IndexError
  | x :: _ => sanitize_filename_dyn (py_or x (PStr (str "group")))
  end.

(** [f"{sanitize_filename(entry.name)}_{sanitize_filename(
    payload['usernames'][0] or 'group')}.json"] *)
Definition bot_file_name (entry_name : pystr) (p : payload)
    : result pystr :=
  part <- first_username_part p ;;
  Ok (sanitize_filename entry_name ++ str "_" ++ part ++ str ".json").

(** [f"group_{idx}_{sanitize_filename(g['usernames'][0] or
    'group')}"] with [.json]. *)
Definition collection_name (idx : nat) (g : payload) : result pystr :=
  part <- first_username_part g ;;
  Ok (str "group_" ++ str_of_nat idx ++ str "_" ++ part ++ str ".json").

(** The loop [for cluster in clusters] of one batch; the state is
    [suspicious_for_batch] and the files written. *)
Fixpoint emit_clusters (entry_name : pystr) (data : pydict)
    (clusters : list (list uid)) (suspicious_for_batch : list payload)
    (log : list written) : list written * result (list payload) :=
  match clusters with
  | [] => (log, Ok suspicious_for_batch)
  | cluster :: rest =>
      match build_group_payload_binary64 cluster data with
      | Raise e => (log, Raise e)
      | Ok p =>
          if kept p then
            match bot_file_name entry_name p with
            | Raise e => (log, Raise e)
            | Ok fn =>
                match write_file (BotFile fn p) log with
                | (log', Raise e) => (log', Raise e)
                | (log', Ok _) =>
                    emit_clusters entry_name data rest
                      (suspicious_for_batch ++ [p]) log'
                end
            end
          else emit_clusters entry_name data rest suspicious_for_batch log
      end
  end.

(** The loop [for entry in sorted(...)] over the directories of
    [data/www], each with its name and the value of its [data.json];
    [None] stands for a directory without [data.json] or with one that
    does not load, which is skipped.  A value that is not a dict has no
    [items]. *)
Fixpoint batches_loop (entries : list (pystr * option pyval))
    (all_groups : list payload) (log : list written)
    : list written * result (list payload) :=
  match entries with
  | [] => (log, Ok all_groups)
  | (_, None) :: rest => batches_loop rest all_groups log
  | (entry_name, Some (PDict data)) :: rest =>
      match cluster_similar_users unidecode set_iter data
              NAME_SIMILARITY_THRESHOLD MIN_GROUP_SIZE with
      | Raise e => (log, Raise e)
      | Ok clusters =>
          match emit_clusters entry_name data clusters [] log with
          | (log', Raise e) => (log', Raise e)
          | (log', Ok suspicious_for_batch) =>
              batches_loop rest (all_groups ++ suspicious_for_batch) log'
          end
      end
  | (_, Some _) :: _ => (log, Raise AttributeError)
  end.

(** The loop [for idx, g in enumerate(all_groups, 1)]. *)
Fixpoint collections_loop (groups : list payload) (idx : nat)
    (log : list written) : list written * result unit :=
  match groups with
  | [] => (log, Ok tt)
  | g :: rest =>
      match collection_name idx g with
      | Raise e => (log, Raise e)
      | Ok name =>
          match write_file (CollectionFile name g) log with
          | (log', Raise e) => (log', Raise e)
          | (log', Ok _) => collections_loop rest (S idx) log'
          end
      end
  end.

(** [process_batches(data_www, hits_root)] on the directories of
    [data_www]: the files written, in the order of writing, and the
    exception if the run ends with one.  The two output directories are
    taken to exist after [mkdir]. *)
Definition process_batches (entries : list (pystr * option pyval))
    : list written * result unit :=
  match batches_loop entries [] [] with
  | (log, Raise e) => (log, Raise e)
  | (log, Ok all_groups) =>
      match write_file (CombinedFile (length all_groups) all_groups) log with
      | (log', Raise e) => (log', Raise e)
      | (log', Ok _) => collections_loop all_groups 1 log'
      end
  end.

End Run.

(** ** Auxiliary notions for the run *)

(** The score of the record, if it has one, is not NaN: on such scores
    [sorted] is the built-in [sorted]. *)
Definition score_not_nan (parse_float : pystr -> option F.float)
    (udata : pyval) : Prop :=
  forall score x,
    py_get udata k_score PNone = Ok score ->
    numeric_score parse_float score = Ok (Some x) ->
    F.is_nan x = false.

(** A value that [sanitize_filename(x or 'group')] accepts: a string, or
    a value that counts as false. *)
Definition names_file (x : pyval) : Prop :=
  exists s, py_or x (PStr (str "group")) = PStr s.

(** A record the run can process: the payload can be built from it, and
    a field [username] of its own, if it has one, can name a file. *)
Definition processable (parse_float : pystr -> option F.float)
    (udata : pyval) : Prop :=
  usable parse_float udata
  /\ forall d v, udata = PDict d -> In (k_username, v) d -> names_file v.

(** A directory the run can process: its [data.json], if it loads, is a
    dict of such records. *)
Definition loadable (parse_float : pystr -> option F.float)
    (entry : pystr * option pyval) : Prop :=
  match snd entry with
  | None => True
  | Some (PDict data) =>
      forall u udata, In (u, udata) data -> processable parse_float udata
  | Some _ => False
  end.

(** The three tests of the orchestrator, on what the payload of a
    cluster is built from. *)
Definition passes (group_uids : list uid) (avg : F.float)
    (scores : list F.float) : Prop :=
  MIN_GROUP_SIZE <= length group_uids
  /\ (NAME_SIMILARITY_THRESHOLD <= round3_binary64 avg)%Q
  /\ scores <> []
  /\ scores_consistent scores SCORE_TOLERANCE_RATIO = Ok true.

(** A file system that takes every file. *)
Definition no_write_error (w : written) : option exn := None.

(** A batch whose first record has a number for a field [username] of
    its own. *)
Definition numbered_batch : pydict :=
  [ (str "1",
     PDict [(k_latest, PDict [(k_username, PStr (str "GoldFarmer1"))]);
            (k_username, PInt 5);
            (k_score, PInt 500)]);
    (str "3", account (str "GoldFarmer2") 520);
    (str "5", account (str "GoldFarmer3") 510) ].

(** The entry of [usernames] that an account gives can name a file. *)
Definition account_names_file (acct : pydict) : Prop :=
  names_file (dict_get_default acct k_username PNone).

(** A file of [Bot_Recognition] with a payload that passed the three
    tests. *)
Definition kept_file (w : written) : Prop :=
  exists fn p, w = BotFile fn p /\ kept p = true.

(** What the loop over the directories leaves when it ends. *)
Definition batch_groups (unidecode : pystr -> pystr)
    (parse_float : pystr -> option F.float)
    (set_iter : list uid -> list uid)
    (entries : list (pystr * option pyval))
    (files : list written) (added : list payload) : Prop :=
  Forall2 (fun w p => exists fn, w = BotFile fn p) files added
  /\ Forall (fun p => kept p = true) added
  /\ Forall (fun p => exists part, first_username_part p = Ok part) added
  /\ forall entry_name data,
       In (entry_name, Some (PDict data)) entries ->
       exists clusters payloads,
         cluster_similar_users unidecode set_iter data
           NAME_SIMILARITY_THRESHOLD MIN_GROUP_SIZE = Ok clusters
         /\ Forall2 (fun c p =>
                       build_group_payload_binary64 unidecode parse_float
                         c data = Ok p) clusters payloads
         /\ forall p, In p payloads -> kept p = true ->
              In p added
              /\ exists fn,
                   bot_file_name entry_name p = Ok fn
                   /\ In (BotFile fn p) files.
(** * Properties *)

(** ** Strings and the normaliser *)

Lemma pystr_eqb_eq (a b : pystr) : pystr_eqb a b = true <-> a = b.
Proof.
  unfold pystr_eqb. destruct (list_eq_dec N.eq_dec a b); split; congruence.
Qed.

Lemma pystr_eqb_refl (a : pystr) : pystr_eqb a a = true.
Proof. now apply pystr_eqb_eq. Qed.

Lemma pystr_eqb_neq (a b : pystr) : pystr_eqb a b = false <-> a <> b.
Proof.
  unfold pystr_eqb. destruct (list_eq_dec N.eq_dec a b); split; congruence.
Qed.

Lemma pystr_eqb_sym (a b : pystr) : pystr_eqb a b = pystr_eqb b a.
Proof.
  destruct (pystr_eqb b a) eqn:E.
  - apply pystr_eqb_eq in E. subst. apply pystr_eqb_refl.
  - apply pystr_eqb_neq in E. apply pystr_eqb_neq. congruence.
Qed.

Lemma dropwhile_length p s : length (Py.dropwhile p s) <= length s.
Proof.
  induction s as [|c t IH]; simpl; [lia|].
  destruct (p c); simpl; lia.
Qed.

Lemma strip_length s : length (Py.strip s) <= length s.
Proof.
  unfold Py.strip, Py.rstrip, Py.lstrip.
  rewrite length_rev.
  etransitivity; [apply dropwhile_length|].
  rewrite length_rev. apply dropwhile_length.
Qed.

Lemma sub_runs_from_length p repl r s :
  length repl <= 1 -> length (Py.sub_runs_from p repl r s) <= length s.
Proof.
  intros Hr. revert r.
  induction s as [|c t IH]; intros r; simpl; [lia|].
  destruct (p c).
  - destruct r.
    + specialize (IH true). lia.
    + rewrite length_app. specialize (IH true). lia.
  - simpl. specialize (IH false). lia.
Qed.

Lemma sub_runs_length p repl s :
  length repl <= 1 -> length (Py.sub_runs p repl s) <= length s.
Proof. apply sub_runs_from_length. Qed.

Lemma sub_runs_from_empty p r s :
  Py.sub_runs_from p [] r s = List.filter (fun c => negb (p c)) s.
Proof.
  revert r. induction s as [|c t IH]; intros r; simpl; [reflexivity|].
  destruct (p c); simpl.
  - destruct r; apply IH.
  - f_equal. apply IH.
Qed.

Lemma sub_runs_empty p s :
  Py.sub_runs p [] s = List.filter (fun c => negb (p c)) s.
Proof. apply sub_runs_from_empty. Qed.

Lemma collapse_repeats_from_length c run s :
  length (collapse_repeats_from c run s) <= length s.
Proof.
  revert c run.
  induction s as [|d t IH]; intros c run;
    cbn [collapse_repeats_from length]; [lia|].
  destruct (d =? c)%N.
  - destruct (_ && _); cbn [length]; specialize (IH c (S run)); lia.
  - cbn [length]. specialize (IH d 1). lia.
Qed.

Lemma collapse_repeats_length s : length (collapse_repeats s) <= length s.
Proof.
  destruct s as [|c t]; simpl; [lia|].
  pose proof (collapse_repeats_from_length c 1 t). lia.
Qed.

Lemma remove_separators_length s : length (remove_separators s) <= length s.
Proof. apply sub_runs_length. simpl. lia. Qed.

Lemma stripped_numbers_length s : length (stripped_numbers s) <= length s.
Proof. apply sub_runs_length. simpl. lia. Qed.

Lemma clean_length s : length (clean s) <= length s.
Proof. apply sub_runs_length. simpl. lia. Qed.

Lemma de_leet_length s : length (de_leet s) = length s.
Proof. apply length_map. Qed.

Lemma replace_homoglyphs_length s : length (replace_homoglyphs s) = length s.
Proof.
  unfold replace_homoglyphs. generalize HOMOGLYPHS as tbl. intros tbl.
  revert s. induction tbl as [|kv tbl IH]; intros s; simpl; [reflexivity|].
  rewrite IH. apply length_map.
Qed.

Lemma clean_alnum u : Forall (fun c => Py.is_alnum_lower c = true) (clean u).
Proof.
  unfold clean. rewrite sub_runs_empty. apply Forall_forall.
  intros c Hc. apply filter_In in Hc. destruct Hc as [_ Hc].
  now rewrite negb_involutive in Hc.
Qed.

Lemma dedup_fold_incl l acc x :
  In x (fold_left dedup_step l acc) -> In x acc \/ In x l.
Proof.
  revert acc. induction l as [|y l IH]; intros acc H; simpl in *; [now left|].
  apply IH in H. destruct H as [H|H]; [|now right; right].
  unfold dedup_step in H. destruct (Py.mem y acc); [now left|].
  apply in_app_or in H. destruct H as [H|[H|[]]]; [now left|right; now left].
Qed.

Lemma dedup_incl l x : In x (dedup l) -> In x l.
Proof.
  intros H. apply dedup_fold_incl in H. destruct H as [[]|H]. exact H.
Qed.

Lemma mem_In x l : Py.mem x l = true <-> In x l.
Proof.
  unfold Py.mem. rewrite existsb_exists. split.
  - intros [y [Hy E]]. apply pystr_eqb_eq in E. now subst.
  - intros H. exists x. split; [exact H|apply pystr_eqb_refl].
Qed.

Lemma dedup_fold_length l acc :
  length (fold_left dedup_step l acc) <= length acc + length l.
Proof.
  revert acc. induction l as [|y l IH]; intros acc; simpl; [lia|].
  specialize (IH (dedup_step acc y)).
  unfold dedup_step in *. destruct (Py.mem y acc); [lia|].
  rewrite length_app in IH. simpl in IH. lia.
Qed.

Lemma dedup_fold_NoDup l acc : NoDup acc -> NoDup (fold_left dedup_step l acc).
Proof.
  revert acc. induction l as [|y l IH]; intros acc H; simpl; [exact H|].
  apply IH. unfold dedup_step. destruct (Py.mem y acc) eqn:E; [exact H|].
  apply NoDup_app; [exact H|repeat constructor; intros []|].
  intros x Hx [Hy|[]]. subst.
  apply mem_In in Hx. congruence.
Qed.

Lemma dedup_NoDup l : NoDup (dedup l).
Proof. apply dedup_fold_NoDup. constructor. Qed.

Section NormalizerFacts.

Variable unidecode : pystr -> pystr.

Lemma base_of_length raw : length (base_of unidecode raw) <= length (unidecode raw).
Proof.
  unfold base_of.
  etransitivity; [apply strip_length|].
  unfold Py.sub_each_empty.
  etransitivity; [apply filter_length_le|].
  unfold Py.lower. rewrite length_map. now rewrite replace_homoglyphs_length.
Qed.

Lemma v1_of_length base : length (v1_of base) <= length base.
Proof.
  unfold v1_of.
  etransitivity; [apply sub_runs_length; simpl; lia|].
  etransitivity; [apply strip_length|].
  apply sub_runs_length. simpl. lia.
Qed.

Lemma variants_of_length raw leet u :
  In u (variants_of unidecode raw leet) -> length u <= length (unidecode raw).
Proof.
  intros H.
  pose proof (base_of_length raw) as Hb.
  pose proof (v1_of_length (base_of unidecode raw)) as H1.
  unfold variants_of in H.
  remember (v1_of (base_of unidecode raw)) as v1 eqn:Ev1.
  pose proof (collapse_repeats_length v1) as H2.
  pose proof (remove_separators_length (collapse_repeats v1)) as H3.
  assert (Hleet : forall s, length (if leet then de_leet s else s) = length s).
  { intros s. destruct leet; [apply de_leet_length|reflexivity]. }
  assert (Hsn : forall s n, length s <= n -> length (stripped_numbers s) <= n).
  { intros s n Hs. pose proof (stripped_numbers_length s). lia. }
  cbv zeta in H. cbn [In] in H.
  clear Ev1.
  repeat (destruct H as [H|H];
          [subst u; try apply Hsn; rewrite ?Hleet; lia|]).
  destruct H.
Qed.

Lemma normalize_In_clean raw leet v :
  In v (normalize_name_variants_leet unidecode raw leet) ->
  nonempty v = true /\
  exists u, In u (variants_of unidecode raw leet) /\ v = clean u.
Proof.
  unfold normalize_name_variants_leet.
  generalize (variants_of unidecode raw leet) as vs. intros vs H.
  apply filter_In in H. destruct H as [H Hne].
  split; [exact Hne|].
  apply in_map_iff in H. destruct H as [u [E Hu]].
  exists u. split; [apply dedup_incl; exact Hu|symmetry; exact E].
Qed.

Lemma normalize_unfold raw :
  normalize_name_variants unidecode raw
  = normalize_name_variants_leet unidecode raw LEET_MODE.
Proof. reflexivity. Qed.

Lemma normalize_variant_length raw v :
  In v (normalize_name_variants unidecode raw) ->
  length v <= length (unidecode raw).
Proof.
  rewrite normalize_unfold. intros H.
  apply normalize_In_clean in H.
  destruct H as [_ [u [Hu ->]]].
  etransitivity; [apply clean_length|].
  eapply variants_of_length; eassumption.
Qed.

Lemma normalize_variant_nonempty raw v :
  In v (normalize_name_variants unidecode raw) -> nonempty v = true.
Proof.
  rewrite normalize_unfold. intros H.
  apply normalize_In_clean in H. tauto.
Qed.

Lemma normalize_variant_alnum raw v :
  In v (normalize_name_variants unidecode raw) ->
  Forall (fun c => Py.is_alnum_lower c = true) v.
Proof.
  rewrite normalize_unfold. intros H.
  apply normalize_In_clean in H.
  destruct H as [_ [u [_ ->]]]. apply clean_alnum.
Qed.

Lemma normalize_length_le_12 raw :
  length (normalize_name_variants unidecode raw) <= 12.
Proof.
  rewrite normalize_unfold. unfold normalize_name_variants_leet.
  assert (H : length (variants_of unidecode raw LEET_MODE) = 12)
    by reflexivity.
  revert H. generalize (variants_of unidecode raw LEET_MODE) as vs.
  intros vs H.
  etransitivity; [apply filter_length_le|].
  rewrite length_map. unfold dedup.
  etransitivity; [apply dedup_fold_length|]. simpl. lia.
Qed.

End NormalizerFacts.
(** ** The matcher *)

Lemma row_bounds alo ahi blo bhi i j2len js newj2len best new' best' :
  alo <= i -> i < ahi ->
  j2len_in alo blo i j2len ->
  j2len_in alo blo (S i) newj2len ->
  block_in alo ahi blo bhi best ->
  Difflib.row i blo bhi j2len js newj2len best = (new', best') ->
  j2len_in alo blo (S i) new' /\ block_in alo ahi blo bhi best'.
Proof.
  intros Hi Hi' Hprev. revert newj2len best.
  induction js as [|j js IH]; intros newj2len best Hnew Hbest H;
    cbn [Difflib.row] in H.
  - inversion H; subst. split; assumption.
  - destruct (j <? blo) eqn:Eblo; [eapply IH; eassumption|].
    destruct (bhi <=? j) eqn:Ebhi; [inversion H; subst; split; assumption|].
    apply Nat.ltb_ge in Eblo. apply Nat.leb_gt in Ebhi.
    destruct best as [[bi bj] bs].
    set (k := S (match j with 0 => 0 | S j' => j2len j' end)) in *.
    assert (Hk : k <= i + 1 - alo /\ k <= j + 1 - blo).
    { unfold k. destruct j as [|j'].
      - lia.
      - destruct (Hprev j') as [H1 H2]. lia. }
    eapply IH; [| |exact H].
    + intros x. destruct (x =? j) eqn:Ex.
      * apply Nat.eqb_eq in Ex. subst x. lia.
      * apply Hnew.
    + destruct (bs <? k); [|exact Hbest].
      unfold block_in. lia.
Qed.

Lemma rows_bounds a b alo ahi blo bhi n i j2len best :
  alo <= i -> i + n <= ahi ->
  j2len_in alo blo i j2len ->
  block_in alo ahi blo bhi best ->
  block_in alo ahi blo bhi (Difflib.rows a b blo bhi (seq i n) j2len best).
Proof.
  revert i j2len best.
  induction n as [|n IH]; intros i j2len best Hi Hn Hprev Hbest;
    cbn [seq Difflib.rows]; [exact Hbest|].
  destruct (Difflib.row i blo bhi j2len (Difflib.b2j b (Difflib.a_at a i))
              (fun _ => 0) best) as [new' best'] eqn:E.
  eapply row_bounds in E; try eassumption; try lia.
  - destruct E as [E1 E2]. apply IH; try lia; assumption.
  - intros j. lia.
Qed.

Lemma extend_back_bounds a b alo ahi blo bhi bi bj bs :
  block_in alo ahi blo bhi (bi, bj, bs) ->
  block_in alo ahi blo bhi (Difflib.extend_back a b alo blo bi bj bs).
Proof.
  revert bj bs. induction bi as [|i' IH]; intros bj bs H;
    cbn [Difflib.extend_back]; [exact H|].
  destruct bj as [|j']; [exact H|].
  destruct (_ && _) eqn:E; [|exact H].
  apply andb_prop in E. destruct E as [E _].
  apply andb_prop in E. destruct E as [E1 E2].
  apply Nat.ltb_lt in E1, E2.
  apply IH. unfold block_in in *. lia.
Qed.

Lemma extend_fwd_bounds a b steps ahi bhi bi bj bs :
  bi + bs <= ahi -> bj + bs <= bhi ->
  let bs' := Difflib.extend_fwd a b steps ahi bhi bi bj bs in
  bs <= bs' /\ bi + bs' <= ahi /\ bj + bs' <= bhi.
Proof.
  revert bs. induction steps as [|n IH]; intros bs H1 H2;
    cbn [Difflib.extend_fwd]; [lia|].
  destruct (_ && _) eqn:E; [|cbv zeta; lia].
  apply andb_prop in E. destruct E as [E _].
  apply andb_prop in E. destruct E as [E1 E2].
  apply Nat.ltb_lt in E1, E2.
  specialize (IH (S bs)). cbv zeta in *. lia.
Qed.

Lemma find_longest_match_bounds a b alo ahi blo bhi :
  alo <= ahi -> blo <= bhi ->
  block_in alo ahi blo bhi (Difflib.find_longest_match a b alo ahi blo bhi).
Proof.
  intros Ha Hb. unfold Difflib.find_longest_match.
  assert (H0 : block_in alo ahi blo bhi
                 (Difflib.rows a b blo bhi (seq alo (ahi - alo))
                    (fun _ => 0) (alo, blo, 0))).
  { apply rows_bounds; try lia.
    - intros j. lia.
    - unfold block_in. lia. }
  destruct (Difflib.rows _ _ _ _ _ _ _) as [[bi bj] bs].
  apply (extend_back_bounds a b) in H0.
  destruct (Difflib.extend_back _ _ _ _ _ _ _) as [[bi' bj'] bs'].
  unfold block_in in *.
  pose proof (@extend_fwd_bounds a b (ahi - (bi' + bs')) ahi bhi bi' bj' bs')
    as H.
  cbv zeta in H. lia.
Qed.

Lemma total_app f q1 q2 : total f (q1 ++ q2) = total f q1 + total f q2.
Proof. induction q1 as [|r q1 IH]; simpl; [reflexivity|]. rewrite IH. lia. Qed.

Lemma total_cons f r q : total f (r :: q) = f r + total f q.
Proof. reflexivity. Qed.

Lemma matches_app l x :
  Difflib.matches (l ++ [x]) = Difflib.matches l + snd x.
Proof.
  unfold Difflib.matches. induction l as [|y l IH]; simpl; [lia|].
  rewrite IH. lia.
Qed.

Lemma optional_region (c : bool) (r : Difflib.region) n m :
  region_ok r -> span_a r <= n -> span_b r <= m ->
  Forall region_ok (if c then [r] else [])
  /\ total span_a (if c then [r] else []) <= n
  /\ total span_b (if c then [r] else []) <= m
  /\ total cost (if c then [r] else []) <= 2 * n + 1.
Proof.
  intros Hr Ha Hb. destruct c.
  - rewrite !total_cons. unfold cost. simpl.
    split; [constructor; [exact Hr|constructor]|lia].
  - simpl. split; [constructor|lia].
Qed.

(** The loop of [get_matching_blocks] ends within [2 * span + 1] rounds of
    the queue, and the blocks it adds fit the regions that were waiting. *)
Lemma blocks_loop_total a b fuel q acc :
  Forall region_ok q ->
  total cost q <= fuel ->
  exists l,
    Difflib.blocks_loop a b fuel q acc = Some l
    /\ Difflib.matches l <= Difflib.matches acc + total span_a q
    /\ Difflib.matches l <= Difflib.matches acc + total span_b q.
Proof.
  revert q acc. induction fuel as [|fuel IH]; intros q acc Hq Hf.
  - destruct q as [|[[[alo ahi] blo] bhi] rest].
    + exists acc. simpl. split; [reflexivity|split; lia].
    + rewrite total_cons in Hf. unfold cost in Hf. lia.
  - destruct q as [|[[[alo ahi] blo] bhi] rest];
      cbn [Difflib.blocks_loop].
    + exists acc. simpl. split; [reflexivity|split; lia].
    + inversion Hq as [|r rest' Hr Hrest]; subst.
      destruct Hr as [Hr1 Hr2].
      pose proof (find_longest_match_bounds a b Hr1 Hr2) as Hb.
      destruct (Difflib.find_longest_match a b alo ahi blo bhi)
        as [[i j] k].
      unfold block_in in Hb.
      rewrite total_cons in Hf. rewrite !total_cons.
      change (cost (alo, ahi, blo, bhi)) with (2 * (ahi - alo) + 1) in Hf.
      change (span_a (alo, ahi, blo, bhi)) with (ahi - alo).
      change (span_b (alo, ahi, blo, bhi)) with (bhi - blo).
      destruct (k =? 0) eqn:Ek.
      * destruct (IH rest acc Hrest) as [l [E [H1 H2]]]; [lia|].
        exists l. split; [exact E|split; lia].
      * apply Nat.eqb_neq in Ek.
        match goal with
        | |- context [Difflib.blocks_loop _ _ _ (?r ++ ?l ++ rest) ?acc'] =>
            assert (Hl : Forall region_ok l
                         /\ total span_a l <= i - alo
                         /\ total span_b l <= j - blo
                         /\ total cost l <= 2 * (i - alo) + 1)
              by (apply optional_region;
                  [unfold region_ok; lia|simpl; lia|simpl; lia]);
            assert (Hr : Forall region_ok r
                         /\ total span_a r <= ahi - (i + k)
                         /\ total span_b r <= bhi - (j + k)
                         /\ total cost r <= 2 * (ahi - (i + k)) + 1)
              by (apply optional_region;
                  [unfold region_ok; lia|simpl; lia|simpl; lia]);
            destruct Hl as [Hl0 [Hl1 [Hl2 Hl3]]];
            destruct Hr as [Hr0 [Hr1' [Hr2' Hr3]]];
            destruct (IH (r ++ l ++ rest) acc') as [res [E [H1 H2]]];
            [ apply Forall_app; split; [exact Hr0|];
              apply Forall_app; split; assumption
            | rewrite !total_app; lia
            | exists res; rewrite matches_app in H1, H2;
              rewrite !total_app in H1, H2; cbn [snd] in H1, H2;
              split; [exact E|split; lia] ]
        end.
Qed.

Lemma get_matching_blocks_run a b :
  exists l,
    Difflib.blocks_loop a b (2 * length a + 1)
      [(0, length a, 0, length b)] [] = Some l
    /\ Difflib.get_matching_blocks a b = l
    /\ Difflib.matches l <= length a
    /\ Difflib.matches l <= length b.
Proof.
  destruct (@blocks_loop_total a b (2 * length a + 1)
              [(0, length a, 0, length b)] []) as [l [E [H1 H2]]].
  - repeat constructor; lia.
  - unfold cost. simpl. lia.
  - exists l. unfold Difflib.get_matching_blocks. rewrite E.
    simpl in H1, H2. split; [reflexivity|split; [reflexivity|split; lia]].
Qed.

Lemma Zpos_of_nat_S n : Zpos (Pos.of_nat (S n)) = Z.of_nat (S n).
Proof. rewrite <- Pos.of_nat_succ, Zpos_P_of_succ_nat. lia. Qed.

Lemma ratio_range a b : (0 <= Difflib.ratio a b <= 1)%Q.
Proof.
  unfold Difflib.ratio.
  destruct (get_matching_blocks_run a b) as [l [_ [-> [H1 H2]]]].
  destruct (length a + length b) as [|n] eqn:E.
  - split; unfold Qle; simpl; lia.
  - split; unfold Qle; cbn [Qnum Qden]; rewrite ?Zpos_of_nat_S; lia.
Qed.


(** *** A sequence against itself *)

Lemma indices_from_spec c s off j :
  In j (Difflib.indices_from c s off) <->
  off <= j /\ j < off + length s /\ nth (j - off) s 0%N = c.
Proof.
  revert off. induction s as [|d t IH]; intros off;
    cbn [Difflib.indices_from length].
  - split; [intros []|lia].
  - assert (Hnth : forall x, off < x ->
              nth (x - off) (d :: t) 0%N = nth (x - S off) t 0%N).
    { intros x Hx. replace (x - off) with (S (x - S off)) by lia.
      reflexivity. }
    destruct (d =? c)%N eqn:E.
    + apply N.eqb_eq in E. subst d. cbn [In]. rewrite IH. split.
      * intros [H|[H1 [H2 H3]]].
        -- subst j. rewrite Nat.sub_diag. simpl. lia.
        -- rewrite Hnth by lia. lia.
      * intros [H1 [H2 H3]]. destruct (Nat.eq_dec off j) as [->|Hne].
        -- now left.
        -- right. rewrite Hnth in H3 by lia. lia.
    + apply N.eqb_neq in E. rewrite IH. split.
      * intros [H1 [H2 H3]]. rewrite Hnth by lia. lia.
      * intros [H1 [H2 H3]]. destruct (Nat.eq_dec off j) as [->|Hne].
        -- rewrite Nat.sub_diag in H3. simpl in H3. congruence.
        -- rewrite Hnth in H3 by lia. lia.
Qed.

Lemma indices_from_sorted c s off :
  StronglySorted lt (Difflib.indices_from c s off).
Proof.
  revert off. induction s as [|d t IH]; intros off;
    cbn [Difflib.indices_from]; [constructor|].
  destruct (d =? c)%N; [|apply IH].
  constructor; [apply IH|].
  apply Forall_forall. intros j Hj. apply indices_from_spec in Hj. lia.
Qed.

Lemma diag_unfold s i :
  diag s i
  = if Difflib.popular s (Difflib.a_at s i) then 0 else S (prevdiag s i).
Proof. destruct i; reflexivity. Qed.

Lemma row_diag s i j2len js newj2len best new' best' :
  i < length s ->
  Difflib.popular s (Difflib.a_at s i) = false ->
  j2len_diag s i j2len ->
  StronglySorted lt js ->
  (forall j, In j js -> j < length s /\ Difflib.a_at s j = Difflib.a_at s i) ->
  (forall j, newj2len j <= diag s i) ->
  (forall j, newj2len j <= diag s j) ->
  (In i js \/ newj2len i = diag s i) ->
  best_diag s i best ->
  (In i js \/ diag s i <= snd best) ->
  Difflib.row i 0 (length s) j2len js newj2len best = (new', best') ->
  j2len_diag s (S i) new' /\ best_diag s (S i) best'.
Proof.
  intros Hi Hpop [P1 [P2 P3]]. revert newj2len best.
  induction js as [|j js IH];
    intros newj2len best Hsort Hjs N1 N2 N3 B1 B2 H;
    cbn [Difflib.row] in H.
  - inversion H; subst new' best'. clear H.
    destruct N3 as [[]|N3]. destruct B2 as [[]|B2].
    split.
    + repeat split; [exact N1|exact N2|exact N3].
    + destruct best as [[bi bj] bs]. cbn [snd] in B2.
      destruct B1 as [B0 B1]. split; [exact B0|].
      intros x Hx. destruct (Nat.eq_dec x i) as [->|Hne]; [exact B2|].
      apply B1. lia.
  - destruct (Hjs j (or_introl eq_refl)) as [Hjn Hjc].
    change (j <? 0) with false in H. cbv iota in H.
    assert (Ebhi : (length s <=? j) = false) by (apply Nat.leb_gt; exact Hjn).
    rewrite Ebhi in H.
    destruct best as [[bi bj] bs]. cbn [snd] in B2.
    destruct B1 as [B0 B1].
    inversion Hsort as [|j0 js0 Hsort' Hlt]; subst.
    rewrite Forall_forall in Hlt.
    set (k := S (match j with 0 => 0 | S j' => j2len j' end)) in *.
    assert (Dj : diag s j = S (prevdiag s j)).
    { rewrite diag_unfold, Hjc, Hpop. reflexivity. }
    assert (Di : diag s i = S (prevdiag s i)).
    { rewrite diag_unfold, Hpop. reflexivity. }
    assert (Kj : k <= diag s j).
    { rewrite Dj. unfold k. destruct j as [|j']; [simpl; lia|].
      simpl. specialize (P2 j'). lia. }
    assert (Ki : k <= diag s i).
    { rewrite Di. unfold k. destruct j as [|j']; [lia|].
      specialize (P1 j'). lia. }
    assert (Kii : j = i -> k = diag s i).
    { intros ->. rewrite Di. unfold k. destruct i as [|i']; [reflexivity|].
      simpl. now rewrite P3. }
    eapply IH; [exact Hsort'| | | | | | |exact H].
    + intros x Hx. apply Hjs. now right.
    + intros x. cbv beta. destruct (x =? j); [exact Ki|apply N1].
    + intros x. cbv beta. destruct (x =? j) eqn:Ex; [|apply N2].
      apply Nat.eqb_eq in Ex. now subst x.
    + cbv beta. destruct (Nat.eq_dec j i) as [E|Hne].
      * right. subst j. rewrite Nat.eqb_refl. now apply Kii.
      * destruct N3 as [[N3|N3]|N3]; [congruence|now left|].
        right. rewrite (proj2 (Nat.eqb_neq i j)) by congruence. exact N3.
    + destruct (bs <? k) eqn:Ebs.
      * apply Nat.ltb_lt in Ebs.
        assert (j = i).
        { destruct (Nat.lt_trichotomy j i) as [Hl|[He|Hg]]; [|exact He|].
          - specialize (B1 j Hl). lia.
          - destruct B2 as [[B2|B2]|B2]; [lia| |lia].
            specialize (Hlt i B2). lia. }
        subst j. unfold best_diag. split; [reflexivity|].
        intros x Hx. specialize (B1 x Hx). lia.
      * unfold best_diag. split; [reflexivity|exact B1].
    + destruct (bs <? k) eqn:Ebs.
      * apply Nat.ltb_lt in Ebs. cbn [snd].
        destruct (Nat.eq_dec j i) as [E|Hne]; [right; rewrite Kii; auto|].
        destruct B2 as [[B2|B2]|B2]; [congruence|now left|right; lia].
      * apply Nat.ltb_ge in Ebs. cbn [snd].
        destruct (Nat.eq_dec j i) as [E|Hne];
          [right; rewrite <- (Kii E); exact Ebs|].
        destruct B2 as [[B2|B2]|B2]; [congruence|now left|now right].
Qed.

Lemma rows_diag s m i j2len best :
  i + m = length s ->
  j2len_diag s i j2len ->
  best_diag s i best ->
  best_diag s (length s)
    (Difflib.rows s s 0 (length s) (seq i m) j2len best).
Proof.
  revert i j2len best.
  induction m as [|m IH]; intros i j2len best Hm HJ HB;
    cbn [seq Difflib.rows].
  - replace (length s) with i by lia. exact HB.
  - destruct (Difflib.row i 0 (length s) j2len
                (Difflib.b2j s (Difflib.a_at s i)) (fun _ => 0) best)
      as [new' best'] eqn:E.
    assert (HS : j2len_diag s (S i) new' /\ best_diag s (S i) best').
    { unfold Difflib.b2j in E.
      destruct (Difflib.popular s (Difflib.a_at s i)) eqn:Hpop.
      - cbn [Difflib.row] in E. inversion E; subst new' best'.
        assert (D0 : diag s i = 0) by (rewrite diag_unfold, Hpop; reflexivity).
        split.
        + split; [intros j; lia|split; [intros j; lia|]].
          cbv beta. symmetry. exact D0.
        + destruct best as [[bi bj] bs]. destruct HB as [B0 B1].
          split; [exact B0|]. intros x Hx.
          destruct (Nat.eq_dec x i) as [->|Hne]; [lia|apply B1; lia].
      - eapply row_diag; [| |exact HJ| | | | | | | |exact E];
          try (intros j; cbv beta; lia); try lia; try assumption.
        + apply indices_from_sorted.
        + intros j Hj. apply indices_from_spec in Hj.
          rewrite Nat.sub_0_r in Hj. unfold Difflib.a_at at 1. simpl in Hj.
          split; [lia|tauto].
        + left. apply indices_from_spec. rewrite Nat.sub_0_r.
          split; [lia|split; [simpl; lia|reflexivity]].
        + left. apply indices_from_spec. rewrite Nat.sub_0_r.
          split; [lia|split; [simpl; lia|reflexivity]]. }
    destruct HS as [HJ' HB']. apply IH; [lia|assumption|assumption].
Qed.

Lemma extend_back_refl s bi bs :
  Difflib.extend_back s s 0 0 bi bi bs = (0, 0, bs + bi).
Proof.
  revert bs. induction bi as [|i IH]; intros bs;
    cbn [Difflib.extend_back]; [f_equal; lia|].
  unfold Difflib.b_at, Difflib.a_at. rewrite N.eqb_refl. simpl.
  rewrite IH. f_equal. lia.
Qed.

Lemma extend_fwd_refl s steps bs :
  steps + bs = length s ->
  Difflib.extend_fwd s s steps (length s) (length s) 0 0 bs = length s.
Proof.
  revert bs. induction steps as [|n IH]; intros bs H;
    cbn [Difflib.extend_fwd]; [lia|].
  unfold Difflib.b_at, Difflib.a_at. rewrite N.eqb_refl.
  cbn [Nat.add].
  rewrite (proj2 (Nat.ltb_lt bs (length s))) by lia. cbn [andb].
  apply IH. lia.
Qed.

Lemma find_longest_match_refl s :
  Difflib.find_longest_match s s 0 (length s) 0 (length s)
  = (0, 0, length s).
Proof.
  unfold Difflib.find_longest_match. rewrite Nat.sub_0_r.
  pose proof (@rows_diag s (length s) 0 (fun _ => 0) (0, 0, 0)) as HD.
  pose proof (@rows_bounds s s 0 (length s) 0 (length s) (length s) 0
                (fun _ => 0) (0, 0, 0)) as HB.
  destruct (Difflib.rows s s 0 (length s) (seq 0 (length s))
              (fun _ => 0) (0, 0, 0)) as [[bi bj] bs].
  destruct HD as [HD _].
  - reflexivity.
  - repeat split; intros; simpl; lia.
  - split; [reflexivity|intros; lia].
  - subst bj. rewrite extend_back_refl.
    unfold block_in in HB.
    rewrite extend_fwd_refl; [reflexivity|].
    assert (bi + bs <= length s).
    { apply HB; try lia. intros j. lia. }
    lia.
Qed.

Lemma ratio_refl s : s <> [] -> (Difflib.ratio s s == 1)%Q.
Proof.
  intros Hs. unfold Difflib.ratio, Difflib.get_matching_blocks.
  assert (Hn : 0 < length s) by (destruct s; [congruence|simpl; lia]).
  replace (2 * length s + 1) with (S (2 * length s)) by lia.
  cbn [Difflib.blocks_loop].
  rewrite find_longest_match_refl.
  rewrite (proj2 (Nat.eqb_neq (length s) 0)) by lia.
  rewrite Nat.ltb_irrefl. cbn [andb Nat.add].
  rewrite Nat.ltb_irrefl. cbn [andb app].
  destruct (2 * length s) eqn:E2; [lia|].
  cbn [Difflib.blocks_loop Difflib.matches fold_right snd].
  destruct (length s + length s) as [|n2] eqn:E; [lia|].
  unfold Qeq. cbn [Qnum Qden]. rewrite Zpos_of_nat_S. lia.
Qed.

(** ** The similarity engine *)

Lemma Qlt_bool_iff x y : Qlt_bool x y = true <-> (x < y)%Q.
Proof.
  unfold Qlt_bool. rewrite negb_true_iff. split.
  - intros H. apply Qnot_le_lt. intros Hle.
    apply Qle_bool_iff in Hle. congruence.
  - intros H. destruct (Qle_bool y x) eqn:E; [|reflexivity].
    apply Qle_bool_iff in E. exfalso. eapply Qlt_not_le; eassumption.
Qed.

Lemma Qlt_bool_false x y : Qlt_bool x y = false <-> (y <= x)%Q.
Proof.
  unfold Qlt_bool. rewrite negb_false_iff. apply Qle_bool_iff.
Qed.

Lemma Qle_bool_false x y : Qle_bool x y = false <-> (y < x)%Q.
Proof.
  split.
  - intros H. apply Qnot_le_lt. intros Hle.
    apply Qle_bool_iff in Hle. congruence.
  - intros H. destruct (Qle_bool x y) eqn:E; [|reflexivity].
    apply Qle_bool_iff in E. exfalso. eapply Qlt_not_le; eassumption.
Qed.

Lemma similarity_row_scan av b_vars best :
  similarity_row av b_vars best
  = scan (List.map (name_similarity av) b_vars) best.
Proof.
  revert best. induction b_vars as [|bv rest IH]; intros best;
    cbn [similarity_row List.map scan]; [reflexivity|].
  destruct (Qlt_bool best (name_similarity av bv)).
  - destruct (Qle_bool _ _); [reflexivity|apply IH].
  - apply IH.
Qed.

Lemma scan_app r1 r2 best :
  scan (r1 ++ r2) best
  = match scan r1 best with
    | Return r => Return r
    | Next b => scan r2 b
    end.
Proof.
  revert best. induction r1 as [|r rest IH]; intros best;
    cbn [app scan]; [reflexivity|].
  destruct (Qlt_bool best r).
  - destruct (Qle_bool _ _); [reflexivity|apply IH].
  - apply IH.
Qed.

Lemma similarity_rows_scan a_vars b_vars best :
  similarity_rows a_vars b_vars best
  = loop_value (scan (ratios a_vars b_vars) best).
Proof.
  revert best. induction a_vars as [|av rest IH]; intros best;
    cbn [similarity_rows ratios flat_map]; [reflexivity|].
  rewrite scan_app, similarity_row_scan.
  destruct (scan (List.map (name_similarity av) b_vars) best) as [b|r].
  - apply IH.
  - reflexivity.
Qed.

(** A loop that runs to its end has met no ratio of 0.999 or more, and
    holds the largest one. *)
Lemma scan_next rs best b :
  (best < 999 # 1000)%Q ->
  scan rs best = Next b ->
  (best <= b)%Q /\ (b < 999 # 1000)%Q
  /\ (forall r, In r rs -> (r <= b)%Q)
  /\ (b = best \/ In b rs).
Proof.
  revert best. induction rs as [|r rest IH]; intros best Hb H;
    cbn [scan] in H.
  - inversion H; subst. repeat split.
    + apply Qle_refl.
    + exact Hb.
    + intros r [].
    + now left.
  - destruct (Qlt_bool best r) eqn:E.
    + destruct (Qle_bool (999 # 1000) r) eqn:E2; [discriminate|].
      apply Qlt_bool_iff in E. apply Qle_bool_false in E2.
      destruct (IH r E2 H) as [H1 [H2 [H3 H4]]].
      repeat split.
      * apply Qlt_le_weak. eapply Qlt_le_trans; eassumption.
      * exact H2.
      * intros x [<-|Hx]; [exact H1|now apply H3].
      * right. destruct H4 as [->|H4]; [now left|now right].
    + apply Qlt_bool_false in E.
      destruct (IH best Hb H) as [H1 [H2 [H3 H4]]].
      repeat split; try assumption.
      * intros x [<-|Hx]; [eapply Qle_trans; eassumption|now apply H3].
      * destruct H4 as [->|H4]; [now left|right; now right].
Qed.

(** A loop that returns early returns the first ratio of 0.999 or more. *)
Lemma scan_return rs best x :
  (best < 999 # 1000)%Q ->
  scan rs best = Return x ->
  exists pre post,
    rs = pre ++ x :: post /\ (999 # 1000 <= x)%Q
    /\ forall r, In r pre -> (r < 999 # 1000)%Q.
Proof.
  revert best. induction rs as [|r rest IH]; intros best Hb H;
    cbn [scan] in H; [discriminate|].
  destruct (Qlt_bool best r) eqn:E.
  - destruct (Qle_bool (999 # 1000) r) eqn:E2.
    + inversion H; subst. exists [], rest.
      apply Qle_bool_iff in E2. repeat split; [exact E2|intros ? []].
    + apply Qle_bool_false in E2.
      destruct (IH r E2 H) as [pre [post [-> [H1 H2]]]].
      exists (r :: pre), post. repeat split; [exact H1|].
      intros y [<-|Hy]; [exact E2|now apply H2].
  - apply Qlt_bool_false in E.
    destruct (IH best Hb H) as [pre [post [-> [H1 H2]]]].
    exists (r :: pre), post. repeat split; [exact H1|].
    intros y [<-|Hy]; [eapply Qle_lt_trans; eassumption|now apply H2].
Qed.

Lemma scan_all_below rs best :
  (forall r, In r rs -> (r < 999 # 1000)%Q) ->
  exists b, scan rs best = Next b.
Proof.
  revert best. induction rs as [|r rest IH]; intros best H; cbn [scan].
  - now exists best.
  - assert (E2 : Qle_bool (999 # 1000) r = false).
    { apply Qle_bool_false. apply H. now left. }
    rewrite E2.
    destruct (Qlt_bool best r); apply IH; intros y Hy; apply H; now right.
Qed.

Lemma scan_some_above rs best :
  (best < 999 # 1000)%Q ->
  (exists r, In r rs /\ (999 # 1000 <= r)%Q) ->
  exists x, scan rs best = Return x.
Proof.
  intros Hb [r [Hr Hr2]].
  destruct (scan rs best) as [b|x] eqn:E; [|now exists x].
  destruct (scan_next _ Hb E) as [_ [H2 [H3 _]]].
  exfalso. apply (Qlt_not_le _ _ H2).
  eapply Qle_trans; [exact Hr2|]. now apply H3.
Qed.

Lemma ratios_nil_r a_vars : ratios a_vars [] = [].
Proof. induction a_vars as [|av rest IH]; [reflexivity|exact IH]. Qed.

Lemma ratios_In a_vars b_vars r :
  In r (ratios a_vars b_vars) <->
  exists av bv, In av a_vars /\ In bv b_vars /\ r = name_similarity av bv.
Proof.
  unfold ratios. rewrite in_flat_map. split.
  - intros [av [Ha H]]. apply in_map_iff in H. destruct H as [bv [E Hb]].
    exists av, bv. repeat split; [exact Ha|exact Hb|now symmetry].
  - intros [av [bv [Ha [Hb ->]]]]. exists av. split; [exact Ha|].
    apply in_map. exact Hb.
Qed.

Lemma name_similarity_range a b : (0 <= name_similarity a b <= 1)%Q.
Proof.
  unfold name_similarity. destruct (_ || _).
  - split; unfold Qle; simpl; lia.
  - apply ratio_range.
Qed.

Lemma name_similarity_ratio a b :
  nonempty a = true -> nonempty b = true ->
  name_similarity a b = Difflib.ratio a b.
Proof.
  intros Ha Hb. unfold name_similarity. now rewrite Ha, Hb.
Qed.

Lemma name_similarity_refl a :
  nonempty a = true -> (name_similarity a a == 1)%Q.
Proof.
  intros Ha. rewrite name_similarity_ratio by assumption.
  apply ratio_refl. destruct a; [discriminate|congruence].
Qed.

(** Below a combined length of 1000 a ratio of 0.999 or more is 1. *)
Lemma ratio_short a b :
  length a + length b < 1000 ->
  (999 # 1000 <= Difflib.ratio a b)%Q ->
  (Difflib.ratio a b == 1)%Q.
Proof.
  unfold Difflib.ratio.
  destruct (get_matching_blocks_run a b) as [l [_ [-> [H1 H2]]]].
  destruct (length a + length b) as [|n] eqn:E; [reflexivity|].
  unfold Qle, Qeq. cbn [Qnum Qden]. rewrite Zpos_of_nat_S. lia.
Qed.

Lemma name_similarity_short a b :
  length a + length b < 1000 ->
  (999 # 1000 <= name_similarity a b)%Q ->
  (name_similarity a b == 1)%Q.
Proof.
  unfold name_similarity. destruct (_ || _).
  - intros _ H. exfalso. revert H. unfold Qle. simpl. lia.
  - apply ratio_short.
Qed.

(** ** The cluster builder *)

Lemma uid_mem_In u l : uid_mem u l = true <-> In u l.
Proof.
  unfold uid_mem. rewrite existsb_exists. split.
  - intros [y [Hy E]]. apply pystr_eqb_eq in E. now subst.
  - intros H. exists u. split; [exact H|apply pystr_eqb_refl].
Qed.

Lemma uid_mem_false u l : uid_mem u l = false <-> ~ In u l.
Proof.
  rewrite <- uid_mem_In. destruct (uid_mem u l); split; congruence.
Qed.

Lemma set_remove_In u x l : In x (set_remove u l) <-> In x l /\ x <> u.
Proof.
  unfold set_remove. rewrite filter_In, negb_true_iff, pystr_eqb_neq.
  reflexivity.
Qed.

Lemma remove_all_In l un x : In x (remove_all l un) <-> In x un /\ ~ In x l.
Proof.
  unfold remove_all. rewrite filter_In, negb_true_iff, uid_mem_false.
  reflexivity.
Qed.

Lemma uid_mem_cons x o l :
  uid_mem x (o :: l) = pystr_eqb x o || uid_mem x l.
Proof. reflexivity. Qed.

Lemma remove_all_cons o l un :
  remove_all (o :: l) un = remove_all l (set_remove o un).
Proof.
  unfold remove_all, set_remove.
  induction un as [|x un IH]; cbn [List.filter]; [reflexivity|].
  rewrite uid_mem_cons.
  destruct (pystr_eqb x o); cbn [negb orb List.filter].
  - exact IH.
  - destruct (uid_mem x l); cbn [negb]; rewrite IH; reflexivity.
Qed.

Lemma remove_all_nil un : remove_all [] un = un.
Proof.
  unfold remove_all. induction un as [|x un IH]; [reflexivity|].
  cbn [List.filter].
  change (uid_mem x []) with false. cbn [negb]. now rewrite IH.
Qed.

Lemma remove_all_ext l l' un :
  (forall x, In x l <-> In x l') -> remove_all l un = remove_all l' un.
Proof.
  intros H. unfold remove_all. apply filter_ext. intros x. f_equal.
  destruct (uid_mem x l) eqn:E1, (uid_mem x l') eqn:E2; try reflexivity.
  - apply uid_mem_In in E1. apply uid_mem_false in E2. apply H in E1. tauto.
  - apply uid_mem_In in E2. apply uid_mem_false in E1. apply H in E2. tauto.
Qed.

Section ClusterFacts.

Variable unidecode : pystr -> pystr.
Variable entries : list (uid * pyval).
Variable name_threshold : Q.

Lemma comparable_joins nm o :
  comparable unidecode entries nm name_threshold o = true ->
  joins unidecode entries nm name_threshold o
  = Ok (joined unidecode entries nm name_threshold o).
Proof.
  unfold comparable, joined.
  destruct (joins unidecode entries nm name_threshold o);
    [reflexivity|discriminate].
Qed.

Lemma scan_others_step nm o rest group unassigned :
  scan_others unidecode entries nm name_threshold (o :: rest)
    group unassigned
  = b <- joins unidecode entries nm name_threshold o ;;
    if b
    then scan_others unidecode entries nm name_threshold rest
           (group ++ [o]) (set_remove o unassigned)
    else scan_others unidecode entries nm name_threshold rest
           group unassigned.
Proof.
  cbn [scan_others]. unfold joins.
  destruct (name_map_get entries o) as [onm|e]; cbn [bind]; [|reflexivity].
  destruct (max_variant_similarity_dyn unidecode nm onm) as [sim|e];
    cbn [bind]; reflexivity.
Qed.

Lemma scan_others_run nm to_check group unassigned :
  Forall (fun o => comparable unidecode entries nm name_threshold o = true)
    to_check ->
  scan_others unidecode entries nm name_threshold to_check
    group unassigned
  = Ok (group ++ List.filter (joined unidecode entries nm name_threshold)
                   to_check,
        remove_all
          (List.filter (joined unidecode entries nm name_threshold)
             to_check) unassigned).
Proof.
  revert group unassigned.
  induction to_check as [|o rest IH]; intros group unassigned H.
  - cbn [scan_others List.filter]. now rewrite app_nil_r, remove_all_nil.
  - inversion H as [|o' rest' Ho Hrest]; subst.
    rewrite scan_others_step, (comparable_joins _ _ Ho). cbn [bind].
    cbn [List.filter].
    destruct (joined unidecode entries nm name_threshold o).
    + rewrite IH by exact Hrest.
      rewrite <- app_assoc, remove_all_cons. reflexivity.
    + apply IH. exact Hrest.
Qed.

Lemma scan_others_inv nm to_check group unassigned st :
  scan_others unidecode entries nm name_threshold to_check
    group unassigned = Ok st ->
  Forall (fun o => comparable unidecode entries nm name_threshold o = true)
    to_check.
Proof.
  revert group unassigned.
  induction to_check as [|o rest IH]; intros group unassigned H;
    [constructor|].
  rewrite scan_others_step in H.
  assert (Ho : comparable unidecode entries nm name_threshold o = true).
  { unfold comparable.
    destruct (joins unidecode entries nm name_threshold o);
      [reflexivity|discriminate]. }
  constructor; [exact Ho|].
  rewrite (comparable_joins _ _ Ho) in H. cbn [bind] in H.
  destruct (joined unidecode entries nm name_threshold o);
    eapply IH; exact H.
Qed.

Lemma seed_loop_run set_iter min_group todo unassigned clusters :
  all_comparable unidecode set_iter entries name_threshold todo unassigned ->
  seed_loop unidecode set_iter entries name_threshold min_group todo
    unassigned clusters
  = Ok (clusters
        ++ List.filter (fun g => min_group <=? length g)
             (formed_groups unidecode set_iter entries name_threshold todo
                unassigned)).
Proof.
  revert unassigned clusters.
  induction todo as [|[u nm] rest IH]; intros unassigned clusters H.
  - cbn [seed_loop formed_groups List.filter]. now rewrite app_nil_r.
  - cbn [seed_loop formed_groups all_comparable] in *.
    destruct (negb (uid_mem u unassigned)); [apply IH; exact H|].
    cbv zeta in H. destruct H as [Hc Hrest].
    rewrite (scan_others_run _ _ _ Hc). cbn [bind app List.filter length].
    destruct (min_group <=? S _).
    + rewrite IH by exact Hrest. now rewrite <- app_assoc.
    + apply IH. exact Hrest.
Qed.

Lemma seed_loop_inv set_iter min_group todo unassigned clusters res :
  seed_loop unidecode set_iter entries name_threshold min_group todo
    unassigned clusters = Ok res ->
  all_comparable unidecode set_iter entries name_threshold todo unassigned.
Proof.
  revert unassigned clusters.
  induction todo as [|[u nm] rest IH]; intros unassigned clusters H;
    cbn [seed_loop all_comparable] in *; [exact I|].
  destruct (negb (uid_mem u unassigned)); [eapply IH; exact H|].
  cbv zeta.
  destruct (scan_others unidecode entries nm name_threshold
              (set_iter (set_remove u unassigned)) [u]
              (set_remove u unassigned)) as [st|e] eqn:E;
    cbn [bind] in H; [|discriminate].
  pose proof (scan_others_inv _ _ _ _ E) as Hc.
  split; [exact Hc|].
  rewrite (scan_others_run _ _ _ Hc) in E. inversion E; subst st.
  destruct (min_group <=? _); eapply IH; exact H.
Qed.

End ClusterFacts.

Lemma Permutation_filter_compat (A : Type) (f : A -> bool) (l l' : list A) :
  Permutation l l' -> Permutation (List.filter f l) (List.filter f l').
Proof.
  induction 1 as [|x l l' H IH|x y l|l l' l'' H1 IH1 H2 IH2];
    cbn [List.filter].
  - constructor.
  - destruct (f x); [constructor|]; exact IH.
  - destruct (f x), (f y); try apply Permutation_refl. constructor.
  - eapply Permutation_trans; eassumption.
Qed.

Lemma NoDup_filter_compat (A : Type) (f : A -> bool) (l : list A) :
  NoDup l -> NoDup (List.filter f l).
Proof.
  induction 1 as [|x l Hx H IH]; cbn [List.filter]; [constructor|].
  destruct (f x); [|exact IH].
  constructor; [|exact IH]. intros Hin. apply filter_In in Hin. tauto.
Qed.

Lemma Forall2_filter_compat (A : Type) (R : A -> A -> Prop)
    (f : A -> bool) (l l' : list A) :
  (forall x y, R x y -> f x = f y) ->
  Forall2 R l l' -> Forall2 R (List.filter f l) (List.filter f l').
Proof.
  intros Hf. induction 1 as [|x y l l' Hxy H IH]; cbn [List.filter];
    [constructor|].
  rewrite <- (Hf x y Hxy). destruct (f x); [constructor|]; assumption.
Qed.

Lemma set_of_fold_NoDup l acc :
  NoDup (acc ++ l) ->
  fold_left (fun acc u => if uid_mem u acc then acc else acc ++ [u]) l acc
  = acc ++ l.
Proof.
  revert acc. induction l as [|u l IH]; intros acc H; cbn [fold_left].
  - now rewrite app_nil_r.
  - assert (Hu : uid_mem u acc = false).
    { apply uid_mem_false. intros Hin.
      apply NoDup_remove_2 in H. apply H. apply in_or_app. now left. }
    rewrite Hu. rewrite IH; rewrite <- app_assoc; [reflexivity|exact H].
Qed.

Lemma set_of_NoDup l : NoDup l -> set_of l = l.
Proof. intros H. unfold set_of. now rewrite set_of_fold_NoDup. Qed.

Lemma entries_of_keys users entries :
  entries_of users = Ok entries -> List.map fst entries = List.map fst users.
Proof.
  revert entries. induction users as [|[u udata] rest IH]; intros entries H;
    cbn [entries_of] in H.
  - inversion H. reflexivity.
  - destruct (username_of udata) as [uname|e]; cbn [bind] in H;
      [|discriminate].
    destruct (entries_of rest) as [es|e]; cbn [bind] in H; [|discriminate].
    inversion H; subst. cbn [List.map fst]. f_equal. now apply IH.
Qed.

Lemma name_map_get_In entries u nm :
  name_map_get entries u = Ok nm -> In (u, nm) entries.
Proof.
  induction entries as [|[u' nm'] rest IH]; cbn [name_map_get];
    [discriminate|].
  destruct (name_map_get rest u) as [v|e].
  - intros H. inversion H; subst. right. now apply IH.
  - destruct (pystr_eqb u u') eqn:E; [|discriminate].
    apply pystr_eqb_eq in E. subst u'. intros H. inversion H; subst.
    now left.
Qed.

Section FormedGroups.

Variable unidecode : pystr -> pystr.
Variable set_iter : list uid -> list uid.
Variable entries : list (uid * pyval).
Variable name_threshold : Q.

Hypothesis set_iter_perm : forall l, Permutation (set_iter l) l.

Lemma members_In nm un m :
  In m (List.filter (joined unidecode entries nm name_threshold)
          (set_iter un)) ->
  In m un /\ joined unidecode entries nm name_threshold m = true.
Proof.
  intros H. apply filter_In in H. destruct H as [H1 H2].
  split; [|exact H2].
  eapply Permutation_in; [apply set_iter_perm|exact H1].
Qed.

Lemma formed_groups_incl todo un x :
  In x (concat (formed_groups unidecode set_iter entries name_threshold
                  todo un)) ->
  In x un.
Proof.
  revert un. induction todo as [|[u nm] rest IH]; intros un H;
    cbn [formed_groups concat] in H; [destruct H|].
  destruct (uid_mem u un) eqn:Eu; cbn [negb] in H; [|now apply IH].
  cbv zeta in H. cbn [concat] in H.
  apply in_app_or in H. destruct H as [[<-|H]|H].
  - now apply uid_mem_In.
  - apply members_In in H. destruct H as [H _].
    apply set_remove_In in H. tauto.
  - apply IH in H. apply remove_all_In in H. destruct H as [H _].
    apply set_remove_In in H. tauto.
Qed.

Lemma formed_groups_NoDup todo un :
  NoDup un ->
  NoDup (concat (formed_groups unidecode set_iter entries name_threshold
                   todo un)).
Proof.
  revert un. induction todo as [|[u nm] rest IH]; intros un Hun;
    cbn [formed_groups concat]; [constructor|].
  destruct (uid_mem u un) eqn:Eu; cbn [negb]; [|now apply IH].
  cbv zeta. cbn [concat].
  set (un1 := set_remove u un).
  set (members := List.filter (joined unidecode entries nm name_threshold)
                    (set_iter un1)).
  assert (Hun1 : NoDup un1) by (apply NoDup_filter_compat; exact Hun).
  assert (Hmem : forall m, In m members -> In m un1 /\ m <> u).
  { intros m Hm. apply members_In in Hm. destruct Hm as [Hm _].
    split; [exact Hm|]. apply set_remove_In in Hm. tauto. }
  assert (Hrest : forall x,
            In x (concat (formed_groups unidecode set_iter entries
                            name_threshold rest (remove_all members un1))) ->
            In x un1 /\ ~ In x members).
  { intros x Hx. apply formed_groups_incl in Hx.
    apply remove_all_In in Hx. exact Hx. }
  change (NoDup (u :: members ++ concat
                   (formed_groups unidecode set_iter entries name_threshold
                      rest (remove_all members un1)))).
  constructor.
  - intros Hin. apply in_app_or in Hin. destruct Hin as [Hin|Hin].
    + apply Hmem in Hin. tauto.
    + apply Hrest in Hin. destruct Hin as [Hin _].
      apply set_remove_In in Hin. tauto.
  - apply NoDup_app.
    + apply NoDup_filter_compat.
      eapply Permutation_NoDup; [apply Permutation_sym, set_iter_perm|].
      exact Hun1.
    + apply IH. apply NoDup_filter_compat. exact Hun1.
    + intros x Hx Hx'. apply Hrest in Hx'. tauto.
Qed.

Lemma formed_groups_cover todo un x :
  (forall y, In y un -> In y (List.map fst todo)) ->
  In x un ->
  In x (concat (formed_groups unidecode set_iter entries name_threshold
                  todo un)).
Proof.
  revert un. induction todo as [|[u nm] rest IH]; intros un Hcov Hx;
    cbn [formed_groups concat].
  - destruct (Hcov x Hx).
  - destruct (uid_mem u un) eqn:Eu; cbn [negb].
    + cbv zeta. cbn [concat].
      set (un1 := set_remove u un).
      set (members := List.filter
                        (joined unidecode entries nm name_threshold)
                        (set_iter un1)).
      change (In x (u :: members ++ concat
                      (formed_groups unidecode set_iter entries
                         name_threshold rest (remove_all members un1)))).
      destruct (list_eq_dec N.eq_dec x u) as [->|Hne]; [now left|].
      right. apply in_or_app.
      destruct (uid_mem x members) eqn:Em.
      * left. now apply uid_mem_In.
      * right. apply uid_mem_false in Em. apply IH.
        -- intros y Hy. apply remove_all_In in Hy. destruct Hy as [Hy _].
           apply set_remove_In in Hy. destruct Hy as [Hy Hyu].
           destruct (Hcov y Hy) as [E|Hin]; [|exact Hin].
           cbn [fst] in E. congruence.
        -- apply remove_all_In. split; [|exact Em].
           apply set_remove_In. tauto.
    + apply uid_mem_false in Eu. apply IH; [|exact Hx].
      intros y Hy. destruct (Hcov y Hy) as [E|Hin]; [|exact Hin].
      cbn [fst] in E. subst y. tauto.
Qed.

Lemma formed_groups_members todo un g :
  In g (formed_groups unidecode set_iter entries name_threshold todo un) ->
  exists seed nm members,
    g = seed :: members /\ In (seed, nm) todo
    /\ forall m, In m members ->
         joined unidecode entries nm name_threshold m = true.
Proof.
  revert un. induction todo as [|[u nm] rest IH]; intros un H;
    cbn [formed_groups] in H; [destruct H|].
  destruct (negb (uid_mem u un)).
  - destruct (IH _ H) as [s [n [ms [E [Hin Hj]]]]].
    exists s, n, ms. split; [exact E|]. split; [now right|exact Hj].
  - cbv zeta in H. destruct H as [<-|H].
    + exists u, nm,
        (List.filter (joined unidecode entries nm name_threshold)
           (set_iter (set_remove u un))).
      split; [reflexivity|]. split; [now left|].
      intros m Hm. apply filter_In in Hm. tauto.
    + destruct (IH _ H) as [s [n [ms [E [Hin Hj]]]]].
      exists s, n, ms. split; [exact E|]. split; [now right|exact Hj].
Qed.

End FormedGroups.

Lemma formed_groups_order unidecode set_iter set_iter' entries
    name_threshold todo un :
  (forall l, Permutation (set_iter l) l) ->
  (forall l, Permutation (set_iter' l) l) ->
  Forall2 same_group
    (formed_groups unidecode set_iter entries name_threshold todo un)
    (formed_groups unidecode set_iter' entries name_threshold todo un)
  /\ (all_comparable unidecode set_iter entries name_threshold todo un ->
      all_comparable unidecode set_iter' entries name_threshold todo un).
Proof.
  intros Hp Hp'. revert un.
  induction todo as [|[u nm] rest IH]; intros un;
    cbn [formed_groups all_comparable].
  - split; [constructor|trivial].
  - destruct (negb (uid_mem u un)); [apply IH|].
    cbv zeta.
    set (un1 := set_remove u un).
    assert (Hperm : Permutation (set_iter un1) (set_iter' un1)).
    { eapply Permutation_trans; [apply Hp|apply Permutation_sym, Hp']. }
    pose proof (Permutation_filter_compat
                  (joined unidecode entries nm name_threshold) Hperm)
      as Hmem.
    set (members := List.filter
                      (joined unidecode entries nm name_threshold)
                      (set_iter un1)) in *.
    set (members' := List.filter
                       (joined unidecode entries nm name_threshold)
                       (set_iter' un1)) in *.
    assert (Hrm : remove_all members un1 = remove_all members' un1).
    { apply remove_all_ext. intros x. split; intros Hx.
      - eapply Permutation_in; [exact Hmem|exact Hx].
      - eapply Permutation_in; [apply Permutation_sym, Hmem|exact Hx]. }
    rewrite <- Hrm.
    destruct (IH (remove_all members un1)) as [IH1 IH2].
    split.
    + constructor; [|exact IH1].
      split; [reflexivity|constructor; exact Hmem].
    + intros [Hc Hrest]. split; [|now apply IH2].
      eapply Permutation_Forall; [exact Hperm|exact Hc].
Qed.

(** ** The claims on the normaliser and the similarity engine *)

Lemma scan_zero_range rs :
  (forall r, In r rs -> (0 <= r <= 1)%Q) ->
  let res := loop_value (scan rs 0%Q) in
  (0 <= res <= 1)%Q /\ (res = 0%Q \/ In res rs).
Proof.
  intros Hrs res. unfold res.
  assert (H0 : (0 < 999 # 1000)%Q) by reflexivity.
  assert (Hor : loop_value (scan rs 0%Q) = 0%Q
                \/ In (loop_value (scan rs 0%Q)) rs).
  { destruct (scan rs 0%Q) as [b|x] eqn:E; cbn [loop_value].
    - destruct (scan_next _ H0 E) as [_ [_ [_ H]]]. exact H.
    - destruct (scan_return _ H0 E) as [pre [post [-> _]]].
      right. apply in_or_app. right. now left. }
  split; [|exact Hor].
  destruct Hor as [->|H]; [split; unfold Qle; simpl; lia|now apply Hrs].
Qed.

Lemma ratios_range a_vars b_vars r :
  In r (ratios a_vars b_vars) -> (0 <= r <= 1)%Q.
Proof.
  intros H. apply ratios_In in H. destruct H as [av [bv [_ [_ ->]]]].
  apply name_similarity_range.
Qed.

(** The largest ratio is returned when the loops run to their end, and also
    when all pairs of variants are short. *)
Lemma scan_upper_bound a_vars b_vars :
  (forall r, In r (ratios a_vars b_vars) -> (r < 999 # 1000)%Q)
  \/ (forall av bv, In av a_vars -> In bv b_vars ->
        length av + length bv < 1000) ->
  forall r, In r (ratios a_vars b_vars) ->
    (r <= loop_value (scan (ratios a_vars b_vars) 0%Q))%Q.
Proof.
  intros Hcase r Hr.
  assert (H0 : (0 < 999 # 1000)%Q) by reflexivity.
  destruct (scan (ratios a_vars b_vars) 0%Q) as [b|x] eqn:E;
    cbn [loop_value].
  - destruct (scan_next _ H0 E) as [_ [_ [H _]]]. now apply H.
  - destruct (scan_return _ H0 E) as [pre [post [Epre [Hx Hpre]]]].
    assert (Hin : In x (ratios a_vars b_vars)).
    { rewrite Epre. apply in_or_app. right. now left. }
    destruct Hcase as [Hlow|Hshort].
    + exfalso. apply (Qlt_not_le _ _ (Hlow x Hin)). exact Hx.
    + apply ratios_In in Hin. destruct Hin as [av [bv [Ha [Hb ->]]]].
      rewrite (name_similarity_short av bv (Hshort av bv Ha Hb) Hx).
      apply ratios_range in Hr. tauto.
Qed.

(** C1 (amended).  [max_variant_similarity a b] lies in [0,1] and is 0.0
    when either variant set is empty.  When no pair of variants reaches
    0.999 it is the largest ratio of the cross product of the two variant
    sets; the same holds when every pair of variants has fewer than 1000
    characters together.  When some pair reaches 0.999, the result is the
    first such ratio in the order of the two loops, whatever the later
    pairs give. *)
Theorem max_variant_similarity_spec (unidecode : pystr -> pystr)
    (a_raw b_raw : pystr) :
  let a_vars := normalize_name_variants unidecode a_raw in
  let b_vars := normalize_name_variants unidecode b_raw in
  let rs := ratios a_vars b_vars in
  let res := max_variant_similarity unidecode a_raw b_raw in
  (0 <= res <= 1)%Q
  /\ (a_vars = [] \/ b_vars = [] -> res = 0%Q)
  /\ ((forall r, In r rs -> (r < 999 # 1000)%Q) ->
      (forall r, In r rs -> (r <= res)%Q)
      /\ (rs <> [] -> exists r, In r rs /\ (r == res)%Q))
  /\ ((forall av bv, In av a_vars -> In bv b_vars ->
         length av + length bv < 1000) ->
      forall r, In r rs -> (r <= res)%Q)
  /\ ((exists r, In r rs /\ (999 # 1000 <= r)%Q) ->
      exists pre post,
        rs = pre ++ res :: post /\ (999 # 1000 <= res)%Q
        /\ forall r, In r pre -> (r < 999 # 1000)%Q).
Proof.
  intros a_vars b_vars rs res.
  assert (Eres : res = loop_value (scan rs 0%Q)).
  { unfold res, max_variant_similarity. apply similarity_rows_scan. }
  assert (H0 : (0 < 999 # 1000)%Q) by reflexivity.
  destruct (@scan_zero_range rs) as [Hrange Hor].
  { intros r Hr. eapply ratios_range. exact Hr. }
  rewrite <- Eres in Hrange, Hor.
  split; [exact Hrange|].
  split.
  { intros Hempty. rewrite Eres.
    assert (Hrs : rs = []).
    { unfold rs. destruct Hempty as [->| ->];
        [reflexivity|apply ratios_nil_r]. }
    rewrite Hrs. reflexivity. }
  split.
  { intros Hlow. split.
    - intros r Hr. rewrite Eres.
      apply scan_upper_bound; [left; exact Hlow|exact Hr].
    - intros Hne. destruct Hor as [Hz|Hin].
      + destruct rs as [|r rest] eqn:Ers; [congruence|].
        exists r. split; [now left|].
        assert (Hr : In r (ratios a_vars b_vars)).
        { fold rs. rewrite Ers. now left. }
        pose proof (ratios_range _ _ _ Hr) as [Hr0 _].
        assert (Hle : (r <= res)%Q).
        { rewrite Eres. rewrite <- Ers.
          apply scan_upper_bound; [left|exact Hr].
          intros y Hy. apply Hlow. rewrite <- Ers. exact Hy. }
        rewrite Hz in *. apply Qle_antisym; assumption.
      + exists res. split; [exact Hin|reflexivity]. }
  split.
  { intros Hshort r Hr. rewrite Eres.
    apply scan_upper_bound; [right; exact Hshort|exact Hr]. }
  intros Habove.
  destruct (scan_some_above rs H0 Habove) as [x Ex].
  assert (res = x) by (rewrite Eres, Ex; reflexivity). subst x.
  exact (scan_return _ H0 Ex).
Qed.

(** C1, as stated, fails: for two names of 1001 characters the first pair
    of variants has ratio 2000/2002, which is returned at once, while a
    later pair of variants is identical and has ratio 1. *)
Lemma max_variant_similarity_not_max :
  exists r,
    In r (ratios (normalize_name_variants unidecode_table long_name_a)
                 (normalize_name_variants unidecode_table long_name_b))
    /\ (max_variant_similarity unidecode_table long_name_a long_name_b
        < r)%Q.
Proof.
  assert (EA : normalize_name_variants unidecode_table long_name_a
               = [long_name_a; long_name_b; long_stem])
    by (vm_compute; reflexivity).
  assert (EB : normalize_name_variants unidecode_table long_name_b
               = [long_name_b]) by (vm_compute; reflexivity).
  exists (name_similarity long_name_b long_name_b). split.
  - rewrite EA, EB.
    apply (proj2 (ratios_In [long_name_a; long_name_b; long_stem]
                    [long_name_b]
                    (name_similarity long_name_b long_name_b))).
    exists long_name_b, long_name_b.
    split; [right; left; reflexivity|].
    split; [left; reflexivity|reflexivity].
  - assert (E1 : max_variant_similarity unidecode_table long_name_a
                   long_name_b = (2000 # 2002)%Q)
      by (vm_compute; reflexivity).
    assert (E2 : name_similarity long_name_b long_name_b
                 = (2002 # 2002)%Q) by (vm_compute; reflexivity).
    rewrite E1, E2. reflexivity.
Qed.

(** C4: the de-duplication runs before the reduction to [a-z0-9], so two
    variants that differ by a separator only stay both: the name ["a b"]
    gives ["ab"] twice. *)
Theorem normalize_name_variants_duplicates :
  normalize_name_variants unidecode_table (str "a b") = [str "ab"; str "ab"]
  /\ ~ NoDup (normalize_name_variants unidecode_table (str "a b")).
Proof.
  assert (E : normalize_name_variants unidecode_table (str "a b")
              = [str "ab"; str "ab"]) by (vm_compute; reflexivity).
  split; [exact E|]. rewrite E. intros H.
  inversion H as [|x l Hx _]; subst. apply Hx. now left.
Qed.

(** The other parts of C4 hold: at most 12 entries, none of them empty,
    every character in [a-z0-9], and no entry for the empty name when the
    transliteration of the empty name is empty. *)
Lemma normalize_name_variants_shape (unidecode : pystr -> pystr)
    (raw : pystr) :
  length (normalize_name_variants unidecode raw) <= 12
  /\ (forall v, In v (normalize_name_variants unidecode raw) ->
        v <> [] /\ Forall (fun c => Py.is_alnum_lower c = true) v)
  /\ (unidecode [] = [] -> normalize_name_variants unidecode [] = []).
Proof.
  split; [apply normalize_length_le_12|]. split.
  - intros v Hv. split.
    + apply normalize_variant_nonempty in Hv. destruct v; [discriminate|].
      congruence.
    + eapply normalize_variant_alnum. exact Hv.
  - intros E. rewrite normalize_unfold.
    unfold normalize_name_variants_leet, variants_of, base_of.
    rewrite E. vm_compute. reflexivity.
Qed.

(** C5 (amended).  For every name whose variant set is not empty,
    [max_variant_similarity a a] is 1.0. *)
Theorem max_variant_similarity_self (unidecode : pystr -> pystr)
    (a : pystr) :
  normalize_name_variants unidecode a <> [] ->
  (max_variant_similarity unidecode a a == 1)%Q.
Proof.
  intros Hne. unfold max_variant_similarity.
  pose proof (@normalize_variant_nonempty unidecode a) as Hnon.
  destruct (normalize_name_variants unidecode a) as [|v rest];
    [congruence|].
  assert (Hv : nonempty v = true) by (apply Hnon; now left).
  pose proof (name_similarity_refl v Hv) as Hone.
  cbn [similarity_rows similarity_row].
  assert (E1 : Qlt_bool 0 (name_similarity v v) = true).
  { apply Qlt_bool_iff. rewrite Hone. reflexivity. }
  assert (E2 : Qle_bool (999 # 1000) (name_similarity v v) = true).
  { apply Qle_bool_iff. rewrite Hone. unfold Qle. simpl. lia. }
  rewrite E1, E2. exact Hone.
Qed.

Lemma max_variant_similarity_self_witness :
  normalize_name_variants unidecode_table (str "Farm123") <> []
  /\ (max_variant_similarity unidecode_table (str "Farm123")
        (str "Farm123") == 1)%Q.
Proof.
  assert (H : normalize_name_variants unidecode_table (str "Farm123") <> [])
    by (vm_compute; discriminate).
  split; [exact H|].
  exact (max_variant_similarity_self unidecode_table (str "Farm123") H).
Defined.

(** C5, as stated, fails: the name ["-"] is not empty, it has no variant,
    and its similarity to itself is 0.0. *)
Lemma max_variant_similarity_self_zero :
  str "-" <> []
  /\ max_variant_similarity unidecode_table (str "-") (str "-") = 0%Q
  /\ ~ (max_variant_similarity unidecode_table (str "-") (str "-") == 1)%Q.
Proof.
  assert (E : max_variant_similarity unidecode_table (str "-") (str "-")
              = 0%Q) by (vm_compute; reflexivity).
  split; [vm_compute; discriminate|]. split; [exact E|].
  rewrite E. intros H. discriminate H.
Qed.

Lemma name_similarity_sym_of_ratio va vb :
  (Difflib.ratio va vb == Difflib.ratio vb va)%Q ->
  (name_similarity va vb == name_similarity vb va)%Q.
Proof.
  intros H. unfold name_similarity.
  destruct (nonempty va), (nonempty vb); simpl; try reflexivity. exact H.
Qed.

Lemma scan_le_swap a_vars b_vars :
  (forall va vb, In va a_vars -> In vb b_vars ->
     (Difflib.ratio va vb == Difflib.ratio vb va)%Q) ->
  (forall va vb, In va a_vars -> In vb b_vars ->
     length va + length vb < 1000) ->
  (loop_value (scan (ratios a_vars b_vars) 0%Q)
   <= loop_value (scan (ratios b_vars a_vars) 0%Q))%Q.
Proof.
  intros Hsym Hshort.
  destruct (@scan_zero_range (ratios a_vars b_vars)) as [_ Hor].
  { intros r Hr. eapply ratios_range. exact Hr. }
  destruct (@scan_zero_range (ratios b_vars a_vars)) as [[Hpos _] _].
  { intros r Hr. eapply ratios_range. exact Hr. }
  destruct Hor as [->|Hin]; [exact Hpos|].
  apply ratios_In in Hin. destruct Hin as [va [vb [Ha [Hb ->]]]].
  rewrite (name_similarity_sym_of_ratio _ _ (Hsym va vb Ha Hb)).
  apply scan_upper_bound.
  - right. intros x y Hx Hy. specialize (Hshort y x Hy Hx). lia.
  - apply ratios_In. exists vb, va. repeat split; assumption.
Qed.

(** C6 (amended).  [max_variant_similarity a b] and
    [max_variant_similarity b a] are equal whenever
    [SequenceMatcher.ratio] gives every pair of variants the same ratio in
    both orders and every pair of variants has fewer than 1000 characters
    together; the ratio of [difflib] itself depends on the order of its
    arguments. *)
Theorem max_variant_similarity_symmetric (unidecode : pystr -> pystr)
    (a b : pystr) :
  (forall va vb,
     In va (normalize_name_variants unidecode a) ->
     In vb (normalize_name_variants unidecode b) ->
     (Difflib.ratio va vb == Difflib.ratio vb va)%Q) ->
  (forall va vb,
     In va (normalize_name_variants unidecode a) ->
     In vb (normalize_name_variants unidecode b) ->
     length va + length vb < 1000) ->
  (max_variant_similarity unidecode a b
   == max_variant_similarity unidecode b a)%Q.
Proof.
  intros Hsym Hshort. unfold max_variant_similarity.
  rewrite !similarity_rows_scan.
  apply Qle_antisym; apply scan_le_swap.
  - exact Hsym.
  - exact Hshort.
  - intros vb va Hb Ha. symmetry. exact (Hsym va vb Ha Hb).
  - intros vb va Hb Ha. specialize (Hshort va vb Ha Hb). lia.
Qed.

Lemma max_variant_similarity_symmetric_witness :
  (max_variant_similarity unidecode_table (str "Farm123") (str "Farm124")
   == max_variant_similarity unidecode_table (str "Farm124")
        (str "Farm123"))%Q.
Proof.
  assert (EA : normalize_name_variants unidecode_table (str "Farm123")
               = [str "farm123"; str "farmlze"; str "farm"])
    by (vm_compute; reflexivity).
  assert (EB : normalize_name_variants unidecode_table (str "Farm124")
               = [str "farm124"; str "farmlza"; str "farm"])
    by (vm_compute; reflexivity).
  apply (max_variant_similarity_symmetric unidecode_table
           (str "Farm123") (str "Farm124")).
  - rewrite EA, EB. intros va vb Ha Hb. cbn [In] in Ha, Hb.
    repeat (destruct Ha as [<-|Ha]; [|]);
      try contradiction;
      repeat (destruct Hb as [<-|Hb]; [|]);
      try contradiction; vm_compute; reflexivity.
  - rewrite EA, EB. intros va vb Ha Hb. cbn [In] in Ha, Hb.
    repeat (destruct Ha as [<-|Ha]; [|]);
      try contradiction;
      repeat (destruct Hb as [<-|Hb]; [|]);
      try contradiction; vm_compute; lia.
Defined.

(** C6, as stated, fails: [SequenceMatcher] finds one matching character
    from ["tide"] to ["diet"] and two from ["diet"] to ["tide"]. *)
Lemma max_variant_similarity_asymmetric :
  max_variant_similarity unidecode_table (str "tide") (str "diet")
  = (2 # 8)%Q
  /\ max_variant_similarity unidecode_table (str "diet") (str "tide")
     = (4 # 8)%Q
  /\ ~ (max_variant_similarity unidecode_table (str "tide") (str "diet")
        == max_variant_similarity unidecode_table (str "diet")
             (str "tide"))%Q.
Proof.
  assert (E1 : max_variant_similarity unidecode_table (str "tide")
                 (str "diet") = (2 # 8)%Q) by (vm_compute; reflexivity).
  assert (E2 : max_variant_similarity unidecode_table (str "diet")
                 (str "tide") = (4 # 8)%Q) by (vm_compute; reflexivity).
  split; [exact E1|]. split; [exact E2|].
  rewrite E1, E2. intros H. discriminate H.
Qed.

(** C8 (amended).  No variant is longer than the transliterated name
    [unidecode(x)], hence none is longer than [x] when the transliteration
    leaves [x] as it is, as it does for ASCII names; and equal names have
    equal variant lists. *)
Theorem normalize_name_variants_length (unidecode : pystr -> pystr)
    (x v : pystr) :
  In v (normalize_name_variants unidecode x) ->
  length v <= length (unidecode x)
  /\ (unidecode x = x -> length v <= length x)
  /\ (forall y, y = x ->
        normalize_name_variants unidecode y
        = normalize_name_variants unidecode x).
Proof.
  intros H. pose proof (normalize_variant_length _ _ _ H) as Hlen.
  split; [exact Hlen|]. split.
  - intros E. rewrite E in Hlen. exact Hlen.
  - intros y ->. reflexivity.
Qed.

Lemma normalize_name_variants_length_witness :
  In (str "goldfarmer") (normalize_name_variants unidecode_table (str "Gold_Farmer"))
  /\ length (str "goldfarmer") <= length (unidecode_table (str "Gold_Farmer")).
Proof.
  assert (H : In (str "goldfarmer")
                (normalize_name_variants unidecode_table (str "Gold_Farmer")))
    by (vm_compute; left; reflexivity).
  split; [exact H|].
  exact (proj1 (normalize_name_variants_length unidecode_table
                  (str "Gold_Farmer") (str "goldfarmer") H)).
Defined.

(** C8, as stated, fails: the one-character name U+00DF (sharp s) is
    transliterated to ["ss"], and its variant ["ss"] has two characters. *)
Lemma normalize_name_variants_longer :
  exists v,
    In v (normalize_name_variants unidecode_table [223%N])
    /\ length [223%N] < length v.
Proof.
  exists (str "ss"). split; [vm_compute; left; reflexivity|vm_compute; lia].
Qed.

Lemma NoDup_app_disjoint (A : Type) (l l' : list A) x :
  NoDup (l ++ l') -> In x l -> ~ In x l'.
Proof.
  induction l as [|y l IH]; cbn [app]; intros H Hx; [destruct Hx|].
  inversion H as [|y' t Hy Ht]; subst.
  destruct Hx as [->|Hx]; [|now apply IH].
  intros Hin. apply Hy. apply in_or_app. now right.
Qed.

Lemma concat_filter_incl (A : Type) (f : list A -> bool) (l : list (list A))
    x :
  In x (concat (List.filter f l)) -> In x (concat l).
Proof.
  induction l as [|g l IH]; cbn [List.filter concat]; [trivial|].
  destruct (f g); cbn [concat]; intros H.
  - apply in_or_app. apply in_app_or in H. destruct H; [now left|].
    right. now apply IH.
  - apply in_or_app. right. now apply IH.
Qed.

Lemma NoDup_concat_filter (A : Type) (f : list A -> bool)
    (l : list (list A)) :
  NoDup (concat l) -> NoDup (concat (List.filter f l)).
Proof.
  induction l as [|g l IH]; cbn [List.filter concat]; [trivial|].
  intros H. pose proof (NoDup_app_remove_l _ _ H) as Hl.
  destruct (f g); cbn [concat]; [|now apply IH].
  apply NoDup_app.
  - exact (NoDup_app_remove_r _ _ H).
  - now apply IH.
  - intros x Hx Hx'. apply concat_filter_incl in Hx'.
    exact (NoDup_app_disjoint _ _ _ H Hx Hx').
Qed.

Lemma NoDup_concat_disjoint (A : Type) (l : list (list A)) g g' x :
  NoDup (concat l) -> In g l -> In g' l -> g <> g' ->
  In x g -> In x g' -> False.
Proof.
  induction l as [|h l IH]; cbn [concat]; intros H Hg Hg' Hne Hx Hx';
    [destruct Hg|].
  assert (Hin : forall k, In k l -> In x k -> In x (concat l)).
  { intros k Hk Hxk. apply in_concat. now exists k. }
  destruct Hg as [->|Hg], Hg' as [->|Hg'].
  - now apply Hne.
  - exact (NoDup_app_disjoint _ _ _ H Hx (Hin _ Hg' Hx')).
  - exact (NoDup_app_disjoint _ _ _ H Hx' (Hin _ Hg Hx)).
  - exact (IH (NoDup_app_remove_l _ _ H) Hg Hg' Hne Hx Hx').
Qed.

Lemma joined_true unidecode entries nm name_threshold m :
  joined unidecode entries nm name_threshold m = true ->
  exists m_nm sim,
    In (m, m_nm) entries
    /\ max_variant_similarity_dyn unidecode nm m_nm = Ok sim
    /\ (name_threshold <= sim)%Q.
Proof.
  unfold joined, joins.
  destruct (name_map_get entries m) as [m_nm|e] eqn:E1; cbn [bind];
    [|discriminate].
  destruct (max_variant_similarity_dyn unidecode nm m_nm) as [sim|e] eqn:E2;
    cbn [bind]; [|discriminate].
  intros H. exists m_nm, sim. split; [now apply name_map_get_In|].
  split; [exact E2|now apply Qle_bool_iff].
Qed.

Lemma same_group_length g g' :
  same_group g g' -> forall n, (n <=? length g) = (n <=? length g').
Proof.
  intros [_ H] n. now rewrite (Permutation_length H).
Qed.

(** ** The score validator *)

Lemma SFcompare_antisym x y :
  SFcompare y x = option_map CompOpp (SFcompare x y).
Proof.
  destruct x as [sx|sx| |sx mx ex], y as [sy|sy| |sy my ey];
    cbn [SFcompare option_map]; try reflexivity;
    try (destruct sx; reflexivity); try (destruct sy; reflexivity);
    try (destruct sx, sy; reflexivity).
  destruct sx, sy; cbn [CompOpp]; try reflexivity.
  - rewrite (Z.compare_antisym ex ey).
    destruct (ex ?= ey)%Z; cbn [CompOpp]; try reflexivity.
    rewrite (Pos.compare_cont_antisym mx my Eq). reflexivity.
  - rewrite (Z.compare_antisym ex ey).
    destruct (ex ?= ey)%Z; cbn [CompOpp]; try reflexivity.
    rewrite (Pos.compare_cont_antisym mx my Eq). reflexivity.
Qed.

(** Away from NaN, [x > y] is the negation of [x <= y]. *)
Lemma gtb_negb_leb x y :
  F.is_nan x = false -> F.is_nan y = false ->
  F.gtb x y = negb (F.leb x y).
Proof.
  intros Hx Hy. unfold F.gtb, F.leb, SFltb, SFleb.
  rewrite (SFcompare_antisym x y).
  destruct x as [sx|sx| |sx mx ex], y as [sy|sy| |sy my ey];
    try discriminate;
    destruct (SFcompare _ _) as [[| |]|] eqn:E; try reflexivity;
    cbn in E; try discriminate;
    try (destruct sx; discriminate); try (destruct sy; discriminate).
Qed.

Lemma insert_sorted_length x l :
  length (insert_sorted x l) = S (length l).
Proof.
  induction l as [|e t IH]; cbn [insert_sorted length]; [reflexivity|].
  destruct (F.ltb x e); cbn [length]; [reflexivity|now rewrite IH].
Qed.

Lemma sorted_fold_length l acc :
  length (fold_left (fun acc x => insert_sorted x acc) l acc)
  = length acc + length l.
Proof.
  revert acc. induction l as [|x l IH]; intros acc; cbn [fold_left length];
    [lia|].
  rewrite IH, insert_sorted_length. lia.
Qed.

Lemma sorted_length l : length (sorted l) = length l.
Proof. unfold sorted. now rewrite sorted_fold_length. Qed.

(** [median] raises on the empty list only. *)
Lemma median_total data :
  data <> [] -> exists med, median data = Ok med.
Proof.
  intros H. unfold median. rewrite sorted_length.
  destruct (length data =? 0) eqn:E.
  - apply Nat.eqb_eq in E. destruct data; [congruence|discriminate].
  - destruct (length data mod 2 =? 1); eexists; reflexivity.
Qed.

Lemma within_tolerance_forallb med tolerance_ratio vals :
  within_tolerance med tolerance_ratio vals
  = forallb (fun v => negb (F.gtb (deviation v med) tolerance_ratio)) vals.
Proof.
  induction vals as [|v rest IH]; cbn [within_tolerance forallb];
    [reflexivity|].
  fold (deviation v med).
  destruct (F.gtb (deviation v med) tolerance_ratio); [reflexivity|exact IH].
Qed.

(** What [scores_consistent] computes: never an exception; [False] below
    two scores; for a median of zero every score within the tolerance in
    absolute value; otherwise no score whose deviation from the median
    exceeds the tolerance.  Away from NaN the last test is that every
    deviation is at most the tolerance. *)
Lemma scores_consistent_spec vals tolerance_ratio :
  (length vals < 2 -> scores_consistent vals tolerance_ratio = Ok false)
  /\ (2 <= length vals ->
      exists med,
        median vals = Ok med
        /\ (F.eqb med F.zero = true ->
            scores_consistent vals tolerance_ratio
            = Ok (forallb (fun v => F.leb (F.abs v) tolerance_ratio) vals))
        /\ (F.eqb med F.zero = false ->
            scores_consistent vals tolerance_ratio
            = Ok (forallb
                    (fun v => negb (F.gtb (deviation v med) tolerance_ratio))
                    vals))
        /\ (F.eqb med F.zero = false ->
            F.is_nan tolerance_ratio = false ->
            (forall v, In v vals -> F.is_nan (deviation v med) = false) ->
            scores_consistent vals tolerance_ratio
            = Ok (forallb (fun v => F.leb (deviation v med) tolerance_ratio)
                    vals))).
Proof.
  unfold scores_consistent. split.
  - intros H. apply Nat.ltb_lt in H. now rewrite H.
  - intros H. assert (E : (length vals <? 2) = false) by now apply Nat.ltb_ge.
    rewrite E. destruct (@median_total vals) as [med Em].
    { destruct vals; [simpl in H; lia|congruence]. }
    exists med. rewrite Em. cbn [bind].
    split; [reflexivity|]. split; [|split].
    + intros Ez. now rewrite Ez.
    + intros Ez. rewrite Ez. now rewrite within_tolerance_forallb.
    + intros Ez Ht Hv. rewrite Ez, within_tolerance_forallb. f_equal.
      clear Em E H. induction vals as [|v rest IH]; [reflexivity|].
      cbn [forallb]. rewrite gtb_negb_leb, negb_involutive;
        [|apply Hv; now left|exact Ht].
      f_equal. apply IH. intros w Hw. apply Hv. now right.
Qed.

(** The four results the specification lists. *)
Lemma scores_consistent_examples :
  scores_consistent [F.of_Z 100; F.of_Z 100] SCORE_TOLERANCE_RATIO = Ok true
  /\ scores_consistent [F.of_Z 100; F.of_Z 1000] SCORE_TOLERANCE_RATIO
     = Ok false
  /\ scores_consistent [F.of_Z 0; F.of_Z 0] SCORE_TOLERANCE_RATIO = Ok true
  /\ scores_consistent [F.of_Z 0; F.of_Z 1] SCORE_TOLERANCE_RATIO = Ok false.
Proof. repeat split; vm_compute; reflexivity. Qed.

(** C3: for the scores [[nan, nan]] the median is NaN, which is not zero;
    no score has a deviation of at most the tolerance, since the deviation
    is NaN; and [scores_consistent] returns [True], because it looks for a
    deviation above the tolerance and NaN is not above anything.  The same
    holds for [[100.0, 100.0, nan]], whose median is 100.0. *)
Theorem scores_consistent_nan :
  median [F.nan; F.nan] = Ok F.nan
  /\ F.eqb F.nan F.zero = false
  /\ forallb (fun v => F.leb (deviation v F.nan) SCORE_TOLERANCE_RATIO)
       [F.nan; F.nan] = false
  /\ scores_consistent [F.nan; F.nan] SCORE_TOLERANCE_RATIO = Ok true
  /\ median [F.of_Z 100; F.of_Z 100; F.nan] = Ok (F.of_Z 100)
  /\ forallb
       (fun v => F.leb (deviation v (F.of_Z 100)) SCORE_TOLERANCE_RATIO)
       [F.of_Z 100; F.of_Z 100; F.nan] = false
  /\ scores_consistent [F.of_Z 100; F.of_Z 100; F.nan]
       SCORE_TOLERANCE_RATIO = Ok true.
Proof. repeat split; vm_compute; reflexivity. Qed.

(** ** The numeric coercion of scores *)

(** What [numeric_score] does on the values that do not overflow: a bool
    counts as the number 1.0 or 0.0, a float is returned as it is (NaN and
    the infinities too), a string goes through [float(...)], and anything
    else is [None]. *)
Lemma numeric_score_cases (parse_float : pystr -> option F.float) :
  numeric_score parse_float (PBool true) = Ok (Some F.one)
  /\ numeric_score parse_float (PBool false) = Ok (Some F.zero)
  /\ (forall f, numeric_score parse_float (PFloat f) = Ok (Some f))
  /\ (forall s, numeric_score parse_float (PStr s) = Ok (parse_float s))
  /\ numeric_score parse_float PNone = Ok None
  /\ (forall l, numeric_score parse_float (PList l) = Ok None)
  /\ (forall d, numeric_score parse_float (PDict d) = Ok None)
  /\ (forall z, F.is_inf (F.of_Z z) = false ->
        numeric_score parse_float (PInt z) = Ok (Some (F.of_Z z))).
Proof.
  repeat split; try reflexivity.
  intros z Hz. cbn [numeric_score]. unfold float_of_int. now rewrite Hz.
Qed.

(** C10: [float(val)] for an [int] stands outside the [try], and for an
    integer beyond the range of a double it raises [OverflowError]. *)
Theorem numeric_score_overflow (parse_float : pystr -> option F.float) :
  numeric_score parse_float (PInt (10 ^ 400)) = Raise OverflowError.
Proof. vm_compute. reflexivity. Qed.

(** ** The per-batch filter *)

Section BatchFacts.

Variable unidecode : pystr -> pystr.
Variable parse_float : pystr -> option F.float.

Lemma kept_iff (p : payload) :
  kept p = true <->
  MIN_GROUP_SIZE <= count p
  /\ (NAME_SIMILARITY_THRESHOLD <= avg_name_similarity p)%Q
  /\ score_consistent p = true.
Proof.
  unfold kept.
  destruct (count p <? MIN_GROUP_SIZE) eqn:E1.
  - apply Nat.ltb_lt in E1. split; [discriminate|]. intros [H _]. lia.
  - apply Nat.ltb_ge in E1.
    destruct (Qlt_bool (avg_name_similarity p) NAME_SIMILARITY_THRESHOLD)
      eqn:E2.
    + apply Qlt_bool_iff in E2. split; [discriminate|].
      intros [_ [H _]]. exfalso. exact (Qlt_not_le _ _ E2 H).
    + apply Qlt_bool_false in E2.
      destruct (score_consistent p); cbn [negb].
      * split; [intros _; repeat split; assumption|reflexivity].
      * split; [discriminate|]. intros [_ [_ H]]. discriminate H.
Qed.

Lemma filter_clusters_spec data clusters acc res :
  filter_clusters unidecode parse_float data clusters acc = Ok res ->
  exists payloads,
    Forall2 (fun c p => build_group_payload unidecode parse_float c data
                        = Ok p) clusters payloads
    /\ res = acc ++ List.filter kept payloads.
Proof.
  revert acc. induction clusters as [|c rest IH]; intros acc H;
    cbn [filter_clusters] in H.
  - inversion H; subst. exists []. split; [constructor|].
    cbn [List.filter]. now rewrite app_nil_r.
  - destruct (build_group_payload unidecode parse_float c data)
      as [p|e] eqn:Ep; cbn [bind] in H; [|discriminate].
    destruct (kept p) eqn:Ek.
    + destruct (IH _ H) as [ps [Hf ->]].
      exists (p :: ps). split; [constructor; assumption|].
      cbn [List.filter]. rewrite Ek. now rewrite <- app_assoc.
    + destruct (IH _ H) as [ps [Hf ->]].
      exists (p :: ps). split; [constructor; assumption|].
      cbn [List.filter]. now rewrite Ek.
Qed.

Lemma payload_loop_lengths users group_uids st st' :
  payload_loop parse_float users group_uids st = Ok st' ->
  length (fst (fst st')) = length (fst (fst st)) + length group_uids
  /\ length (snd (fst st')) = length (snd (fst st)) + length group_uids.
Proof.
  revert st. induction group_uids as [|u rest IH]; intros st H;
    cbn [payload_loop] in H.
  - inversion H; subst. cbn [length]. lia.
  - destruct (payload_step parse_float users st u) as [st1|e] eqn:E;
      cbn [bind] in H; [|discriminate].
    apply IH in H. destruct H as [H1 H2].
    unfold payload_step in E. destruct st as [[accounts names] scores].
    destruct (username_of _) as [uname|e]; cbn [bind] in E; [|discriminate].
    destruct (py_get _ _ _) as [score|e]; cbn [bind] in E; [|discriminate].
    destruct (numeric_score parse_float score) as [sc|e]; cbn [bind] in E;
      [|discriminate].
    inversion E; subst st1. cbn [fst snd] in *.
    rewrite length_app in H1, H2. cbn [length] in *. lia.
Qed.

(** The fields of a payload that the filter reads. *)
Lemma build_group_payload_fields group_uids users p :
  build_group_payload unidecode parse_float group_uids users = Ok p ->
  exists accounts names scores avg,
    payload_loop parse_float users group_uids ([], [], [])
    = Ok (accounts, names, scores)
    /\ length names = length group_uids
    /\ count p = length group_uids
    /\ pairwise_avg_similarity unidecode names = Ok avg
    /\ avg_name_similarity p = round3 avg
    /\ match scores with
       | [] => score_consistent p = false
       | _ => scores_consistent scores SCORE_TOLERANCE_RATIO
              = Ok (score_consistent p)
       end.
Proof.
  unfold build_group_payload. intros H.
  destruct (payload_loop parse_float users group_uids ([], [], []))
    as [[[accounts names] scores]|e] eqn:El; cbn [bind] in H;
    [|discriminate].
  destruct (payload_loop_lengths _ _ _ El) as [L1 L2].
  cbn [fst snd length] in L1, L2.
  destruct (pairwise_avg_similarity unidecode names) as [avg|e] eqn:Ea;
    cbn [bind] in H; [|discriminate].
  exists accounts, names, scores, avg.
  destruct scores as [|s0 scores'].
  - cbn [bind] in H. inversion H; subst p. cbn.
    repeat split; try reflexivity; assumption.
  - destruct (median (s0 :: scores')) as [m|e]; cbn [bind] in H;
      [|discriminate].
    destruct (scores_consistent (s0 :: scores') SCORE_TOLERANCE_RATIO)
      as [ok|e] eqn:Es; cbn [bind] in H; [|discriminate].
    inversion H; subst p. cbn.
    repeat split; try reflexivity; assumption.
Qed.

End BatchFacts.

(** ** Records without a username *)

Lemma username_of_raises udata e :
  username_of udata = Raise e -> e = AttributeError.
Proof.
  unfold username_of, py_get.
  destruct udata as [| | | | | |d]; cbn [bind]; try congruence.
  destruct (dict_get_default d k_latest (PDict [])) as [| | | | | |l];
    cbn [bind]; congruence.
Qed.

(** An absent [latest], and a [latest] object with an absent or null
    [username], give the empty name. *)
Lemma username_of_missing (d : pydict) :
  (dict_lookup d k_latest = None -> username_of (PDict d) = Ok (PStr []))
  /\ (forall l,
        dict_lookup d k_latest = Some (PDict l) ->
        dict_lookup l k_username = None
        \/ dict_lookup l k_username = Some PNone ->
        username_of (PDict d) = Ok (PStr [])).
Proof.
  unfold username_of, py_get, dict_get_default. split.
  - intros ->. reflexivity.
  - intros l Hl Hu. rewrite Hl. cbn [bind].
    destruct Hu as [Hu|Hu]; rewrite Hu; reflexivity.
Qed.

Lemma entries_of_raises users u udata :
  In (u, udata) users ->
  (exists e, username_of udata = Raise e) ->
  entries_of users = Raise AttributeError.
Proof.
  intros Hin [e He].
  induction users as [|[u' udata'] rest IH]; [destruct Hin|].
  cbn [entries_of].
  destruct (username_of udata') as [uname|e'] eqn:E'.
  - cbn [bind]. destruct Hin as [Heq|Hin]; [congruence|].
    rewrite (IH Hin). reflexivity.
  - cbn [bind]. now rewrite (username_of_raises _ E').
Qed.

Lemma entries_of_In users entries u nm :
  entries_of users = Ok entries ->
  In (u, nm) entries ->
  exists udata, In (u, udata) users /\ username_of udata = Ok nm.
Proof.
  revert entries. induction users as [|[u' udata'] rest IH];
    intros entries H Hin; cbn [entries_of] in H.
  - inversion H; subst. destruct Hin.
  - destruct (username_of udata') as [uname|e] eqn:E'; cbn [bind] in H;
      [|discriminate].
    destruct (entries_of rest) as [es|e]; cbn [bind] in H; [|discriminate].
    inversion H; subst. destruct Hin as [Heq|Hin].
    + inversion Heq; subst. exists udata'. split; [now left|exact E'].
    + destruct (IH es eq_refl Hin) as [r [H1 H2]].
      exists r. split; [now right|exact H2].
Qed.

Lemma entries_of_returns users :
  (forall u udata, In (u, udata) users ->
     exists s, username_of udata = Ok (PStr s)) ->
  exists entries, entries_of users = Ok entries.
Proof.
  induction users as [|[u udata] rest IH]; intros Hwf; cbn [entries_of].
  - now exists [].
  - destruct (Hwf u udata (or_introl eq_refl)) as [s Hs].
    rewrite Hs. cbn [bind].
    destruct IH as [es Hes].
    { intros u' r' H. apply (Hwf u' r'). now right. }
    rewrite Hes. cbn [bind]. eexists. reflexivity.
Qed.

Lemma NoDup_keys_unique (A B : Type) (l : list (A * B)) k v v' :
  NoDup (List.map fst l) -> In (k, v) l -> In (k, v') l -> v = v'.
Proof.
  induction l as [|[k0 v0] l IH]; cbn [List.map fst]; intros Hnd H H';
    [destruct H|].
  inversion Hnd as [|x t Hx Ht]; subst.
  destruct H as [H|H], H' as [H'|H'].
  - congruence.
  - inversion H; subst. exfalso. apply Hx.
    change k with (fst (k, v')). now apply in_map.
  - inversion H'; subst. exfalso. apply Hx.
    change k with (fst (k, v)). now apply in_map.
  - now apply IH.
Qed.

Lemma name_map_get_key entries u :
  In u (List.map fst entries) -> exists nm, name_map_get entries u = Ok nm.
Proof.
  induction entries as [|[u' nm'] rest IH]; cbn [List.map fst In];
    [intros []|].
  intros H. cbn [name_map_get].
  destruct (name_map_get rest u) as [v|e] eqn:E; [now exists v|].
  destruct H as [->|H].
  - rewrite pystr_eqb_refl. now exists nm'.
  - destruct (IH H) as [nm Hnm]. discriminate Hnm.
Qed.

Lemma set_of_fold_incl l acc x :
  In x (fold_left (fun acc u => if uid_mem u acc then acc else acc ++ [u])
          l acc) ->
  In x acc \/ In x l.
Proof.
  revert acc. induction l as [|u l IH]; intros acc H; cbn [fold_left] in H;
    [now left|].
  apply IH in H. destruct H as [H|H]; [|right; now right].
  destruct (uid_mem u acc); [now left|].
  apply in_app_or in H. destruct H as [H|[H|[]]]; [now left|].
  right. now left.
Qed.

Lemma set_of_incl l x : In x (set_of l) -> In x l.
Proof.
  intros H. apply set_of_fold_incl in H. destruct H as [[]|H]. exact H.
Qed.

Section Strings.

Variable unidecode : pystr -> pystr.
Variable set_iter : list uid -> list uid.

Hypothesis set_iter_perm : forall l, Permutation (set_iter l) l.

(** On two strings the similarity is that of the typed function. *)
Lemma max_variant_similarity_dyn_typed a b :
  max_variant_similarity_dyn unidecode (PStr a) (PStr b)
  = Ok (max_variant_similarity unidecode a b).
Proof.
  unfold max_variant_similarity_dyn, normalize_name_variants_dyn, py_or,
    max_variant_similarity.
  cbn [truthy]. destruct a, b; reflexivity.
Qed.

Lemma max_variant_similarity_dyn_str a b :
  exists sim,
    max_variant_similarity_dyn unidecode (PStr a) (PStr b) = Ok sim.
Proof.
  unfold max_variant_similarity_dyn, normalize_name_variants_dyn, py_or.
  cbn [truthy]. destruct (nonempty a), (nonempty b); cbn [bind];
    eexists; reflexivity.
Qed.

Lemma all_comparable_strings entries name_threshold todo unassigned :
  (forall u nm, In (u, nm) entries -> exists s, nm = PStr s) ->
  (forall u nm, In (u, nm) todo -> exists s, nm = PStr s) ->
  (forall x, In x unassigned -> In x (List.map fst entries)) ->
  all_comparable unidecode set_iter entries name_threshold todo unassigned.
Proof.
  intros Hent. revert unassigned.
  induction todo as [|[u nm] rest IH]; intros unassigned Htodo Hun;
    cbn [all_comparable]; [exact I|].
  assert (Hrest : forall u' nm', In (u', nm') rest -> exists s, nm' = PStr s).
  { intros u' nm' H. apply (Htodo u' nm'). now right. }
  destruct (negb (uid_mem u unassigned)); [now apply IH|].
  cbv zeta. split.
  - apply Forall_forall. intros o Ho.
    assert (Hin : In o unassigned).
    { apply (Permutation_in _ (set_iter_perm _)) in Ho.
      apply set_remove_In in Ho. tauto. }
    destruct (name_map_get_key entries o (Hun o Hin)) as [onm Eo].
    destruct (Hent o onm (name_map_get_In _ _ Eo)) as [s' ->].
    destruct (Htodo u nm (or_introl eq_refl)) as [s ->].
    destruct (max_variant_similarity_dyn_str s s') as [sim Es].
    unfold comparable, joins. rewrite Eo. cbn [bind]. rewrite Es.
    reflexivity.
  - apply IH; [exact Hrest|].
    intros x Hx. apply remove_all_In in Hx. destruct Hx as [Hx _].
    apply set_remove_In in Hx. apply Hun. tauto.
Qed.

(** When every record gives a string for a username, the empty one
    included, [cluster_similar_users] returns. *)
Lemma cluster_similar_users_returns users name_threshold min_group :
  (forall u udata, In (u, udata) users ->
     exists s, username_of udata = Ok (PStr s)) ->
  exists groups,
    cluster_similar_users unidecode set_iter users name_threshold min_group
    = Ok groups.
Proof.
  intros Hwf. unfold cluster_similar_users.
  destruct (entries_of_returns users Hwf) as [entries Ee]. rewrite Ee.
  - cbn [bind].
    assert (Hent : forall u nm, In (u, nm) entries -> exists s, nm = PStr s).
    { intros u nm Hin.
      destruct (entries_of_In _ _ _ Ee Hin) as [udata [H1 H2]].
      destruct (Hwf u udata H1) as [s Hs]. exists s. congruence. }
    rewrite (@seed_loop_run unidecode entries name_threshold set_iter
               min_group entries (set_of (List.map fst entries)) []).
    + eexists. reflexivity.
    + apply all_comparable_strings; [exact Hent|exact Hent|].
      intros x Hx. now apply set_of_incl.
Qed.

Lemma similarity_empty_l x sim :
  unidecode [] = [] ->
  max_variant_similarity_dyn unidecode (PStr []) x = Ok sim -> sim = 0%Q.
Proof.
  intros E. unfold max_variant_similarity_dyn.
  assert (En : normalize_name_variants_dyn unidecode (PStr []) = Ok []).
  { unfold normalize_name_variants_dyn, py_or. cbn [truthy nonempty].
    f_equal. apply normalize_name_variants_shape; [exact []|exact E]. }
  rewrite En. cbn [bind].
  destruct (normalize_name_variants_dyn unidecode x) as [b_vars|e];
    cbn [bind]; [|discriminate].
  intros H. inversion H. reflexivity.
Qed.

Lemma similarity_empty_r x sim :
  unidecode [] = [] ->
  max_variant_similarity_dyn unidecode x (PStr []) = Ok sim -> sim = 0%Q.
Proof.
  intros E. unfold max_variant_similarity_dyn.
  assert (En : normalize_name_variants_dyn unidecode (PStr []) = Ok []).
  { unfold normalize_name_variants_dyn, py_or. cbn [truthy nonempty].
    f_equal. apply normalize_name_variants_shape; [exact []|exact E]. }
  rewrite En.
  destruct (normalize_name_variants_dyn unidecode x) as [a_vars|e];
    cbn [bind]; [|discriminate].
  intros H. inversion H.
  rewrite similarity_rows_scan, ratios_nil_r. reflexivity.
Qed.

(** An account whose record gives the empty name is in no returned
    cluster, for a positive threshold and a minimum size of two or more. *)
Lemma nameless_account_not_clustered users name_threshold min_group groups
    u udata :
  NoDup (List.map fst users) ->
  unidecode [] = [] ->
  (0 < name_threshold)%Q ->
  2 <= min_group ->
  cluster_similar_users unidecode set_iter users name_threshold min_group
  = Ok groups ->
  In (u, udata) users ->
  username_of udata = Ok (PStr []) ->
  forall g, In g groups -> ~ In u g.
Proof.
  intros Hkeys Hemp Hthr Hmin H Hin Hname g Hg Hu.
  unfold cluster_similar_users in H.
  destruct (entries_of users) as [entries|e] eqn:Ee; cbn [bind] in H;
    [|discriminate].
  pose proof (entries_of_keys _ Ee) as Ek.
  pose proof (@seed_loop_inv unidecode entries name_threshold set_iter
                min_group entries (set_of (List.map fst entries)) []
                groups H) as Hc.
  rewrite (@seed_loop_run unidecode entries name_threshold set_iter
             min_group entries (set_of (List.map fst entries)) [] Hc) in H.
  cbn [app] in H. inversion H as [Hgroups]. clear H.
  rewrite <- Hgroups in Hg. apply filter_In in Hg.
  destruct Hg as [Hg Hlen]. apply Nat.leb_le in Hlen.
  destruct (@formed_groups_members unidecode set_iter entries
              name_threshold entries (set_of (List.map fst entries)) g Hg)
    as [seed [nm [members [-> [Hseed Hmem]]]]].
  assert (Hnd : NoDup (List.map fst entries)) by (rewrite Ek; exact Hkeys).
  assert (Hempty : forall nm', In (u, nm') entries -> nm' = PStr []).
  { intros nm' H'.
    destruct (entries_of_In _ _ _ Ee H') as [r [H1 H2]].
    rewrite (NoDup_keys_unique _ _ _ _ Hkeys H1 Hin) in H2. congruence. }
  assert (Hzero : ~ (name_threshold <= 0)%Q)
    by (apply Qlt_not_le; exact Hthr).
  destruct Hu as [->|Hu].
  - rewrite (Hempty nm Hseed) in Hmem.
    destruct members as [|m members]; [cbn [length] in Hlen; lia|].
    destruct (joined_true _ _ _ _ _ (Hmem m (or_introl eq_refl)))
      as [m_nm [sim [_ [Es Hle]]]].
    rewrite (similarity_empty_l _ Hemp Es) in Hle. exact (Hzero Hle).
  - destruct (joined_true _ _ _ _ _ (Hmem u Hu))
      as [m_nm [sim [Hm [Es Hle]]]].
    rewrite (Hempty m_nm Hm) in Es.
    rewrite (similarity_empty_r _ Hemp Es) in Hle. exact (Hzero Hle).
Qed.

End Strings.

(** C9: a record whose [latest] is present and is not an object, such as
    [{"latest": null}], makes [.get("username")] raise [AttributeError],
    and with it the clustering of the whole batch. *)
Theorem cluster_similar_users_latest_not_object
    (unidecode : pystr -> pystr) (set_iter : list uid -> list uid)
    (users : pydict) (name_threshold : Q) (min_group : nat)
    (u : uid) (d : pydict) (latest : pyval) :
  In (u, PDict d) users ->
  dict_lookup d k_latest = Some latest ->
  (forall l, latest <> PDict l) ->
  cluster_similar_users unidecode set_iter users name_threshold min_group
  = Raise AttributeError.
Proof.
  intros Hin Hl Hnd. unfold cluster_similar_users.
  rewrite (entries_of_raises users u (PDict d) Hin); [reflexivity|].
  exists AttributeError.
  unfold username_of, py_get, dict_get_default. rewrite Hl.
  destruct latest as [| | | | | |l]; cbn [bind]; try reflexivity.
  exfalso. exact (Hnd l eq_refl).
Qed.

Lemma cluster_similar_users_latest_not_object_witness :
  cluster_similar_users unidecode_table (fun l => l)
    [(str "u1", PDict [(k_latest, PNone)])] NAME_SIMILARITY_THRESHOLD
    MIN_GROUP_SIZE
  = Raise AttributeError.
Proof.
  apply (@cluster_similar_users_latest_not_object unidecode_table
           (fun l => l) [(str "u1", PDict [(k_latest, PNone)])]
           NAME_SIMILARITY_THRESHOLD MIN_GROUP_SIZE (str "u1")
           [(k_latest, PNone)] PNone).
  - left. reflexivity.
  - reflexivity.
  - intros l H. discriminate H.
Defined.
(** C2 (amended).  The groups the outer loop of [cluster_similar_users]
    forms are those of [formed_groups]: each one is its seed, the first
    account of the input that is still unassigned, followed by the
    unassigned accounts whose name has a [max_variant_similarity] to the
    seed's name (not to the names of other members) of at least the
    threshold; all of them leave [unassigned], whether the group is kept or
    not.  The function returns the formed groups of at least [min_group]
    members, in this order.  So the returned groups are pairwise disjoint
    lists of account ids, the formed groups together hold every account
    once, and a member of a dropped group is in no returned group.  The
    seeds, the order of the groups and the members of each group follow
    from the order of the input; the order of the members after the seed
    is the iteration order of the set [unassigned], which the input does
    not fix.  The function returns whenever every record gives a string
    for a username. *)
Theorem cluster_similar_users_groups (unidecode : pystr -> pystr)
    (set_iter : list uid -> list uid) (users : pydict)
    (name_threshold : Q) (min_group : nat) :
  (forall l, Permutation (set_iter l) l) ->
  NoDup (List.map fst users) ->
  ((forall u udata, In (u, udata) users ->
      exists s, username_of udata = Ok (PStr s)) ->
   exists groups,
     cluster_similar_users unidecode set_iter users name_threshold
       min_group = Ok groups)
  /\
  forall groups,
  cluster_similar_users unidecode set_iter users name_threshold min_group
  = Ok groups ->
  exists entries,
    entries_of users = Ok entries
    /\ groups
       = List.filter (fun g => min_group <=? length g)
           (formed_groups unidecode set_iter entries name_threshold
              entries (set_of (List.map fst entries)))
    /\ Permutation
         (concat
            (formed_groups unidecode set_iter entries name_threshold
               entries (set_of (List.map fst entries))))
         (List.map fst users)
    /\ NoDup (concat groups)
    /\ (forall g,
          In g (formed_groups unidecode set_iter entries name_threshold
                  entries (set_of (List.map fst entries))) ->
          exists seed nm members,
            g = seed :: members /\ In (seed, nm) entries
            /\ forall m, In m members ->
                 exists m_nm sim,
                   In (m, m_nm) entries
                   /\ max_variant_similarity_dyn unidecode nm m_nm = Ok sim
                   /\ (name_threshold <= sim)%Q)
    /\ (forall g, In g groups -> min_group <= length g)
    /\ (forall g x,
          In g (formed_groups unidecode set_iter entries name_threshold
                  entries (set_of (List.map fst entries))) ->
          length g < min_group -> In x g ->
          forall g', In g' groups -> ~ In x g')
    /\ (forall set_iter' : list uid -> list uid,
          (forall l, Permutation (set_iter' l) l) ->
          exists groups',
            cluster_similar_users unidecode set_iter' users name_threshold
              min_group = Ok groups'
            /\ Forall2 same_group groups groups').
Proof.
  intros Hperm Hkeys. split.
  { intros Hwf. apply cluster_similar_users_returns; assumption. }
  intros groups H. unfold cluster_similar_users in *.
  destruct (entries_of users) as [entries|e] eqn:Ee; cbn [bind] in *;
    [|discriminate].
  pose proof (entries_of_keys _ Ee) as Ek.
  exists entries. split; [reflexivity|].
  rewrite Ek, (set_of_NoDup Hkeys) in *.
  pose proof (@seed_loop_inv unidecode entries name_threshold set_iter
                min_group entries (List.map fst users) [] groups H) as Hc.
  rewrite (@seed_loop_run unidecode entries name_threshold set_iter
             min_group entries (List.map fst users) [] Hc) in H.
  cbn [app] in H. inversion H as [Hg]. clear H.
  set (formed := formed_groups unidecode set_iter entries name_threshold
                   entries (List.map fst users)) in *.
  assert (Hnd : NoDup (concat formed))
    by (apply formed_groups_NoDup; assumption).
  split; [reflexivity|].
  split.
  { apply NoDup_Permutation; [exact Hnd|exact Hkeys|].
    intros x. split.
    - apply formed_groups_incl. exact Hperm.
    - apply formed_groups_cover. intros y Hy. rewrite Ek. exact Hy. }
  split; [apply NoDup_concat_filter; exact Hnd|].
  split.
  { intros g Hin.
    destruct (@formed_groups_members unidecode set_iter entries
                name_threshold entries (List.map fst users) g Hin)
      as [seed [nm [members [E [Hs Hm]]]]].
    exists seed, nm, members. split; [exact E|]. split; [exact Hs|].
    intros m Hmem. apply joined_true. now apply Hm. }
  split.
  { intros g Hin. apply filter_In in Hin. destruct Hin as [_ Hin].
    now apply Nat.leb_le. }
  split.
  { intros g x Hin Hlen Hx g' Hin' Hx'.
    apply filter_In in Hin'. destruct Hin' as [Hin' Hlen'].
    apply Nat.leb_le in Hlen'.
    assert (Hne : g <> g') by (intros ->; lia).
    exact (@NoDup_concat_disjoint uid formed g g' x Hnd Hin Hin' Hne
             Hx Hx'). }
  intros set_iter' Hperm'.
  destruct (@formed_groups_order unidecode set_iter set_iter' entries
              name_threshold entries (List.map fst users) Hperm Hperm')
    as [Hf2 Hc'].
  rewrite (@seed_loop_run unidecode entries name_threshold set_iter'
             min_group entries (List.map fst users) [] (Hc' Hc)).
  cbn [app].
  eexists. split; [reflexivity|].
  apply Forall2_filter_compat; [|exact Hf2].
  intros x y Hxy. now apply same_group_length.
Qed.

Lemma cluster_similar_users_groups_witness :
  (exists groups,
     cluster_similar_users unidecode_table (fun l => l) gold_batch
       (7 # 10)%Q 3 = Ok groups)
  /\
  exists entries,
    entries_of gold_batch = Ok entries
    /\ [[str "1"; str "3"; str "5"]]
       = List.filter (fun g => 3 <=? length g)
           (formed_groups unidecode_table (fun l => l) entries (7 # 10)%Q
              entries (set_of (List.map fst entries)))
    /\ Permutation
         (concat
            (formed_groups unidecode_table (fun l => l) entries (7 # 10)%Q
               entries (set_of (List.map fst entries))))
         (List.map fst gold_batch).
Proof.
  assert (Hperm : forall l : list uid, Permutation ((fun l => l) l) l)
    by (intros l; apply Permutation_refl).
  assert (Hkeys : NoDup (List.map fst gold_batch)).
  { vm_compute. repeat constructor; cbn [In];
      intros H; repeat (destruct H as [H|H]; [discriminate H|]);
      exact H. }
  assert (Hrun : cluster_similar_users unidecode_table (fun l => l)
                   gold_batch (7 # 10)%Q 3
                 = Ok [[str "1"; str "3"; str "5"]])
    by (vm_compute; reflexivity).
  destruct (cluster_similar_users_groups unidecode_table (fun l => l)
              gold_batch (7 # 10)%Q 3 Hperm Hkeys) as [Hret Hspec].
  split.
  - apply Hret. intros u udata Hin. cbn [gold_batch In] in Hin.
    repeat (destruct Hin as [Hin|Hin];
            [inversion Hin; subst; eexists; vm_compute; reflexivity|]).
    destruct Hin.
  - destruct (Hspec _ Hrun) as [entries [H1 [H2 [H3 _]]]].
    exists entries.
    split; [exact H1|]. split; [exact H2|exact H3].
Defined.

(** C2, as stated, fails in its last clause: for the same input, two
    iteration orders of the set [unassigned] give the members of a group in
    two orders. *)
Lemma cluster_similar_users_member_order :
  cluster_similar_users unidecode_table (fun l => l) gold_batch
    (7 # 10)%Q 3 = Ok [[str "1"; str "3"; str "5"]]
  /\ cluster_similar_users unidecode_table (@rev uid) gold_batch
       (7 # 10)%Q 3 = Ok [[str "1"; str "5"; str "3"]]
  /\ [[str "1"; str "3"; str "5"]] <> [[str "1"; str "5"; str "3"]].
Proof.
  split; [vm_compute; reflexivity|].
  split; [vm_compute; reflexivity|].
  vm_compute. discriminate.
Qed.

(** ** When the per-batch filter returns *)

Lemma dict_lookup_In (d : pydict) k v :
  dict_lookup d k = Some v -> In (k, v) d.
Proof.
  induction d as [|[k' v'] t IH]; cbn [dict_lookup]; [discriminate|].
  destruct (pystr_eqb k k') eqn:E.
  - apply pystr_eqb_eq in E. subst k'. intros H. inversion H. now left.
  - intros H. right. now apply IH.
Qed.

Lemma scores_consistent_returns vals tolerance_ratio :
  exists b, scores_consistent vals tolerance_ratio = Ok b.
Proof.
  destruct (scores_consistent_spec vals tolerance_ratio) as [H1 H2].
  destruct (Nat.lt_ge_cases (length vals) 2) as [Hlt|Hge].
  - exists false. now apply H1.
  - destruct (H2 Hge) as [med [_ [Hz [Hnz _]]]].
    destruct (F.eqb med F.zero); eexists; [now apply Hz|now apply Hnz].
Qed.

Section BatchReturns.

Variable unidecode : pystr -> pystr.
Variable parse_float : pystr -> option F.float.

Lemma usable_default : usable parse_float (PDict []).
Proof.
  split; [exists []; reflexivity|].
  intros score H. inversion H; subst. exists None. reflexivity.
Qed.

Lemma payload_step_returns users st u :
  (forall u' udata, In (u', udata) users -> usable parse_float udata) ->
  all_strings (snd (fst st)) ->
  exists st',
    payload_step parse_float users st u = Ok st'
    /\ all_strings (snd (fst st')).
Proof.
  intros Hwf Hst. destruct st as [[accounts names] scores].
  unfold payload_step.
  assert (Hrec : usable parse_float (dict_get_default users u (PDict []))).
  { unfold dict_get_default.
    destruct (dict_lookup users u) as [v|] eqn:E; [|apply usable_default].
    apply (Hwf u v). now apply dict_lookup_In. }
  destruct Hrec as [[s Hs] Hscore]. rewrite Hs. cbn [bind].
  destruct (dict_get_default users u (PDict [])) as [| | | | | |d] eqn:Er;
    try discriminate Hs.
  cbn [py_get bind].
  destruct (Hscore _ eq_refl) as [sc Hsc]. rewrite Hsc. cbn [bind].
  eexists. split; [reflexivity|].
  cbn [fst snd] in *. apply Forall_app. split; [exact Hst|].
  constructor; [now exists s|constructor].
Qed.

Lemma payload_loop_returns users group_uids st :
  (forall u' udata, In (u', udata) users -> usable parse_float udata) ->
  all_strings (snd (fst st)) ->
  exists st',
    payload_loop parse_float users group_uids st = Ok st'
    /\ all_strings (snd (fst st')).
Proof.
  intros Hwf. revert st.
  induction group_uids as [|u rest IH]; intros st Hst; cbn [payload_loop].
  - exists st. split; [reflexivity|exact Hst].
  - destruct (@payload_step_returns users st u Hwf Hst) as [st1 [E1 H1]].
    rewrite E1. cbn [bind]. now apply IH.
Qed.

Lemma pair_row_returns s rest acc :
  all_strings rest ->
  exists acc', pair_row unidecode (PStr s) rest acc = Ok acc'.
Proof.
  revert acc. induction rest as [|y rest IH]; intros acc H;
    cbn [pair_row]; [now exists acc|].
  inversion H as [|y' rest' [s' ->] Hrest]; subst.
  rewrite max_variant_similarity_dyn_typed. cbn [bind]. now apply IH.
Qed.

Lemma pair_rows_returns names acc :
  all_strings names ->
  exists acc', pair_rows unidecode names acc = Ok acc'.
Proof.
  revert acc. induction names as [|x rest IH]; intros acc H;
    cbn [pair_rows]; [now exists acc|].
  inversion H as [|x' rest' [s ->] Hrest]; subst.
  destruct (@pair_row_returns s rest acc Hrest) as [acc1 E1].
  rewrite E1. cbn [bind]. now apply IH.
Qed.

Lemma pairwise_avg_similarity_returns names :
  all_strings names ->
  exists avg, pairwise_avg_similarity unidecode names = Ok avg.
Proof.
  intros H. unfold pairwise_avg_similarity.
  destruct (length names <? 2); [now exists 0%Q|].
  destruct (@pair_rows_returns names (0%Q, 0) H) as [acc E]. rewrite E.
  cbn [bind]. destruct (snd acc); eexists; reflexivity.
Qed.

Lemma build_group_payload_returns group_uids users :
  (forall u' udata, In (u', udata) users -> usable parse_float udata) ->
  exists p,
    build_group_payload unidecode parse_float group_uids users = Ok p.
Proof.
  intros Hwf. unfold build_group_payload.
  destruct (@payload_loop_returns users group_uids ([], [], []) Hwf)
    as [[[accounts names] scores] [El Hn]]; [constructor|].
  rewrite El. cbn [bind]. cbn [fst snd] in Hn.
  destruct (@pairwise_avg_similarity_returns names Hn) as [avg Ea].
  rewrite Ea. cbn [bind].
  destruct scores as [|s0 scores']; cbn [bind]; [eexists; reflexivity|].
  destruct (@median_total (s0 :: scores')) as [m Em]; [discriminate|].
  rewrite Em. cbn [bind].
  destruct (scores_consistent_returns (s0 :: scores')
              SCORE_TOLERANCE_RATIO) as [ok Es].
  rewrite Es. cbn [bind]. eexists. reflexivity.
Qed.

Lemma filter_clusters_returns data clusters acc :
  (forall u' udata, In (u', udata) data -> usable parse_float udata) ->
  exists res,
    filter_clusters unidecode parse_float data clusters acc = Ok res.
Proof.
  intros Hwf. revert acc.
  induction clusters as [|c rest IH]; intros acc; cbn [filter_clusters];
    [now exists acc|].
  destruct (@build_group_payload_returns c data Hwf) as [p Ep].
  rewrite Ep. cbn [bind]. destruct (kept p); apply IH.
Qed.

End BatchReturns.

(** ** The run of [process_batches] *)

Lemma dict_lookup_set d k v k' :
  dict_lookup (dict_set d k v) k'
  = if pystr_eqb k' k then Some v else dict_lookup d k'.
Proof.
  induction d as [|[k0 v0] t IH]; cbn [dict_set dict_lookup].
  - destruct (pystr_eqb k' k); reflexivity.
  - destruct (pystr_eqb k k0) eqn:E; cbn [dict_lookup].
    + apply pystr_eqb_eq in E. subst k0.
      destruct (pystr_eqb k' k); reflexivity.
    + rewrite IH. destruct (pystr_eqb k' k0) eqn:E0; [|reflexivity].
      apply pystr_eqb_eq in E0. subst k0.
      rewrite pystr_eqb_sym, E. reflexivity.
Qed.

Lemma Forall2_In_l (A B : Type) (R : A -> B -> Prop) l l' x :
  Forall2 R l l' -> In x l -> exists y, In y l' /\ R x y.
Proof.
  induction 1 as [|a b l l' Hab Hl IH]; intros Hin; [destruct Hin|].
  destruct Hin as [->|Hin].
  - exists b. split; [now left|exact Hab].
  - destruct (IH Hin) as [y [Hy Hxy]]. exists y. split; [now right|exact Hxy].
Qed.

Lemma Forall2_In_r (A B : Type) (R : A -> B -> Prop) l l' y :
  Forall2 R l l' -> In y l' -> exists x, In x l /\ R x y.
Proof.
  induction 1 as [|a b l l' Hab Hl IH]; intros Hin; [destruct Hin|].
  destruct Hin as [->|Hin].
  - exists a. split; [now left|exact Hab].
  - destruct (IH Hin) as [x [Hx Hxy]]. exists x. split; [now right|exact Hxy].
Qed.

(** A key of the account keeps a value with the property [P] when the
    fields of the record are copied over it. *)
Lemma update_fields_keeps (P : pyval -> Prop) fields acct k :
  (forall v, In (k, v) fields -> P v) ->
  (exists v, dict_lookup acct k = Some v /\ P v) ->
  exists v, dict_lookup (update_fields fields acct) k = Some v /\ P v.
Proof.
  unfold update_fields. revert acct.
  induction fields as [|[k0 v0] t IH]; intros acct Hf Ha; cbn [fold_left];
    [exact Ha|].
  cbn [fst snd].
  assert (Ht : forall v, In (k, v) t -> P v)
    by (intros v Hv; apply Hf; now right).
  destruct (pystr_eqb k0 k_latest || pystr_eqb k0 k_score);
    [now apply IH|].
  apply IH; [exact Ht|].
  rewrite dict_lookup_set.
  destruct (pystr_eqb k k0) eqn:E; [|exact Ha].
  apply pystr_eqb_eq in E. subst k0.
  exists v0. split; [reflexivity|]. apply Hf. now left.
Qed.

Section RunFacts.

Variable unidecode : pystr -> pystr.
Variable parse_float : pystr -> option F.float.
Variable set_iter : list uid -> list uid.
Variable write_error : written -> option exn.

Hypothesis set_iter_perm : forall l, Permutation (set_iter l) l.
Hypothesis write_accepted : forall w, write_error w = None.

Lemma pair_row_binary64_returns s rest acc :
  all_strings rest ->
  exists acc', pair_row_binary64 unidecode (PStr s) rest acc = Ok acc'.
Proof.
  revert acc. induction rest as [|y rest IH]; intros acc H;
    cbn [pair_row_binary64]; [now exists acc|].
  inversion H as [|y' rest' [s' ->] Hrest]; subst.
  rewrite max_variant_similarity_dyn_typed. cbn [bind]. now apply IH.
Qed.

Lemma pair_rows_binary64_returns names acc :
  all_strings names ->
  exists acc', pair_rows_binary64 unidecode names acc = Ok acc'.
Proof.
  revert acc. induction names as [|x rest IH]; intros acc H;
    cbn [pair_rows_binary64]; [now exists acc|].
  inversion H as [|x' rest' [s ->] Hrest]; subst.
  destruct (@pair_row_binary64_returns s rest acc Hrest) as [acc1 E1].
  rewrite E1. cbn [bind]. now apply IH.
Qed.

Lemma pairwise_avg_similarity_binary64_returns names :
  all_strings names ->
  exists avg, pairwise_avg_similarity_binary64 unidecode names = Ok avg.
Proof.
  intros H. unfold pairwise_avg_similarity_binary64.
  destruct (length names <? 2); [now exists F.zero|].
  destruct (@pair_rows_binary64_returns names (F.zero, 0) H) as [acc E].
  rewrite E. cbn [bind]. destruct (snd acc); eexists; reflexivity.
Qed.

Lemma processable_default : processable parse_float (PDict []).
Proof.
  split; [apply usable_default|].
  intros d v H. inversion H; subst d. intros [].
Qed.

Lemma payload_step_processable users st u :
  (forall u' udata, In (u', udata) users -> processable parse_float udata) ->
  all_strings (snd (fst st)) ->
  Forall account_names_file (fst (fst st)) ->
  exists st',
    payload_step parse_float users st u = Ok st'
    /\ all_strings (snd (fst st'))
    /\ Forall account_names_file (fst (fst st')).
Proof.
  intros Hwf Hst Hacc. destruct st as [[accounts names] scores].
  unfold payload_step.
  assert (Hrec : processable parse_float
                   (dict_get_default users u (PDict []))).
  { unfold dict_get_default.
    destruct (dict_lookup users u) as [v|] eqn:E;
      [|apply processable_default].
    apply (Hwf u v). now apply dict_lookup_In. }
  destruct Hrec as [[[s Hs] Hscore] Hown]. rewrite Hs. cbn [bind].
  destruct (dict_get_default users u (PDict [])) as [| | | | | |d] eqn:Er;
    try discriminate Hs.
  cbn [py_get bind].
  destruct (Hscore _ eq_refl) as [sc Hsc]. rewrite Hsc. cbn [bind].
  eexists. split; [reflexivity|].
  cbn [fst snd] in *. split.
  - apply Forall_app. split; [exact Hst|].
    constructor; [now exists s|constructor].
  - apply Forall_app. split; [exact Hacc|].
    constructor; [|constructor].
    unfold account_names_file, dict_get_default.
    match goal with
    | |- names_file (match dict_lookup (fold_left ?f d ?a) _ with _ => _ end)
      => change (fold_left f d a) with (update_fields d a);
         destruct (@update_fields_keeps names_file d a k_username)
           as [v [Ev Hv]]
    end.
    + intros v Hv. exact (Hown d v eq_refl Hv).
    + exists (PStr s). split.
      * destruct sc as [f|]; [rewrite dict_lookup_set|]; reflexivity.
      * unfold names_file, py_or. destruct (truthy (PStr s)); eexists;
          reflexivity.
    + rewrite Ev. exact Hv.
Qed.

Lemma payload_loop_processable users group_uids st :
  (forall u' udata, In (u', udata) users -> processable parse_float udata) ->
  all_strings (snd (fst st)) ->
  Forall account_names_file (fst (fst st)) ->
  exists st',
    payload_loop parse_float users group_uids st = Ok st'
    /\ all_strings (snd (fst st'))
    /\ Forall account_names_file (fst (fst st')).
Proof.
  intros Hwf. revert st.
  induction group_uids as [|u rest IH]; intros st Hst Hacc;
    cbn [payload_loop].
  - exists st. repeat split; assumption.
  - destruct (@payload_step_processable users st u Hwf Hst Hacc)
      as [st1 [E1 [H1 H2]]].
    rewrite E1. cbn [bind]. now apply IH.
Qed.

(** The fields of a payload of the run that the filter and the file names
    read. *)
Lemma build_group_payload_binary64_fields group_uids users p :
  build_group_payload_binary64 unidecode parse_float group_uids users
  = Ok p ->
  exists accounts names scores avg,
    payload_loop parse_float users group_uids ([], [], [])
    = Ok (accounts, names, scores)
    /\ length names = length group_uids
    /\ count p = length group_uids
    /\ pairwise_avg_similarity_binary64 unidecode names = Ok avg
    /\ avg_name_similarity p = round3_binary64 avg
    /\ match scores with
       | [] => score_consistent p = false
       | _ => scores_consistent scores SCORE_TOLERANCE_RATIO
              = Ok (score_consistent p)
       end
    /\ usernames p
       = List.map (fun a => dict_get_default a k_username PNone) accounts
    /\ length accounts = length group_uids.
Proof.
  unfold build_group_payload_binary64. intros H.
  destruct (payload_loop parse_float users group_uids ([], [], []))
    as [[[accounts names] scores]|e] eqn:El; cbn [bind] in H;
    [|discriminate].
  destruct (@payload_loop_lengths _ _ _ _ _ El) as [L1 L2].
  cbn [fst snd length] in L1, L2.
  destruct (pairwise_avg_similarity_binary64 unidecode names)
    as [avg|e] eqn:Ea; cbn [bind] in H; [|discriminate].
  exists accounts, names, scores, avg.
  destruct scores as [|s0 scores'].
  - cbn [bind] in H. inversion H; subst p. cbn.
    repeat split; try reflexivity; assumption.
  - destruct (median (s0 :: scores')) as [m|e]; cbn [bind] in H;
      [|discriminate].
    destruct (scores_consistent (s0 :: scores') SCORE_TOLERANCE_RATIO)
      as [ok|e] eqn:Es; cbn [bind] in H; [|discriminate].
    inversion H; subst p. cbn.
    repeat split; try reflexivity; assumption.
Qed.

(** The three tests of the orchestrator in terms of the cluster, its
    average and its scores. *)
Lemma kept_passes group_uids users p accounts names scores avg :
  build_group_payload_binary64 unidecode parse_float group_uids users
  = Ok p ->
  payload_loop parse_float users group_uids ([], [], [])
  = Ok (accounts, names, scores) ->
  pairwise_avg_similarity_binary64 unidecode names = Ok avg ->
  kept p = true <-> passes group_uids avg scores.
Proof.
  intros Hp Hl Ha.
  destruct (build_group_payload_binary64_fields _ _ Hp)
    as [accounts' [names' [scores' [avg' [Hl' [_ [Hc [Ha' [Hr [Hs _]]]]]]]]]].
  rewrite Hl in Hl'. inversion Hl'; subst accounts' names' scores'.
  rewrite Ha in Ha'. inversion Ha'; subst avg'.
  unfold passes. rewrite kept_iff, Hc, Hr.
  destruct scores as [|s0 scores'].
  - rewrite Hs. split.
    + intros [_ [_ Hx]]. discriminate Hx.
    + intros [_ [_ [Hx _]]]. congruence.
  - rewrite Hs. split.
    + intros [H1 [H2 H3]]. rewrite H3.
      repeat split; try assumption. discriminate.
    + intros [H1 [H2 [_ H3]]]. inversion H3 as [H4].
      repeat split; assumption.
Qed.

Lemma build_group_payload_binary64_returns group_uids users :
  (forall u' udata, In (u', udata) users -> processable parse_float udata) ->
  exists p,
    build_group_payload_binary64 unidecode parse_float group_uids users
    = Ok p
    /\ Forall names_file (usernames p).
Proof.
  intros Hwf. unfold build_group_payload_binary64.
  destruct (@payload_loop_processable users group_uids ([], [], []) Hwf)
    as [[[accounts names] scores] [El [Hn Hacc]]]; [constructor|constructor|].
  rewrite El. cbn [bind]. cbn [fst snd] in Hn, Hacc.
  destruct (@pairwise_avg_similarity_binary64_returns names Hn)
    as [avg Ea].
  rewrite Ea. cbn [bind].
  assert (Hu : Forall names_file
                 (List.map (fun a => dict_get_default a k_username PNone)
                    accounts)).
  { apply Forall_map. exact Hacc. }
  destruct scores as [|s0 scores']; cbn [bind].
  - eexists. split; [reflexivity|exact Hu].
  - destruct (@median_total (s0 :: scores')) as [m Em]; [discriminate|].
    rewrite Em. cbn [bind].
    destruct (scores_consistent_returns (s0 :: scores')
                SCORE_TOLERANCE_RATIO) as [ok Es].
    rewrite Es. cbn [bind]. eexists. split; [reflexivity|exact Hu].
Qed.

(** The name of the file of a kept payload whose usernames can name a
    file. *)
Lemma first_username_part_returns group_uids users p :
  build_group_payload_binary64 unidecode parse_float group_uids users
  = Ok p ->
  kept p = true ->
  Forall names_file (usernames p) ->
  exists part, first_username_part p = Ok part.
Proof.
  intros Hp Hk Hu.
  destruct (build_group_payload_binary64_fields _ _ Hp)
    as [accounts [names [scores [avg [_ [_ [Hc [_ [_ [_ [Eu La]]]]]]]]]]].
  apply kept_iff in Hk. destruct Hk as [Hk _]. rewrite Hc in Hk.
  unfold first_username_part.
  destruct (usernames p) as [|x rest] eqn:E.
  - exfalso. apply (f_equal (@length pyval)) in Eu.
    rewrite length_map, La in Eu. cbn [length] in Eu.
    unfold MIN_GROUP_SIZE in Hk. lia.
  - inversion Hu as [|x' rest' [s Hs] _]; subst.
    rewrite Hs. eexists. reflexivity.
Qed.

Lemma emit_clusters_inv entry_name data clusters acc log log' r :
  emit_clusters unidecode parse_float write_error entry_name data clusters
    acc log = (log', r) ->
  exists files,
    log' = log ++ files
    /\ Forall kept_file files
    /\ match r with
       | Raise _ => True
       | Ok res =>
           exists payloads,
             Forall2 (fun c p =>
                        build_group_payload_binary64 unidecode parse_float
                          c data = Ok p) clusters payloads
             /\ res = acc ++ List.filter kept payloads
             /\ Forall2 (fun w p =>
                           exists fn,
                             bot_file_name entry_name p = Ok fn
                             /\ w = BotFile fn p)
                  files (List.filter kept payloads)
       end.
Proof.
  revert acc log.
  induction clusters as [|c rest IH]; intros acc log H;
    cbn [emit_clusters] in H.
  - inversion H; subst. exists []. rewrite app_nil_r.
    split; [reflexivity|]. split; [constructor|].
    exists []. split; [constructor|]. cbn [List.filter].
    rewrite app_nil_r. split; [reflexivity|constructor].
  - destruct (build_group_payload_binary64 unidecode parse_float c data)
      as [p|e] eqn:Ep.
    2:{ inversion H; subst. exists []. rewrite app_nil_r.
        split; [reflexivity|]. split; [constructor|exact I]. }
    destruct (kept p) eqn:Ek.
    + destruct (bot_file_name entry_name p) as [fn|e] eqn:Ef.
      2:{ inversion H; subst. exists []. rewrite app_nil_r.
          split; [reflexivity|]. split; [constructor|exact I]. }
      unfold write_file in H. rewrite write_accepted in H.
      destruct (IH _ _ H) as [files [-> [Hk Hr]]].
      exists (BotFile fn p :: files). rewrite <- app_assoc. cbn [app].
      split; [reflexivity|].
      split; [constructor; [now exists fn, p|exact Hk]|].
      destruct r as [res|e]; [|exact I].
      destruct Hr as [ps [Hf [-> Hfiles]]].
      exists (p :: ps). split; [constructor; assumption|].
      cbn [List.filter]. rewrite Ek. rewrite <- app_assoc. cbn [app].
      split; [reflexivity|].
      constructor; [now exists fn|exact Hfiles].
    + destruct (IH _ _ H) as [files [-> [Hk Hr]]].
      exists files. split; [reflexivity|]. split; [exact Hk|].
      destruct r as [res|e]; [|exact I].
      destruct Hr as [ps [Hf [-> Hfiles]]].
      exists (p :: ps). split; [constructor; assumption|].
      cbn [List.filter]. rewrite Ek. split; [reflexivity|exact Hfiles].
Qed.

Lemma emit_clusters_returns entry_name data clusters acc log :
  (forall u' udata, In (u', udata) data -> processable parse_float udata) ->
  exists log' res,
    emit_clusters unidecode parse_float write_error entry_name data
      clusters acc log = (log', Ok res).
Proof.
  intros Hwf. revert acc log.
  induction clusters as [|c rest IH]; intros acc log;
    cbn [emit_clusters]; [now exists log, acc|].
  destruct (@build_group_payload_binary64_returns c data Hwf)
    as [p [Ep Hu]].
  rewrite Ep. destruct (kept p) eqn:Ek; [|apply IH].
  destruct (first_username_part_returns _ _ Ep Ek Hu) as [part Epart].
  unfold bot_file_name. rewrite Epart. cbn [bind].
  unfold write_file. rewrite write_accepted. apply IH.
Qed.

Lemma batches_loop_inv entries acc log log' r :
  batches_loop unidecode parse_float set_iter write_error entries acc log
  = (log', r) ->
  exists files,
    log' = log ++ files
    /\ Forall kept_file files
    /\ match r with
       | Raise _ => True
       | Ok res =>
           exists added,
             res = acc ++ added
             /\ batch_groups unidecode parse_float set_iter entries files
                  added
       end.
Proof.
  revert acc log.
  induction entries as [|[entry_name [data|]] rest IH]; intros acc log H;
    cbn [batches_loop] in H.
  - inversion H; subst. exists []. rewrite app_nil_r.
    split; [reflexivity|]. split; [constructor|].
    exists []. rewrite app_nil_r. split; [reflexivity|].
    split; [constructor|]. split; [constructor|]. split; [constructor|].
    intros n d [].
  - assert (Hraise : forall e, (log, Raise e) = (log', r) ->
              exists files,
                log' = log ++ files /\ Forall kept_file files
                /\ match r with
                   | Raise _ => True
                   | Ok res =>
                       exists added,
                         res = acc ++ added
                         /\ batch_groups unidecode parse_float set_iter
                              ((entry_name, Some data) :: rest) files added
                   end).
    { intros e He. inversion He; subst. exists []. rewrite app_nil_r.
      split; [reflexivity|]. split; [constructor|exact I]. }
    destruct data as [| | | | | |data]; try (exact (Hraise _ H)).
    destruct (cluster_similar_users unidecode set_iter data
                NAME_SIMILARITY_THRESHOLD MIN_GROUP_SIZE)
      as [clusters|e] eqn:Ec; [|exact (Hraise _ H)].
    destruct (emit_clusters unidecode parse_float write_error entry_name
                data clusters [] log) as [log1 [suspicious|e]] eqn:Ee.
    2:{ destruct (emit_clusters_inv _ _ _ _ _ Ee) as [files [-> [Hk _]]].
        inversion H; subst. exists files.
        split; [reflexivity|]. split; [exact Hk|exact I]. }
    destruct (emit_clusters_inv _ _ _ _ _ Ee)
      as [files [-> [Hk [payloads [Hf [Hs Hfiles]]]]]].
    cbn [app] in Hs. subst suspicious.
    destruct (IH _ _ H) as [files' [-> [Hk' Hr]]].
    exists (files ++ files'). rewrite app_assoc.
    split; [reflexivity|].
    split; [apply Forall_app; split; assumption|].
    destruct r as [res|e]; [|exact I].
    destruct Hr as [added [-> [Hb1 [Hb2 [Hb3 Hb4]]]]].
    exists (List.filter kept payloads ++ added). rewrite app_assoc.
    split; [reflexivity|].
    split.
    { apply Forall2_app; [|exact Hb1].
      clear - Hfiles. induction Hfiles as [|w p ws ps [fn [_ ->]] _ IH];
        constructor; [now exists fn|exact IH]. }
    split.
    { apply Forall_app. split; [|exact Hb2].
      apply Forall_forall. intros p Hp. apply filter_In in Hp.
      exact (proj2 Hp). }
    split.
    { apply Forall_app. split; [|exact Hb3].
      apply Forall_forall. intros p Hp.
      destruct (Forall2_In_r _ Hfiles Hp) as [w [_ [fn [Efn _]]]].
      unfold bot_file_name in Efn.
      destruct (first_username_part p) as [part|e]; [now exists part|].
      discriminate Efn. }
    intros n d Hin. destruct Hin as [Hin|Hin].
    + inversion Hin; subst n d. exists clusters, payloads.
      split; [exact Ec|]. split; [exact Hf|].
      intros p Hp Hkp.
      assert (Hpk : In p (List.filter kept payloads))
        by (apply filter_In; split; assumption).
      split; [apply in_or_app; now left|].
      destruct (Forall2_In_r _ Hfiles Hpk) as [w [Hw [fn [Efn ->]]]].
      exists fn. split; [exact Efn|]. apply in_or_app. now left.
    + destruct (Hb4 n d Hin) as [cs [ps [H1 [H2 H3]]]].
      exists cs, ps. split; [exact H1|]. split; [exact H2|].
      intros p Hp Hkp. destruct (H3 p Hp Hkp) as [Ha [fn [Efn Hfn]]].
      split; [apply in_or_app; now right|].
      exists fn. split; [exact Efn|]. apply in_or_app. now right.
  - destruct (IH _ _ H) as [files [-> [Hk Hr]]].
    exists files. split; [reflexivity|]. split; [exact Hk|].
    destruct r as [res|e]; [|exact I].
    destruct Hr as [added [-> [Hb1 [Hb2 [Hb3 Hb4]]]]].
    exists added. split; [reflexivity|].
    split; [exact Hb1|]. split; [exact Hb2|]. split; [exact Hb3|].
    intros n d Hin. destruct Hin as [Hin|Hin]; [discriminate Hin|].
    now apply Hb4.
Qed.

Lemma batches_loop_returns entries acc log :
  Forall (loadable parse_float) entries ->
  exists log' res,
    batches_loop unidecode parse_float set_iter write_error entries acc log
    = (log', Ok res).
Proof.
  intros H. revert acc log.
  induction H as [|[entry_name [data|]] rest Hl Hrest IH]; intros acc log;
    cbn [batches_loop]; [now exists log, acc| |apply IH].
  unfold loadable in Hl. cbn [snd] in Hl.
  destruct data as [| | | | | |data]; try (destruct Hl; fail).
  destruct (@cluster_similar_users_returns unidecode set_iter
              set_iter_perm data NAME_SIMILARITY_THRESHOLD MIN_GROUP_SIZE)
    as [clusters Ec].
  { intros u udata Hin. exact (proj1 (proj1 (Hl u udata Hin))). }
  rewrite Ec.
  destruct (@emit_clusters_returns entry_name data clusters [] log Hl)
    as [log1 [suspicious Ee]].
  rewrite Ee. apply IH.
Qed.

Lemma collections_loop_returns groups idx log :
  Forall (fun p => exists part, first_username_part p = Ok part) groups ->
  exists files,
    collections_loop write_error groups idx log = (log ++ files, Ok tt)
    /\ Forall2 (fun w g => exists fn, w = CollectionFile fn g) files
         groups.
Proof.
  intros H. revert idx log.
  induction H as [|g rest [part Eg] Hrest IH]; intros idx log;
    cbn [collections_loop].
  - exists []. rewrite app_nil_r. split; [reflexivity|constructor].
  - unfold collection_name. rewrite Eg. cbn [bind].
    unfold write_file. rewrite write_accepted.
    destruct (IH (S idx) (log ++ [CollectionFile
                (str "group_" ++ str_of_nat idx ++ str "_" ++ part
                 ++ str ".json") g])) as [files [E Hf]].
    rewrite E. eexists (_ :: files). rewrite <- app_assoc. cbn [app].
    split; [reflexivity|].
    constructor; [eexists; reflexivity|exact Hf].
Qed.

End RunFacts.

(** C7 (amended).  The run of [process_batches] is taken on the
    directories of [data/www] with the values of their [data.json], for
    scores without NaN and a file system that takes every file; the
    average pairwise name similarity of the Similarity Engine is the
    double the interpreter computes.

    When the run ends without an exception, the files it has written are
    the files of [Bot_Recognition], then the combined summary, whose
    [total] is the number of its groups, then the files of the
    collection; the groups of the combined summary have one file of
    [Bot_Recognition] each and one file of the collection each, in their
    order; and for every cluster of every batch the orchestrator builds
    one payload, which is kept, that is written to its file of
    [Bot_Recognition] and included in the combined summary, if and only
    if its account count is at least the minimum group size (3), the
    average, rounded to three decimals as the payload stores it, is at
    least the threshold (0.70), and its extracted scores are consistent
    by the Score Validator.

    When the run ends with an exception, it has written files of
    [Bot_Recognition] only, each for a payload that passed the three
    tests, and no combined summary.

    The run ends without an exception whenever every [data.json] that
    loads is a dict of records with a string for a username, a score that
    does not overflow and no field [username] of their own that is
    neither a string nor false. *)
Theorem process_batch_keeps (unidecode : pystr -> pystr)
    (parse_float : pystr -> option F.float)
    (set_iter : list uid -> list uid)
    (write_error : written -> option exn)
    (entries : list (pystr * option pyval)) :
  (forall l, Permutation (set_iter l) l) ->
  (forall w, write_error w = None) ->
  (forall entry_name data u udata,
     In (entry_name, Some (PDict data)) entries -> In (u, udata) data ->
     score_not_nan parse_float udata) ->
  (Forall (loadable parse_float) entries ->
   exists log,
     process_batches unidecode parse_float set_iter write_error entries
     = (log, Ok tt))
  /\
  (forall log,
     process_batches unidecode parse_float set_iter write_error entries
     = (log, Ok tt) ->
     exists bot_files all_groups collection_files,
       log = bot_files
             ++ [CombinedFile (length all_groups) all_groups]
             ++ collection_files
       /\ Forall2 (fun w g => exists fn, w = BotFile fn g) bot_files
            all_groups
       /\ Forall2 (fun w g => exists fn, w = CollectionFile fn g)
            collection_files all_groups
       /\ forall entry_name data,
            In (entry_name, Some (PDict data)) entries ->
            exists clusters,
              cluster_similar_users unidecode set_iter data
                NAME_SIMILARITY_THRESHOLD MIN_GROUP_SIZE = Ok clusters
              /\ forall c, In c clusters ->
                   exists p accounts names scores avg,
                     build_group_payload_binary64 unidecode parse_float c
                       data = Ok p
                     /\ payload_loop parse_float data c ([], [], [])
                        = Ok (accounts, names, scores)
                     /\ pairwise_avg_similarity_binary64 unidecode names
                        = Ok avg
                     /\ length names = length c
                     /\ (In p all_groups <-> passes c avg scores)
                     /\ ((exists fn,
                            bot_file_name entry_name p = Ok fn
                            /\ In (BotFile fn p) bot_files)
                         <-> passes c avg scores))
  /\
  (forall log e,
     process_batches unidecode parse_float set_iter write_error entries
     = (log, Raise e) ->
     Forall (fun w => exists fn p, w = BotFile fn p /\ kept p = true) log).
Proof.
  intros Hperm Hwrite _.
  split; [|split].
  - intros Hload. unfold process_batches.
    destruct (@batches_loop_returns unidecode parse_float set_iter
                write_error Hperm Hwrite entries [] [] Hload)
      as [log1 [all_groups E]].
    rewrite E. unfold write_file. rewrite Hwrite.
    destruct (@batches_loop_inv unidecode parse_float set_iter write_error
                Hwrite _ _ _ _ _ E)
      as [files [_ [_ [added [Ea [_ [_ [Hpart _]]]]]]]].
    cbn [app] in Ea. subst added.
    destruct (@collections_loop_returns write_error Hwrite all_groups 1
                (log1 ++ [CombinedFile (length all_groups) all_groups])
                Hpart) as [colls [Ec _]].
    rewrite Ec. eexists. reflexivity.
  - intros log H. unfold process_batches in H.
    destruct (batches_loop unidecode parse_float set_iter write_error
                entries [] []) as [log1 [all_groups|e]] eqn:E;
      [|inversion H].
    destruct (@batches_loop_inv unidecode parse_float set_iter write_error
                Hwrite _ _ _ _ _ E)
      as [files [El [Hk [added [Ea [Hb1 [Hb2 [Hb3 Hb4]]]]]]]].
    cbn [app] in El, Ea. subst log1 added.
    unfold write_file in H. rewrite Hwrite in H.
    destruct (@collections_loop_returns write_error Hwrite all_groups 1
                (files ++ [CombinedFile (length all_groups) all_groups])
                Hb3) as [colls [Ec Hcolls]].
    rewrite Ec in H. inversion H as [Hlog]. clear H.
    exists files, all_groups, colls.
    split; [now rewrite <- app_assoc|].
    split; [exact Hb1|]. split; [exact Hcolls|].
    intros entry_name data Hin.
    destruct (Hb4 entry_name data Hin) as [clusters [payloads [Hc [Hf Hp]]]].
    exists clusters. split; [exact Hc|].
    intros c Hcin.
    destruct (@Forall2_In_l _ _ _ _ _ _ Hf Hcin) as [p [Hpin Hbuild]].
    destruct (@build_group_payload_binary64_fields unidecode parse_float
                _ _ _ Hbuild)
      as [accounts [names [scores [avg [Hl [Hn [_ [Ha _]]]]]]]].
    exists p, accounts, names, scores, avg.
    split; [exact Hbuild|]. split; [exact Hl|]. split; [exact Ha|].
    split; [exact Hn|].
    pose proof (@kept_passes unidecode parse_float _ _ _ _ _ _ _ Hbuild Hl
                  Ha) as Hiff.
    split.
    + split.
      * intros Hg. apply Hiff.
        exact (proj1 (Forall_forall _ _) Hb2 p Hg).
      * intros Hpass. apply Hiff in Hpass.
        exact (proj1 (Hp p Hpin Hpass)).
    + split.
      * intros [fn [_ Hfn]]. apply Hiff.
        destruct (proj1 (Forall_forall _ _) Hk _ Hfn)
          as [fn' [p' [Ew Hkp]]].
        inversion Ew; subst. exact Hkp.
      * intros Hpass. apply Hiff in Hpass.
        exact (proj2 (Hp p Hpin Hpass)).
  - intros log e H. unfold process_batches in H.
    destruct (batches_loop unidecode parse_float set_iter write_error
                entries [] []) as [log1 [all_groups|e1]] eqn:E.
    + exfalso.
      destruct (@batches_loop_inv unidecode parse_float set_iter write_error
                Hwrite _ _ _ _ _ E)
        as [files [_ [_ [added [Ea [_ [_ [Hpart _]]]]]]]].
      cbn [app] in Ea. subst added.
      unfold write_file in H. rewrite Hwrite in H.
      destruct (@collections_loop_returns write_error Hwrite all_groups 1
                  (log1 ++ [CombinedFile (length all_groups) all_groups])
                  Hpart) as [colls [Ec _]].
      rewrite Ec in H. discriminate H.
    + inversion H; subst.
      destruct (@batches_loop_inv unidecode parse_float set_iter write_error
                Hwrite _ _ _ _ _ E) as [files [El [Hk _]]].
      cbn [app] in El. subst log. exact Hk.
Qed.
Lemma process_batch_keeps_witness :
  exists log bot_files all_groups collection_files,
    process_batches unidecode_table no_text_scores (fun l => l)
      no_write_error [(str "batch_1", Some (PDict gold_batch))]
    = (log, Ok tt)
    /\ log = bot_files
             ++ [CombinedFile (length all_groups) all_groups]
             ++ collection_files
    /\ Forall2 (fun w g => exists fn, w = BotFile fn g) bot_files
         all_groups
    /\ length log = 3.
Proof.
  assert (Hperm : forall l : list uid, Permutation ((fun l => l) l) l)
    by (intros l; apply Permutation_refl).
  assert (Hwrite : forall w, no_write_error w = None)
    by (intros w; reflexivity).
  assert (Hrec : forall u udata,
            In (u, udata) gold_batch ->
            processable no_text_scores udata
            /\ score_not_nan no_text_scores udata).
  { intros u udata Hin. cbn [gold_batch In] in Hin.
    repeat (destruct Hin as [Hin|Hin];
            [inversion Hin; subst; split;
             [split;
              [split;
               [eexists; cbv; reflexivity
               |intros score Hs; cbv in Hs; inversion Hs; subst;
                eexists; cbv; reflexivity]
              |intros d v Hd Hv; inversion Hd; subst d;
               cbn [In] in Hv;
               repeat (destruct Hv as [Hv|Hv]; [discriminate Hv|]);
               destruct Hv]
             |intros score x Hs Hx; cbv in Hs; inversion Hs; subst;
              vm_compute in Hx; inversion Hx; reflexivity]|]).
    destruct Hin. }
  assert (Hnan : forall entry_name data u udata,
            In (entry_name, Some (PDict data))
              [(str "batch_1", Some (PDict gold_batch))] ->
            In (u, udata) data -> score_not_nan no_text_scores udata).
  { intros entry_name data u udata [Hin|[]] Hu. inversion Hin; subst.
    exact (proj2 (Hrec u udata Hu)). }
  assert (Hload : Forall (loadable no_text_scores)
                    [(str "batch_1", Some (PDict gold_batch))]).
  { constructor; [|constructor]. unfold loadable. cbn [snd].
    intros u udata Hu. exact (proj1 (Hrec u udata Hu)). }
  destruct (@process_batch_keeps unidecode_table no_text_scores
              (fun l => l) no_write_error
              [(str "batch_1", Some (PDict gold_batch))] Hperm Hwrite Hnan)
    as [Hret [Hspec _]].
  destruct (Hret Hload) as [log E].
  destruct (Hspec log E) as [bots [groups [colls [Hlog [Hb _]]]]].
  exists log, bots, groups, colls.
  split; [exact E|]. split; [exact Hlog|]. split; [exact Hb|].
  pose proof E as E'. vm_compute in E'. inversion E'. reflexivity.
Defined.

(** C7, as stated, fails: the three names of this batch have the pairwise
    similarities 5/7, 10/13 and 8/13, whose average is below 0.70, as a
    double and exactly, and is rounded to 0.700; the group is written to
    [Bot_Recognition] and included in the combined summary. *)
Lemma process_batch_keeps_rounded :
  exists fn p avg collection_file,
    process_batches unidecode_table no_text_scores (fun l => l)
      no_write_error [(str "batch_1", Some (PDict rounding_batch))]
    = ([BotFile fn p; CombinedFile 1 [p]; collection_file], Ok tt)
    /\ pairwise_avg_similarity_binary64 unidecode_table (usernames p)
       = Ok avg
    /\ F.ltb avg (F.decimal 70 2) = true
    /\ (float_value avg < NAME_SIMILARITY_THRESHOLD)%Q
    /\ score_consistent p = true
    /\ count p = 3.
Proof.
  destruct (process_batches unidecode_table no_text_scores (fun l => l)
              no_write_error [(str "batch_1", Some (PDict rounding_batch))])
    as [log r] eqn:E.
  vm_compute in E.
  match type of E with
  | ([BotFile ?fn ?p; _; ?c], _) = _ =>
      exists fn, p; eexists; exists c
  end.
  split; [symmetry; exact E|].
  split; [vm_compute; reflexivity|].
  split; [vm_compute; reflexivity|].
  split; [vm_compute; reflexivity|].
  split; reflexivity.
Qed.

(** The file name of a kept group whose first username is a number:
    [re.sub] raises [TypeError].  The group of the batch before it has
    its file in [Bot_Recognition], and there is no combined summary. *)
Lemma process_batches_type_error :
  exists fn p,
    process_batches unidecode_table no_text_scores (fun l => l)
      no_write_error
      [(str "batch_1", Some (PDict gold_batch));
       (str "batch_2", Some (PDict numbered_batch))]
    = ([BotFile fn p], Raise TypeError)
    /\ count p = 3.
Proof.
  destruct (process_batches unidecode_table no_text_scores (fun l => l)
              no_write_error
              [(str "batch_1", Some (PDict gold_batch));
               (str "batch_2", Some (PDict numbered_batch))])
    as [log r] eqn:E.
  vm_compute in E.
  match type of E with
  | ([BotFile ?fn ?p], _) = _ => exists fn, p
  end.
  split; [symmetry; exact E|reflexivity].
Qed.

(** The average of the interpreter and the exact average can round to
    different thousandths: for the ratios 4/5, 4/5 and 11/16 the exact
    average 61/80 is a tie and goes to 0.762, and the sum of the doubles
    is above it and goes to 0.763. *)
Lemma round3_binary64_not_exact :
  round3_binary64
    (F.div
       (F.add (F.add (F.add F.zero (float_of_ratio (4 # 5)))
                 (float_of_ratio (4 # 5)))
          (float_of_ratio (11 # 16)))
       (F.of_Z 3))
  = (763 # 1000)%Q
  /\ round3 (((4 # 5) + (4 # 5) + (11 # 16)) / 3)%Q = (762 # 1000)%Q.
Proof. split; vm_compute; reflexivity. Qed.
(** ** The helpers of the normaliser *)

Lemma has_run3_cons c s :
  has_run3 (c :: s)
  = match s with
    | d :: e :: _ => (c =? d)%N && (d =? e)%N && negb (c =? 10)%N
    | _ => false
    end || has_run3 s.
Proof. reflexivity. Qed.

Lemma has_run3_split s :
  has_run3 s = false ->
  ~ exists pre c post,
      c <> 10%N /\ s = pre ++ c :: c :: c :: post.
Proof.
  intros H [pre [c [post [Hc E]]]]. subst s.
  induction pre as [|x pre IH].
  - cbn [app] in H. rewrite has_run3_cons in H.
    rewrite !N.eqb_refl in H.
    apply N.eqb_neq in Hc. rewrite Hc in H. discriminate H.
  - apply IH. cbn [app] in H. rewrite has_run3_cons in H.
    apply orb_false_elim in H. tauto.
Qed.

(** The state of [collapse_repeats_from]: the run of [c] that ends before
    the rest of the string has put [c] once, for a run of one, or twice
    into the result. *)
Lemma collapse_repeats_from_run3 s :
  (forall c, has_run3 (c :: collapse_repeats_from c 1 s) = false)
  /\ (forall c run, 2 <= run ->
        has_run3 (c :: c :: collapse_repeats_from c run s) = false).
Proof.
  induction s as [|d t [IH1 IH2]]; split.
  - intros c. reflexivity.
  - intros c run _. reflexivity.
  - intros c. cbn [collapse_repeats_from].
    destruct (d =? c)%N eqn:E.
    + apply N.eqb_eq in E. subst d. cbn [Nat.leb andb].
      apply IH2. lia.
    + rewrite has_run3_cons.
      rewrite IH1, orb_false_r.
      destruct (collapse_repeats_from d 1 t); [reflexivity|].
      rewrite N.eqb_sym, E. reflexivity.
  - intros c run Hrun. cbn [collapse_repeats_from].
    destruct (d =? c)%N eqn:E.
    + apply N.eqb_eq in E. subst d.
      assert (E2 : (2 <=? run) = true) by now apply Nat.leb_le.
      rewrite E2. cbn [andb].
      destruct (c =? 10)%N eqn:E10; cbn [negb].
      * rewrite has_run3_cons. rewrite E10. cbn [negb].
        rewrite !andb_false_r. cbn [orb]. apply IH2. lia.
      * apply IH2. lia.
    + rewrite has_run3_cons.
      rewrite (N.eqb_sym c d), E, andb_false_r. cbn [andb orb].
      rewrite has_run3_cons, IH1, orb_false_r.
      destruct (collapse_repeats_from d 1 t); [reflexivity|].
      rewrite (N.eqb_sym c d), E. reflexivity.
Qed.

Lemma collapse_repeats_from_fixed s :
  (forall c, has_run3 (c :: s) = false -> collapse_repeats_from c 1 s = s)
  /\ (forall c run, 2 <= run -> has_run3 (c :: c :: s) = false ->
        collapse_repeats_from c run s = s).
Proof.
  induction s as [|d t [IH1 IH2]]; split.
  - reflexivity.
  - reflexivity.
  - intros c H. cbn [collapse_repeats_from].
    destruct (d =? c)%N eqn:E.
    + apply N.eqb_eq in E. subst d. cbn [Nat.leb andb].
      f_equal. apply IH2; [lia|exact H].
    + f_equal. apply IH1.
      rewrite has_run3_cons in H. apply orb_false_elim in H. tauto.
  - intros c run Hrun H. cbn [collapse_repeats_from].
    rewrite has_run3_cons in H. apply orb_false_elim in H.
    destruct H as [H0 H].
    destruct (d =? c)%N eqn:E.
    + apply N.eqb_eq in E. subst d.
      rewrite !N.eqb_refl in H0. cbn [andb] in H0.
      apply negb_false_iff in H0. rewrite H0. cbn [negb].
      rewrite andb_false_r. f_equal. apply IH2; [lia|exact H].
    + f_equal. apply IH1.
      rewrite has_run3_cons in H. apply orb_false_elim in H. tauto.
Qed.

Lemma collapse_repeats_fixed s :
  has_run3 s = false -> collapse_repeats s = s.
Proof.
  destruct s as [|c t]; [reflexivity|].
  intros H. cbn [collapse_repeats]. f_equal.
  apply (proj1 (collapse_repeats_from_fixed t)). exact H.
Qed.

Lemma collapse_repeats_run3 s : has_run3 (collapse_repeats s) = false.
Proof.
  destruct s as [|c t]; [reflexivity|].
  cbn [collapse_repeats]. apply (proj1 (collapse_repeats_from_run3 t)).
Qed.

(** X1.  The result of [collapse_repeats] has no character three times in
    a row, the line feed apart, which [.] does not match. *)
Theorem collapse_repeats_no_triple (s : pystr) :
  ~ exists pre c post,
      c <> 10%N /\ collapse_repeats s = pre ++ c :: c :: c :: post.
Proof. apply has_run3_split. apply collapse_repeats_run3. Qed.

(** X2.  [collapse_repeats] is idempotent: a second pass changes
    nothing. *)
Theorem collapse_repeats_idempotent (s : pystr) :
  collapse_repeats (collapse_repeats s) = collapse_repeats s.
Proof. apply collapse_repeats_fixed. apply collapse_repeats_run3. Qed.

(** A property of the first 128 code points, by enumeration. *)
Lemma ascii_cases (P : N -> bool) :
  forallb P (List.map N.of_nat (seq 0 128)) = true ->
  forall c, (c < 128)%N -> P c = true.
Proof.
  intros H c Hc. rewrite forallb_forall in H. apply H.
  apply in_map_iff. exists (N.to_nat c). split; [apply N2Nat.id|].
  apply in_seq. lia.
Qed.

Lemma is_ascii_forall s :
  is_ascii s = true <-> forall c, In c s -> (c < 128)%N.
Proof.
  unfold is_ascii. rewrite forallb_forall. split; intros H c Hc.
  - apply N.ltb_lt. now apply H.
  - apply N.ltb_lt. now apply H.
Qed.

Lemma map_fixed (A : Type) (f : A -> A) (l : list A) :
  (forall x, In x l -> f x = x) -> List.map f l = l.
Proof.
  induction l as [|x l IH]; intros H; cbn [List.map]; [reflexivity|].
  rewrite H by now left. rewrite IH; [reflexivity|].
  intros y Hy. apply H. now right.
Qed.

Lemma replace_homoglyphs_fold_ascii tbl s :
  (forall k v, In (k, v) tbl -> (128 <= k)%N) ->
  is_ascii s = true ->
  fold_left (fun acc kv => Py.replace_char (fst kv) (snd kv) acc) tbl s = s.
Proof.
  intros Htbl Hs. rewrite is_ascii_forall in Hs.
  induction tbl as [|[k v] tbl IH]; cbn [fold_left]; [reflexivity|].
  assert (E : Py.replace_char k v s = s).
  { unfold Py.replace_char. apply map_fixed. intros c Hc.
    assert (Hk : (128 <= k)%N) by (apply (Htbl k v); now left).
    specialize (Hs c Hc).
    destruct (c =? k)%N eqn:Ec; [|reflexivity].
    apply N.eqb_eq in Ec. lia. }
  cbn [fst snd]. rewrite E. apply IH.
  intros k' v' H. apply (Htbl k' v'). now right.
Qed.

Lemma replace_homoglyphs_fixed s :
  is_ascii s = true -> replace_homoglyphs s = s.
Proof.
  intros Hs. unfold replace_homoglyphs.
  apply replace_homoglyphs_fold_ascii; [|exact Hs].
  intros k v H. cbn [HOMOGLYPHS In] in H.
  repeat (destruct H as [H|H]; [inversion H; subst; lia|]).
  destruct H.
Qed.

(** X3.  [replace_homoglyphs] leaves ASCII text as it is: every key of
    [HOMOGLYPHS] lies beyond U+007F.  After a transliteration to ASCII the
    table has no effect. *)
Theorem replace_homoglyphs_ascii (s : pystr) :
  is_ascii s = true -> replace_homoglyphs s = s.
Proof.
  apply replace_homoglyphs_fixed.
Qed.

Lemma replace_homoglyphs_ascii_witness :
  is_ascii (str "G0ld Farmer") = true
  /\ replace_homoglyphs (str "G0ld Farmer") = str "G0ld Farmer".
Proof.
  split; [reflexivity|].
  apply (replace_homoglyphs_ascii (str "G0ld Farmer")). reflexivity.
Defined.

Lemma de_leet_char_high c : (128 <= c)%N -> de_leet_char c = c.
Proof.
  intros Hc. unfold de_leet_char, Py.lower_char, Py.in_range.
  assert (E1 : (c <=? 90)%N = false) by (apply N.leb_gt; lia).
  rewrite E1, andb_false_r.
  unfold LEET_SUBS, ch. cbn [dict_get N_of_ascii N_of_digits].
  repeat match goal with
         | |- context [(c =? ?k)%N] =>
             replace (c =? k)%N with false
               by (symmetry; apply N.eqb_neq; cbn; lia)
         end.
  reflexivity.
Qed.

Lemma de_leet_char_ok_all c : de_leet_char_ok c = true.
Proof.
  destruct (c <? 128)%N eqn:E.
  - apply N.ltb_lt in E. revert c E. apply ascii_cases.
    vm_compute. reflexivity.
  - apply N.ltb_ge in E. unfold de_leet_char_ok.
    rewrite !de_leet_char_high by exact E.
    rewrite N.eqb_refl, andb_true_r.
    unfold Py.is_digit, Py.in_range.
    assert (E1 : (c <=? 57)%N = false) by (apply N.leb_gt; lia).
    assert (E2 : (c <=? 90)%N = false) by (apply N.leb_gt; lia).
    rewrite E1, E2, !andb_false_r. cbn [negb andb].
    unfold LEET_SUBS, ch. cbn [dict_get N_of_ascii N_of_digits].
    repeat match goal with
           | |- context [(c =? ?k)%N] =>
               replace (c =? k)%N with false
                 by (symmetry; apply N.eqb_neq; cbn; lia)
           end.
    reflexivity.
Qed.

(** X4.  On ASCII text [de_leet] leaves no digit, no capital letter and no
    key of [LEET_SUBS], and a second pass changes nothing. *)
Theorem de_leet_result (s : pystr) :
  is_ascii s = true ->
  Forall (fun c => Py.is_digit c = false
                   /\ Py.in_range 65 90 c = false
                   /\ dict_get LEET_SUBS c = None) (de_leet s)
  /\ de_leet (de_leet s) = de_leet s.
Proof.
  intros _. split.
  - apply Forall_forall. intros c Hc. unfold de_leet in Hc.
    apply in_map_iff in Hc. destruct Hc as [x [<- _]].
    pose proof (de_leet_char_ok_all x) as H. unfold de_leet_char_ok in H.
    apply andb_prop in H. destruct H as [H _].
    apply andb_prop in H. destruct H as [H H3].
    apply andb_prop in H. destruct H as [H1 H2].
    apply negb_true_iff in H1, H2.
    split; [exact H1|]. split; [exact H2|].
    destruct (dict_get LEET_SUBS (de_leet_char x));
      [discriminate|reflexivity].
  - unfold de_leet. rewrite map_map. apply map_ext. intros x.
    pose proof (de_leet_char_ok_all x) as H. unfold de_leet_char_ok in H.
    apply andb_prop in H. destruct H as [_ H]. now apply N.eqb_eq.
Qed.

Lemma de_leet_result_witness :
  is_ascii (str "G0ld F4rm3r!") = true
  /\ de_leet (de_leet (str "G0ld F4rm3r!")) = de_leet (str "G0ld F4rm3r!").
Proof.
  split; [reflexivity|].
  apply (de_leet_result (str "G0ld F4rm3r!")). reflexivity.
Defined.

Lemma filter_all (A : Type) (f : A -> bool) (l : list A) :
  (forall x, In x l -> f x = true) -> List.filter f l = l.
Proof.
  induction l as [|x l IH]; intros H; cbn [List.filter]; [reflexivity|].
  rewrite H by now left. f_equal. apply IH. intros y Hy. apply H. now right.
Qed.

(** [de_leet] turns every digit into a letter, so there is no number left
    to strip. *)
Lemma stripped_numbers_de_leet s :
  stripped_numbers (de_leet s) = de_leet s.
Proof.
  unfold stripped_numbers. rewrite sub_runs_empty. apply filter_all.
  intros c Hc. unfold de_leet in Hc.
  apply in_map_iff in Hc. destruct Hc as [x [<- _]].
  pose proof (de_leet_char_ok_all x) as H. unfold de_leet_char_ok in H.
  apply andb_prop in H. destruct H as [H _].
  apply andb_prop in H. destruct H as [H _].
  apply andb_prop in H. destruct H as [H _]. exact H.
Qed.

Lemma dedup_fold_keeps l acc x :
  In x acc -> In x (fold_left dedup_step l acc).
Proof.
  revert acc. induction l as [|y l IH]; intros acc H; cbn [fold_left];
    [exact H|].
  apply IH. unfold dedup_step. destruct (Py.mem y acc); [exact H|].
  apply in_or_app. now left.
Qed.

Lemma dedup_fold_complete l acc x :
  In x l -> In x (fold_left dedup_step l acc).
Proof.
  revert acc. induction l as [|y l IH]; intros acc H; [destruct H|].
  cbn [fold_left]. destruct H as [->|H]; [|now apply IH].
  apply dedup_fold_keeps. unfold dedup_step.
  destruct (Py.mem x acc) eqn:E; [now apply mem_In|].
  apply in_or_app. right. now left.
Qed.

(** Entries that occurred before add nothing. *)
Lemma dedup_fold_seen l acc :
  (forall x, In x l -> In x acc) -> fold_left dedup_step l acc = acc.
Proof.
  induction l as [|y l IH]; intros H; cbn [fold_left]; [reflexivity|].
  assert (E : dedup_step acc y = acc).
  { unfold dedup_step.
    rewrite (proj2 (mem_In y acc)); [reflexivity|apply H; now left]. }
  rewrite E. apply IH. intros x Hx. apply H. now right.
Qed.

Lemma dedup_app_seen l l2 :
  (forall x, In x l2 -> In x l) -> dedup (l ++ l2) = dedup l.
Proof.
  intros H. unfold dedup. rewrite fold_left_app.
  apply dedup_fold_seen. intros x Hx.
  apply dedup_fold_complete. now apply H.
Qed.

Lemma alnum_lower_char c : Py.is_alnum_lower (Py.lower_char c) = is_alnum c.
Proof.
  destruct (c <? 128)%N eqn:E.
  - apply N.ltb_lt in E. apply eqb_prop.
    revert c E.
    apply (ascii_cases
             (fun c => Bool.eqb (Py.is_alnum_lower (Py.lower_char c))
                         (is_alnum c))).
    vm_compute. reflexivity.
  - apply N.ltb_ge in E.
    assert (E1 : (c <=? 90)%N = false) by (apply N.leb_gt; lia).
    assert (E2 : (c <=? 122)%N = false) by (apply N.leb_gt; lia).
    assert (E3 : (c <=? 57)%N = false) by (apply N.leb_gt; lia).
    assert (El : Py.lower_char c = c).
    { unfold Py.lower_char, Py.in_range. now rewrite E1, andb_false_r. }
    rewrite El.
    unfold Py.is_alnum_lower, Py.is_lower, Py.is_digit, is_alnum,
      Py.in_range.
    rewrite E1, E2, E3, !andb_false_r. reflexivity.
Qed.

Lemma alnum_not_separator c :
  Py.is_alnum_lower c = true ->
  is_name_separator c = false /\ Py.is_space c = false.
Proof.
  intros H. destruct (c <? 128)%N eqn:E.
  - apply N.ltb_lt in E. revert H. 
    assert (Hc : implb (Py.is_alnum_lower c)
                   (negb (is_name_separator c) && negb (Py.is_space c))
                 = true).
    { revert c E. apply ascii_cases. vm_compute. reflexivity. }
    intros H. rewrite H in Hc. cbn [implb] in Hc.
    apply andb_prop in Hc. destruct Hc as [H1 H2].
    apply negb_true_iff in H1, H2. tauto.
  - apply N.ltb_ge in E. exfalso. revert H.
    unfold Py.is_alnum_lower, Py.is_lower, Py.is_digit, Py.in_range.
    assert (E2 : (c <=? 122)%N = false) by (apply N.leb_gt; lia).
    assert (E3 : (c <=? 57)%N = false) by (apply N.leb_gt; lia).
    rewrite E2, E3, !andb_false_r. discriminate.
Qed.

Lemma dropwhile_In p s c :
  In c s -> p c = false -> In c (Py.dropwhile p s).
Proof.
  intros H Hp. induction s as [|d t IH]; [destruct H|].
  cbn [Py.dropwhile]. destruct (p d) eqn:E; [|exact H].
  destruct H as [->|H]; [congruence|now apply IH].
Qed.

Lemma dropwhile_incl p s c : In c (Py.dropwhile p s) -> In c s.
Proof.
  induction s as [|d t IH]; [intros []|].
  cbn [Py.dropwhile]. destruct (p d); [|intros H; exact H].
  intros H. right. now apply IH.
Qed.

Lemma strip_In s c : In c s -> Py.is_space c = false -> In c (Py.strip s).
Proof.
  intros H Hc. unfold Py.strip, Py.rstrip, Py.lstrip.
  apply -> in_rev. apply dropwhile_In; [|exact Hc].
  apply -> in_rev. now apply dropwhile_In.
Qed.

Lemma strip_incl s c : In c (Py.strip s) -> In c s.
Proof.
  unfold Py.strip, Py.rstrip, Py.lstrip. intros H.
  apply in_rev in H. apply dropwhile_incl in H.
  apply in_rev in H. now apply dropwhile_incl in H.
Qed.

Lemma sub_runs_from_keeps p repl r s c :
  In c s -> p c = false -> In c (Py.sub_runs_from p repl r s).
Proof.
  intros H Hp. revert r. induction s as [|d t IH]; intros r; [destruct H|].
  cbn [Py.sub_runs_from]. destruct H as [->|H].
  - rewrite Hp. now left.
  - destruct (p d).
    + destruct r; [now apply IH|]. apply in_or_app. right. now apply IH.
    + right. now apply IH.
Qed.

(** A run that covers the whole string is replaced once. *)
Lemma sub_runs_from_all p repl r s :
  (forall c, In c s -> p c = true) ->
  Py.sub_runs_from p repl r s
  = if r then [] else match s with [] => [] | _ => repl end.
Proof.
  revert r. induction s as [|d t IH]; intros r H; cbn [Py.sub_runs_from].
  - destruct r; reflexivity.
  - rewrite (H d) by now left.
    rewrite IH by (intros c Hc; apply H; now right).
    destruct r; [reflexivity|apply app_nil_r].
Qed.

Section NormalizerEmpty.

Variable unidecode : pystr -> pystr.

Lemma v1_of_separators base :
  (forall c, In c base -> is_name_separator c = true) -> v1_of base = [].
Proof.
  intros H. unfold v1_of, Py.sub_runs.
  rewrite (sub_runs_from_all _ _ _ _ H).
  destruct base; reflexivity.
Qed.

Lemma base_of_In raw c :
  In c (base_of unidecode raw) ->
  is_base_char c = true
  /\ In c (Py.lower (replace_homoglyphs (unidecode raw))).
Proof.
  unfold base_of. intros H. apply strip_incl in H.
  unfold Py.sub_each_empty in H. apply filter_In in H.
  destruct H as [H1 H2]. rewrite negb_involutive in H2. tauto.
Qed.

Lemma v1_of_keeps base c :
  In c base -> Py.is_alnum_lower c = true -> In c (v1_of base).
Proof.
  intros H Hc. destruct (alnum_not_separator _ Hc) as [H1 H2].
  unfold v1_of, Py.sub_runs.
  apply sub_runs_from_keeps; [|exact H2].
  apply strip_In; [|exact H2].
  apply sub_runs_from_keeps; assumption.
Qed.

Lemma normalize_first_variant raw :
  clean (v1_of (base_of unidecode raw)) <> [] ->
  normalize_name_variants unidecode raw <> [].
Proof.
  intros H. rewrite normalize_unfold. unfold normalize_name_variants_leet.
  assert (Hin : In (clean (v1_of (base_of unidecode raw)))
                  (List.filter nonempty
                     (List.map clean
                        (dedup (variants_of unidecode raw LEET_MODE))))).
  { apply filter_In. split.
    - apply in_map. unfold dedup. apply dedup_fold_complete.
      unfold variants_of. cbv zeta. left. reflexivity.
    - destruct (clean _); [congruence|reflexivity]. }
  intros E. rewrite E in Hin. destruct Hin.
Qed.

Lemma normalize_empty_iff (raw : pystr) :
  is_ascii (unidecode raw) = true ->
  (normalize_name_variants unidecode raw = []
   <-> forall c, In c (unidecode raw) -> is_alnum c = false).
Proof.
  intros Hascii. split.
  - intros Hempty c Hc.
    destruct (is_alnum c) eqn:Ec; [|reflexivity]. exfalso.
    apply (@normalize_first_variant raw); [|exact Hempty].
    assert (Hl : Py.is_alnum_lower (Py.lower_char c) = true)
      by now rewrite alnum_lower_char.
    destruct (alnum_not_separator _ Hl) as [Hs1 Hs2].
    assert (Hin : In (Py.lower_char c) (v1_of (base_of unidecode raw))).
    { apply v1_of_keeps; [|exact Hl].
      unfold base_of. rewrite (replace_homoglyphs_fixed _ Hascii).
      apply strip_In; [|exact Hs2].
      unfold Py.sub_each_empty. apply filter_In. split.
      - unfold Py.lower. now apply in_map.
      - rewrite negb_involutive. unfold is_base_char. now rewrite Hl. }
    unfold clean, Py.sub_runs. intros E.
    assert (Hin' : In (Py.lower_char c)
                     (Py.sub_runs_from
                        (fun c => negb (Py.is_alnum_lower c)) [] false
                        (v1_of (base_of unidecode raw)))).
    { apply sub_runs_from_keeps; [exact Hin|]. now rewrite Hl. }
    rewrite E in Hin'. destruct Hin'.
  - intros Hnone.
    assert (Hv1 : v1_of (base_of unidecode raw) = []).
    { apply v1_of_separators. intros c Hc.
      apply base_of_In in Hc. destruct Hc as [Hb Hc].
      rewrite (replace_homoglyphs_fixed _ Hascii) in Hc.
      unfold Py.lower in Hc. apply in_map_iff in Hc.
      destruct Hc as [x [<- Hx]].
      unfold is_base_char in Hb. rewrite alnum_lower_char in Hb.
      rewrite (Hnone x Hx) in Hb. exact Hb. }
    rewrite normalize_unfold.
    unfold normalize_name_variants_leet, variants_of. rewrite Hv1.
    reflexivity.
Qed.

(** X5.  When the transliteration is ASCII text, a name has no variant
    exactly when the transliteration holds no letter and no digit. *)
Theorem normalize_name_variants_empty_iff (raw : pystr) :
  is_ascii (unidecode raw) = true ->
  (normalize_name_variants unidecode raw = []
   <-> forall c, In c (unidecode raw) -> is_alnum c = false).
Proof. apply normalize_empty_iff. Qed.

End NormalizerEmpty.

Lemma normalize_name_variants_empty_iff_witness :
  is_ascii (unidecode_table (str "-_-")) = true
  /\ (normalize_name_variants unidecode_table (str "-_-") = []
      <-> forall c, In c (unidecode_table (str "-_-")) ->
            is_alnum c = false).
Proof.
  assert (H : is_ascii (unidecode_table (str "-_-")) = true)
    by reflexivity.
  split; [exact H|].
  exact (@normalize_name_variants_empty_iff unidecode_table (str "-_-") H).
Defined.

Lemma filter_absorb (A : Type) (f g : A -> bool) (l : list A) :
  (forall x, f x = true -> g x = true) ->
  List.filter f (List.filter g l) = List.filter f l.
Proof.
  intros H. induction l as [|x l IH]; cbn [List.filter]; [reflexivity|].
  destruct (g x) eqn:Eg; cbn [List.filter].
  - now rewrite IH.
  - destruct (f x) eqn:Ef; [|exact IH].
    rewrite (H x Ef) in Eg. discriminate.
Qed.

Lemma filter_comm (A : Type) (f g : A -> bool) (l : list A) :
  List.filter f (List.filter g l) = List.filter g (List.filter f l).
Proof.
  induction l as [|x l IH]; cbn [List.filter]; [reflexivity|].
  destruct (g x) eqn:Eg, (f x) eqn:Ef; cbn [List.filter];
    rewrite ?Eg, ?Ef, IH; reflexivity.
Qed.

Lemma map_filter_comm (A : Type) (f : A -> A) (g : A -> bool) (l : list A) :
  (forall x, g (f x) = g x) ->
  List.map f (List.filter g l) = List.filter g (List.map f l).
Proof.
  intros H. induction l as [|x l IH]; cbn [List.filter List.map];
    [reflexivity|].
  rewrite H. destruct (g x); cbn [List.map]; now rewrite IH.
Qed.

Lemma clean_filter u :
  clean u = List.filter Py.is_alnum_lower u.
Proof.
  unfold clean. rewrite sub_runs_empty. apply filter_ext.
  intros c. apply negb_involutive.
Qed.

Lemma alnum_keeps c :
  Py.is_alnum_lower c = true -> negb (is_separator c) = true.
Proof.
  intros H. destruct (alnum_not_separator _ H) as [H1 _].
  unfold is_name_separator in H1.
  destruct (is_separator c); [discriminate H1|reflexivity].
Qed.

(** The separators do not reach the cleaned variant. *)
Lemma clean_remove_separators s : clean (remove_separators s) = clean s.
Proof.
  unfold remove_separators. rewrite sub_runs_empty, !clean_filter.
  apply filter_absorb. exact alnum_keeps.
Qed.

Lemma de_leet_char_separator c :
  is_separator (de_leet_char c) = is_separator c.
Proof.
  destruct (c <? 128)%N eqn:E.
  - apply N.ltb_lt in E. apply eqb_prop. revert c E.
    apply (ascii_cases
             (fun c => Bool.eqb (is_separator (de_leet_char c))
                         (is_separator c))).
    vm_compute. reflexivity.
  - apply N.ltb_ge in E. now rewrite de_leet_char_high.
Qed.

Lemma clean_de_leet_remove_separators s :
  clean (de_leet (remove_separators s)) = clean (de_leet s).
Proof.
  unfold remove_separators, de_leet. rewrite sub_runs_empty.
  rewrite (map_filter_comm de_leet_char
             (fun c => negb (is_separator c)))
    by (intros x; now rewrite de_leet_char_separator).
  rewrite !clean_filter. apply filter_absorb. exact alnum_keeps.
Qed.

Lemma clean_stripped_remove_separators s :
  clean (stripped_numbers (remove_separators s))
  = clean (stripped_numbers s).
Proof.
  unfold remove_separators, stripped_numbers. rewrite !sub_runs_empty.
  rewrite filter_comm, !clean_filter. apply filter_absorb.
  exact alnum_keeps.
Qed.

Section NormalizerExtras.

Variable unidecode : pystr -> pystr.

(** X6.  [normalize_name_variants] returns at most nine entries, each of
    them a string of one or more characters of [a-z0-9], and at most six
    different strings among them.  [de_leet] leaves no digit, so the last
    three of the twelve variants repeat the three before the stripped
    ones; and the variants without separators are cleaned to the same
    strings as the variants with them. *)
Theorem normalize_name_variants_nine (raw : pystr) :
  length (normalize_name_variants unidecode raw) <= 9
  /\ (forall v, In v (normalize_name_variants unidecode raw) ->
        v <> [] /\ Forall (fun c => Py.is_alnum_lower c = true) v)
  /\ exists distinct,
       length distinct <= 6
       /\ forall v, In v (normalize_name_variants unidecode raw) ->
            In v distinct.
Proof.
  split; [|split].
  - rewrite normalize_unfold. unfold normalize_name_variants_leet.
    unfold variants_of. cbv zeta. unfold LEET_MODE.
    rewrite !stripped_numbers_de_leet.
    generalize (v1_of (base_of unidecode raw)) as v1. intros v1.
    generalize (collapse_repeats v1) as v2. intros v2.
    generalize (remove_separators v2) as v3. intros v3.
    generalize (de_leet v1) as d1. intros d1.
    generalize (de_leet v2) as d2. intros d2.
    generalize (de_leet v3) as d3. intros d3.
    generalize (stripped_numbers v1) as s1. intros s1.
    generalize (stripped_numbers v2) as s2. intros s2.
    generalize (stripped_numbers v3) as s3. intros s3.
    change [v1; v2; v3; d1; d2; d3; s1; s2; s3; d1; d2; d3]
      with ([v1; v2; v3; d1; d2; d3; s1; s2; s3] ++ [d1; d2; d3]).
    rewrite dedup_app_seen.
    + etransitivity; [apply filter_length_le|].
      rewrite length_map. unfold dedup.
      etransitivity; [apply dedup_fold_length|]. cbn [length]. lia.
    + intros x Hx. cbn [In] in *. tauto.
  - intros v Hv. split.
    + apply normalize_variant_nonempty in Hv. destruct v; [discriminate|].
      congruence.
    + eapply normalize_variant_alnum. exact Hv.
  - set (v1 := v1_of (base_of unidecode raw)).
    set (v2 := collapse_repeats v1).
    exists [clean v1; clean v2; clean (de_leet v1); clean (de_leet v2);
            clean (stripped_numbers v1); clean (stripped_numbers v2)].
    split; [cbn [length]; lia|].
    intros v Hv. rewrite normalize_unfold in Hv.
    apply normalize_In_clean in Hv. destruct Hv as [_ [u [Hu ->]]].
    unfold variants_of in Hu. cbv zeta in Hu. unfold LEET_MODE in Hu.
    fold v1 in Hu. fold v2 in Hu.
    rewrite !stripped_numbers_de_leet in Hu.
    cbn [In] in Hu.
    repeat (destruct Hu as [<-|Hu];
            [rewrite ?clean_remove_separators,
               ?clean_de_leet_remove_separators,
               ?clean_stripped_remove_separators;
             cbn [In]; tauto|]).
    destruct Hu.
Qed.

End NormalizerExtras.

(** ** The blocks of the matcher *)

Lemma row_match a b i blo bhi j2len js newj2len best new' best' :
  j2len_match a b i j2len ->
  (forall j, In j js -> Difflib.b_at b j = Difflib.a_at a i) ->
  j2len_match a b (S i) newj2len ->
  block_match a b best ->
  Difflib.row i blo bhi j2len js newj2len best = (new', best') ->
  j2len_match a b (S i) new' /\ block_match a b best'.
Proof.
  intros Hprev. revert newj2len best.
  induction js as [|j js IH]; intros newj2len best Hjs Hnew Hbest H;
    cbn [Difflib.row] in H.
  - inversion H; subst. split; assumption.
  - assert (Hjs' : forall x, In x js -> Difflib.b_at b x = Difflib.a_at a i)
      by (intros x Hx; apply Hjs; now right).
    destruct (j <? blo); [eapply IH; eassumption|].
    destruct (bhi <=? j); [inversion H; subst; split; assumption|].
    destruct best as [[bi bj] bs].
    set (k := S (match j with 0 => 0 | S j' => j2len j' end)) in *.
    assert (Hk : forall t, t < k ->
              t < S i /\ t <= j
              /\ Difflib.a_at a (S i - 1 - t) = Difflib.b_at b (j - t)).
    { intros t Ht. destruct t as [|t'].
      - split; [lia|]. split; [lia|].
        replace (S i - 1 - 0) with i by lia. rewrite Nat.sub_0_r.
        symmetry. apply Hjs. now left.
      - unfold k in Ht. destruct j as [|j']; [lia|].
        destruct (Hprev j' t') as [H1 [H2 H3]]; [lia|].
        split; [lia|]. split; [lia|].
        replace (S i - 1 - S t') with (i - 1 - t') by lia.
        replace (S j' - S t') with (j' - t') by lia. exact H3. }
    eapply IH; [exact Hjs'| | |exact H].
    + intros x t. cbv beta. destruct (x =? j) eqn:Ex; [|apply Hnew].
      apply Nat.eqb_eq in Ex. subst x. apply Hk.
    + destruct (bs <? k); [|exact Hbest].
      intros t Ht.
      assert (Hk1 : k - 1 < k) by (unfold k; lia).
      destruct (Hk (k - 1) Hk1) as [K1 [K2 _]].
      destruct (Hk (k - 1 - t)) as [_ [_ H3]]; [lia|].
      replace (i + 1 - k + t) with (S i - 1 - (k - 1 - t)) by lia.
      replace (j + 1 - k + t) with (j - (k - 1 - t)) by lia.
      exact H3.
Qed.

Lemma b2j_In b c j : In j (Difflib.b2j b c) -> Difflib.b_at b j = c.
Proof.
  unfold Difflib.b2j. destruct (Difflib.popular b c); [intros []|].
  intros H. apply indices_from_spec in H. rewrite Nat.sub_0_r in H.
  unfold Difflib.b_at. tauto.
Qed.

Lemma rows_match a b blo bhi n i j2len best :
  j2len_match a b i j2len ->
  block_match a b best ->
  block_match a b (Difflib.rows a b blo bhi (seq i n) j2len best).
Proof.
  revert i j2len best.
  induction n as [|n IH]; intros i j2len best Hprev Hbest;
    cbn [seq Difflib.rows]; [exact Hbest|].
  destruct (Difflib.row i blo bhi j2len (Difflib.b2j b (Difflib.a_at a i))
              (fun _ => 0) best) as [new' best'] eqn:E.
  eapply row_match in E; [| exact Hprev | | | exact Hbest].
  - destruct E as [E1 E2]. apply IH; assumption.
  - intros j Hj. now apply b2j_In.
  - intros j t Ht. lia.
Qed.

Lemma extend_back_match a b alo blo bi bj bs :
  block_match a b (bi, bj, bs) ->
  block_match a b (Difflib.extend_back a b alo blo bi bj bs).
Proof.
  revert bj bs. induction bi as [|i' IH]; intros bj bs H;
    cbn [Difflib.extend_back]; [exact H|].
  destruct bj as [|j']; [exact H|].
  destruct (_ && _) eqn:E; [|exact H].
  apply andb_prop in E. destruct E as [_ E]. apply N.eqb_eq in E.
  apply IH. intros t Ht. destruct t as [|t'].
  - rewrite !Nat.add_0_r. exact E.
  - replace (i' + S t') with (S i' + t') by lia.
    replace (j' + S t') with (S j' + t') by lia.
    apply H. lia.
Qed.

Lemma extend_fwd_match a b steps ahi bhi bi bj bs :
  block_match a b (bi, bj, bs) ->
  block_match a b
    (bi, bj, Difflib.extend_fwd a b steps ahi bhi bi bj bs).
Proof.
  revert bs. induction steps as [|n IH]; intros bs H;
    cbn [Difflib.extend_fwd]; [exact H|].
  destruct (_ && _) eqn:E; [|exact H].
  apply andb_prop in E. destruct E as [_ E]. apply N.eqb_eq in E.
  apply IH. intros t Ht.
  destruct (Nat.eq_dec t bs) as [->|Hne]; [exact E|].
  apply H. lia.
Qed.

(** The block of [find_longest_match] is a run of equal elements. *)
Lemma find_longest_match_match a b alo ahi blo bhi :
  block_match a b (Difflib.find_longest_match a b alo ahi blo bhi).
Proof.
  unfold Difflib.find_longest_match.
  assert (H0 : block_match a b
                 (Difflib.rows a b blo bhi (seq alo (ahi - alo))
                    (fun _ => 0) (alo, blo, 0))).
  { apply rows_match.
    - intros j t Ht. lia.
    - intros t Ht. lia. }
  destruct (Difflib.rows _ _ _ _ _ _ _) as [[bi bj] bs].
  apply (@extend_back_match a b alo blo) in H0.
  destruct (Difflib.extend_back _ _ _ _ _ _ _) as [[bi' bj'] bs'].
  now apply extend_fwd_match.
Qed.

Lemma optional_seg a b (q : list Difflib.region) (r : Difflib.region) :
  q = [r] \/ q = [] ->
  Forall (seg_eq a b) q ->
  span_a r <= total span_a q ->
  span_b r <= total span_b q ->
  seg_eq a b r.
Proof.
  intros [->| ->].
  - intros H _ _. now inversion H.
  - destruct r as [[[alo ahi] blo] bhi]. cbn. intros _ Ha Hb.
    split; [lia|]. intros t Ht. lia.
Qed.

(** When the blocks fill the regions that were waiting, the two sides of
    every region are equal. *)
Lemma blocks_loop_perfect a b fuel q acc l :
  Forall region_ok q ->
  total cost q <= fuel ->
  Difflib.blocks_loop a b fuel q acc = Some l ->
  Difflib.matches acc + total span_a q <= Difflib.matches l ->
  Difflib.matches acc + total span_b q <= Difflib.matches l ->
  Forall (seg_eq a b) q.
Proof.
  revert q acc. induction fuel as [|fuel IH]; intros q acc Hq Hf Hl Ha Hb.
  - destruct q as [|[[[alo ahi] blo] bhi] rest]; [constructor|].
    rewrite total_cons in Hf. unfold cost in Hf. lia.
  - destruct q as [|[[[alo ahi] blo] bhi] rest]; [constructor|].
    cbn [Difflib.blocks_loop] in Hl.
    inversion Hq as [|r0 rest' Hr Hrest]; subst.
    destruct Hr as [Hr1 Hr2].
    pose proof (find_longest_match_bounds a b Hr1 Hr2) as Hbd.
    pose proof (find_longest_match_match a b alo ahi blo bhi) as Hm.
    destruct (Difflib.find_longest_match a b alo ahi blo bhi)
      as [[i j] k].
    unfold block_in in Hbd. unfold block_match in Hm.
    rewrite total_cons in Hf, Ha, Hb.
    change (cost (alo, ahi, blo, bhi)) with (2 * (ahi - alo) + 1) in Hf.
    change (span_a (alo, ahi, blo, bhi)) with (ahi - alo) in Ha.
    change (span_b (alo, ahi, blo, bhi)) with (bhi - blo) in Hb.
    destruct (k =? 0) eqn:Ek.
    + apply Nat.eqb_eq in Ek. subst k.
      destruct (@blocks_loop_total a b fuel rest acc Hrest)
        as [l' [E [U1 U2]]]; [lia|].
      rewrite E in Hl. inversion Hl; subst l'.
      constructor.
      * split; [lia|]. intros t Ht. lia.
      * apply (IH rest acc); try assumption; lia.
    + apply Nat.eqb_neq in Ek.
      match type of Hl with
      | Difflib.blocks_loop _ _ _ (?r ++ ?lf ++ rest) ?acc' = _ =>
          assert (HL : Forall region_ok lf
                       /\ total span_a lf <= i - alo
                       /\ total span_b lf <= j - blo
                       /\ total cost lf <= 2 * (i - alo) + 1)
            by (apply optional_region;
                [unfold region_ok; lia|simpl; lia|simpl; lia]);
          assert (HR : Forall region_ok r
                       /\ total span_a r <= ahi - (i + k)
                       /\ total span_b r <= bhi - (j + k)
                       /\ total cost r <= 2 * (ahi - (i + k)) + 1)
            by (apply optional_region;
                [unfold region_ok; lia|simpl; lia|simpl; lia]);
          destruct HL as [Hl0 [Hl1 [Hl2 Hl3]]];
          destruct HR as [Hr0 [Hr1' [Hr2' Hr3]]];
          assert (HF : Forall region_ok (r ++ lf ++ rest))
            by (apply Forall_app; split; [exact Hr0|];
                apply Forall_app; split; assumption);
          destruct (@blocks_loop_total a b fuel (r ++ lf ++ rest) acc' HF)
            as [l' [E [U1 U2]]]; [rewrite !total_app; lia|];
          rewrite E in Hl; inversion Hl; subst l';
          rewrite matches_app in U1, U2;
          rewrite !total_app in U1, U2; cbn [snd] in U1, U2;
          assert (HS : Forall (seg_eq a b) (r ++ lf ++ rest))
            by (apply (IH _ acc');
                [ exact HF
                | rewrite !total_app; lia
                | exact E
                | rewrite matches_app, !total_app; cbn [snd]; lia
                | rewrite matches_app, !total_app; cbn [snd]; lia ]);
          apply Forall_app in HS; destruct HS as [HSr HS];
          apply Forall_app in HS; destruct HS as [HSl HSrest];
          assert (HSl' : seg_eq a b (alo, i, blo, j))
            by (apply (@optional_seg a b lf);
                [ destruct ((alo <? i) && (blo <? j)); [left|right];
                  reflexivity
                | exact HSl
                | change (span_a (alo, i, blo, j)) with (i - alo); lia
                | change (span_b (alo, i, blo, j)) with (j - blo); lia ]);
          assert (HSr' : seg_eq a b (i + k, ahi, j + k, bhi))
            by (apply (@optional_seg a b r);
                [ destruct ((i + k <? ahi) && (j + k <? bhi));
                  [left|right]; reflexivity
                | exact HSr
                | change (span_a (i + k, ahi, j + k, bhi))
                    with (ahi - (i + k)); lia
                | change (span_b (i + k, ahi, j + k, bhi))
                    with (bhi - (j + k)); lia ])
      end.
      constructor; [|exact HSrest].
      destruct HSl' as [L1 L2]. destruct HSr' as [R1 R2].
      split; [lia|]. intros t Ht.
      destruct (Nat.lt_ge_cases t (i - alo)) as [C1|C1]; [now apply L2|].
      destruct (Nat.lt_ge_cases t (i - alo + k)) as [C2|C2].
      * replace (alo + t) with (i + (t - (i - alo))) by lia.
        replace (blo + t) with (j + (t - (i - alo))) by lia.
        apply Hm. lia.
      * replace (alo + t) with (i + k + (t - (i - alo + k))) by lia.
        replace (blo + t) with (j + k + (t - (i - alo + k))) by lia.
        apply R2. lia.
Qed.

(** A ratio of 1 is reached by equal sequences only. *)
Lemma ratio_one_eq a b : (Difflib.ratio a b == 1)%Q -> a = b.
Proof.
  unfold Difflib.ratio.
  destruct (get_matching_blocks_run a b) as [l [E [-> [H1 H2]]]].
  destruct (length a + length b) as [|n] eqn:EL.
  - intros _. destruct a, b; try discriminate. reflexivity.
  - unfold Qeq. cbn [Qnum Qden]. rewrite Zpos_of_nat_S. intros HQ.
    assert (Hm : 2 * Difflib.matches l = S n) by lia.
    assert (HS : Forall (seg_eq a b) [(0, length a, 0, length b)]).
    { apply (@blocks_loop_perfect a b (2 * length a + 1) _ [] l).
      - repeat constructor; lia.
      - unfold cost. simpl. lia.
      - exact E.
      - simpl. lia.
      - simpl. lia. }
    inversion HS as [|r0 rest' Hseg _]; subst.
    unfold seg_eq in Hseg. destruct Hseg as [S1 S2].
    rewrite !Nat.sub_0_r in S1. rewrite Nat.sub_0_r in S2.
    apply (nth_ext a b 0%N 0%N S1). intros t Ht.
    apply (S2 t Ht).
Qed.

(** Sequences without a common element have no block. *)
Lemma find_longest_match_disjoint a b :
  (forall c, In c a -> ~ In c b) ->
  snd (Difflib.find_longest_match a b 0 (length a) 0 (length b)) = 0.
Proof.
  intros Hd.
  pose proof (@find_longest_match_bounds a b 0 (length a) 0 (length b)
                (Nat.le_0_l _) (Nat.le_0_l _)) as Hbd.
  pose proof (find_longest_match_match a b 0 (length a) 0 (length b)) as Hm.
  destruct (Difflib.find_longest_match a b 0 (length a) 0 (length b))
    as [[i j] k].
  cbn [snd]. destruct k as [|k]; [reflexivity|]. exfalso.
  unfold block_in in Hbd. specialize (Hm 0 (Nat.lt_0_succ k)).
  rewrite !Nat.add_0_r in Hm.
  apply (Hd (Difflib.a_at a i)).
  - apply nth_In. lia.
  - rewrite Hm. apply nth_In. lia.
Qed.

Lemma ratio_disjoint a b :
  (forall c, In c a -> ~ In c b) ->
  length a + length b <> 0 ->
  (Difflib.ratio a b == 0)%Q.
Proof.
  intros Hd Hlen. unfold Difflib.ratio, Difflib.get_matching_blocks.
  replace (2 * length a + 1) with (S (2 * length a)) by lia.
  cbn [Difflib.blocks_loop].
  pose proof (find_longest_match_disjoint a b Hd) as H0.
  destruct (Difflib.find_longest_match a b 0 (length a) 0 (length b))
    as [[i j] k].
  cbn [snd] in H0. subst k. cbn [Nat.eqb].
  destruct (length a + length b) as [|n]; [congruence|].
  destruct (2 * length a); unfold Qeq; reflexivity.
Qed.

Lemma row_size i blo bhi j2len js newj2len best new' best' :
  Difflib.row i blo bhi j2len js newj2len best = (new', best') ->
  snd best <= snd best'
  /\ (js <> [] -> (forall j, In j js -> blo <= j /\ j < bhi) ->
      1 <= snd best').
Proof.
  revert newj2len best.
  induction js as [|j js IH]; intros newj2len best H;
    cbn [Difflib.row] in H.
  - inversion H; subst. split; [lia|congruence].
  - destruct (j <? blo) eqn:Eblo.
    + apply IH in H. destruct H as [H1 _]. split; [exact H1|].
      intros _ Hr. apply Nat.ltb_lt in Eblo.
      destruct (Hr j (or_introl eq_refl)). lia.
    + destruct (bhi <=? j) eqn:Ebhi.
      * inversion H; subst. split; [lia|].
        intros _ Hr. apply Nat.leb_le in Ebhi.
        destruct (Hr j (or_introl eq_refl)). lia.
      * destruct best as [[bi bj] bs].
        apply IH in H. destruct H as [H1 _]. cbn [snd] in *.
        destruct (bs <? _) eqn:Ebs; cbn [snd] in H1.
        -- apply Nat.ltb_lt in Ebs. split; [lia|]. intros _ _. lia.
        -- apply Nat.ltb_ge in Ebs. split; [lia|]. intros _ _. lia.
Qed.

Lemma rows_size a b blo bhi is_ j2len best :
  snd best <= snd (Difflib.rows a b blo bhi is_ j2len best)
  /\ ((exists i, In i is_ /\ Difflib.b2j b (Difflib.a_at a i) <> []
                 /\ forall j, In j (Difflib.b2j b (Difflib.a_at a i)) ->
                      blo <= j /\ j < bhi) ->
      1 <= snd (Difflib.rows a b blo bhi is_ j2len best)).
Proof.
  revert j2len best.
  induction is_ as [|i is' IH]; intros j2len best; cbn [Difflib.rows].
  - split; [lia|]. intros [i [[] _]].
  - destruct (Difflib.row i blo bhi j2len (Difflib.b2j b (Difflib.a_at a i))
                (fun _ => 0) best) as [new' best'] eqn:E.
    apply row_size in E. destruct E as [E1 E2].
    destruct (IH new' best') as [I1 I2].
    split; [lia|].
    intros [x [[->|Hx] [Hne Hr]]].
    + specialize (E2 Hne Hr). lia.
    + apply I2. exists x. tauto.
Qed.

Lemma extend_back_size a b alo blo bi bj bs :
  bs <= snd (Difflib.extend_back a b alo blo bi bj bs).
Proof.
  revert bj bs. induction bi as [|i' IH]; intros bj bs;
    cbn [Difflib.extend_back]; [cbn; lia|].
  destruct bj as [|j']; [cbn; lia|].
  destruct (_ && _); [|cbn; lia].
  specialize (IH j' (S bs)). lia.
Qed.

Lemma blocks_loop_grows a b fuel q acc l :
  Difflib.blocks_loop a b fuel q acc = Some l ->
  Difflib.matches acc <= Difflib.matches l.
Proof.
  revert q acc. induction fuel as [|fuel IH]; intros q acc H.
  - destruct q as [|[[[alo ahi] blo] bhi] rest]; cbn in H;
      [inversion H; subst; lia|discriminate].
  - destruct q as [|[[[alo ahi] blo] bhi] rest];
      cbn [Difflib.blocks_loop] in H; [inversion H; subst; lia|].
    destruct (Difflib.find_longest_match a b alo ahi blo bhi)
      as [[i j] k].
    destruct (k =? 0); [now apply IH in H|].
    apply IH in H. rewrite matches_app in H. lia.
Qed.

(** Below 200 elements no element of [b] is popular. *)
Lemma b2j_short b c :
  length b < 200 -> Difflib.b2j b c = Difflib.indices_from c b 0.
Proof.
  intros H. unfold Difflib.b2j, Difflib.popular.
  rewrite (proj2 (Nat.leb_gt 200 (length b))) by exact H. reflexivity.
Qed.

Lemma find_longest_match_common a b c :
  length b < 200 -> In c a -> In c b ->
  1 <= snd (Difflib.find_longest_match a b 0 (length a) 0 (length b)).
Proof.
  intros Hshort Ha Hb. unfold Difflib.find_longest_match.
  rewrite Nat.sub_0_r.
  destruct (@rows_size a b 0 (length b) (seq 0 (length a)) (fun _ => 0)
              (0, 0, 0)) as [_ H].
  assert (Hpos : 1 <= snd (Difflib.rows a b 0 (length b)
                             (seq 0 (length a)) (fun _ => 0) (0, 0, 0))).
  { apply H. apply (In_nth _ _ 0%N) in Ha. destruct Ha as [i [Hi Ei]].
    apply (In_nth _ _ 0%N) in Hb. destruct Hb as [j [Hj Ej]].
    exists i. split; [apply in_seq; lia|].
    unfold Difflib.a_at. rewrite Ei, (@b2j_short b c Hshort). split.
    - intros E.
      assert (Hin : In j (Difflib.indices_from c b 0)).
      { apply indices_from_spec. rewrite Nat.sub_0_r. lia. }
      rewrite E in Hin. destruct Hin.
    - intros x Hx. apply indices_from_spec in Hx. lia. }
  clear H.
  destruct (Difflib.rows _ _ _ _ _ _ _) as [[bi bj] bs].
  cbn [snd] in Hpos.
  pose proof (extend_back_size a b 0 0 bi bj bs) as Hback.
  destruct (Difflib.extend_back _ _ _ _ _ _ _) as [[bi' bj'] bs'].
  cbn [snd] in *.
  revert Hback. generalize (length a - (bi' + bs')) as steps.
  intros steps Hback.
  assert (Hf : bs' <= Difflib.extend_fwd a b steps (length a) (length b)
                        bi' bj' bs').
  { clear. revert bs'. induction steps as [|n IH]; intros bs';
      cbn [Difflib.extend_fwd]; [lia|].
    destruct (_ && _); [|lia]. specialize (IH (S bs')). lia. }
  lia.
Qed.

Lemma ratio_common a b c :
  length b < 200 -> In c a -> In c b -> ~ (Difflib.ratio a b == 0)%Q.
Proof.
  intros Hshort Ha Hb.
  pose proof (@find_longest_match_common a b c Hshort Ha Hb) as Hk.
  unfold Difflib.ratio.
  destruct (get_matching_blocks_run a b) as [l [E [-> _]]].
  replace (2 * length a + 1) with (S (2 * length a)) in E by lia.
  cbn [Difflib.blocks_loop] in E.
  destruct (Difflib.find_longest_match a b 0 (length a) 0 (length b))
    as [[i j] k].
  cbn [snd] in Hk.
  rewrite (proj2 (Nat.eqb_neq k 0)) in E by lia.
  apply blocks_loop_grows in E. rewrite matches_app in E.
  cbn [snd] in E.
  destruct (length a + length b) as [|n] eqn:EL.
  - destruct a; [destruct Ha|discriminate].
  - unfold Qeq. cbn [Qnum Qden]. lia.
Qed.

(** ** The similarity of two variants *)

Lemma name_similarity_one_lemma (a b : pystr) :
  (name_similarity a b == 1)%Q <-> a = b /\ a <> [].
Proof.
  split.
  - unfold name_similarity.
    destruct a as [|x a']; [intros H; discriminate H|].
    destruct b as [|y b']; [intros H; discriminate H|].
    cbn [nonempty negb orb]. intros H. apply ratio_one_eq in H.
    split; [exact H|discriminate].
  - intros [<- Hne]. apply name_similarity_refl.
    destruct a; [congruence|reflexivity].
Qed.

(** X7.  [name_similarity a b] is 1.0 exactly when [a] and [b] are the
    same string and not empty. *)
Theorem name_similarity_one_iff (a b : pystr) :
  (name_similarity a b == 1)%Q <-> a = b /\ a <> [].
Proof. apply name_similarity_one_lemma. Qed.

(** X8.  Two strings without a common character have similarity 0.0.
    When [b] has fewer than 200 characters, so that no character of it
    is set aside as popular, the converse holds as well. *)
Theorem name_similarity_zero (a b : pystr) :
  ((forall c, In c a -> ~ In c b) -> (name_similarity a b == 0)%Q)
  /\ (length b < 200 -> (name_similarity a b == 0)%Q ->
      forall c, In c a -> ~ In c b).
Proof.
  split.
  - intros Hd. unfold name_similarity.
    destruct a as [|x a']; [reflexivity|].
    destruct b as [|y b']; [reflexivity|].
    cbn [nonempty negb orb]. apply ratio_disjoint; [exact Hd|].
    cbn [length]. lia.
  - intros Hshort H c Ha Hb. revert H. unfold name_similarity.
    destruct a as [|x a']; [destruct Ha|].
    destruct b as [|y b']; [destruct Hb|].
    cbn [nonempty negb orb].
    exact (@ratio_common (x :: a') (y :: b') c Hshort Ha Hb).
Qed.

Lemma name_similarity_zero_witness :
  length (str "farm") < 200
  /\ ((name_similarity (str "bot") (str "farm") == 0)%Q ->
      forall c, In c (str "bot") -> ~ In c (str "farm")).
Proof.
  assert (H : length (str "farm") < 200) by (cbn; lia).
  split; [exact H|].
  exact (proj2 (name_similarity_zero (str "bot") (str "farm")) H).
Defined.

Lemma similarity_rows_one a_vars b_vars :
  (forall v, In v a_vars -> nonempty v = true) ->
  let res := similarity_rows a_vars b_vars 0%Q in
  ((res == 1)%Q -> exists v, In v a_vars /\ In v b_vars)
  /\ ((exists v, In v a_vars /\ In v b_vars) -> (999 # 1000 <= res)%Q)
  /\ ((forall av bv, In av a_vars -> In bv b_vars ->
         length av + length bv < 1000) ->
      (exists v, In v a_vars /\ In v b_vars) -> (res == 1)%Q).
Proof.
  intros Hne res.
  assert (Eres : res = loop_value (scan (ratios a_vars b_vars) 0%Q))
    by apply similarity_rows_scan.
  assert (H0 : (0 < 999 # 1000)%Q) by reflexivity.
  assert (Hret : (exists v, In v a_vars /\ In v b_vars) ->
            (999 # 1000 <= res)%Q
            /\ exists av bv, In av a_vars /\ In bv b_vars
                             /\ res = name_similarity av bv).
  { intros [v [Hva Hvb]].
    assert (Habove : exists r, In r (ratios a_vars b_vars)
                               /\ (999 # 1000 <= r)%Q).
    { exists (name_similarity v v). split.
      - apply (proj2 (ratios_In a_vars b_vars (name_similarity v v))).
        exists v, v. repeat split; assumption.
      - rewrite (name_similarity_refl v (Hne v Hva)).
        unfold Qle. simpl. lia. }
    destruct (scan_some_above _ H0 Habove) as [x Ex].
    assert (res = x) by (rewrite Eres, Ex; reflexivity). subst x.
    destruct (scan_return _ H0 Ex) as [pre [post [Epre [Hx _]]]].
    split; [exact Hx|].
    apply (proj1 (ratios_In a_vars b_vars res)).
    rewrite Epre. apply in_or_app. right. left. reflexivity. }
  split; [|split].
  - intros Hone.
    destruct (@scan_zero_range (ratios a_vars b_vars)) as [_ Hor].
    { intros r Hr. eapply ratios_range. exact Hr. }
    rewrite <- Eres in Hor. destruct Hor as [Hz|Hin].
    + rewrite Hz in Hone. discriminate Hone.
    + apply (proj1 (ratios_In a_vars b_vars res)) in Hin.
      destruct Hin as [av [bv [Ha [Hb E]]]].
      rewrite E in Hone. apply (proj1 (name_similarity_one_lemma _ _)) in Hone.
      exists av. split; [exact Ha|]. destruct Hone as [-> _]. exact Hb.
  - intros Hc. exact (proj1 (Hret Hc)).
  - intros Hshort Hc. destruct (Hret Hc) as [Hx [av [bv [Ha [Hb E]]]]].
    rewrite E in *.
    exact (name_similarity_short av bv (Hshort av bv Ha Hb) Hx).
Qed.

Section SimilarityExtras.

Variable unidecode : pystr -> pystr.

(** X9.  A similarity of 1.0 between two names means that they have a
    variant in common.  Two names with a common variant have a
    similarity of 0.999 or more, and of 1.0 when their transliterations
    have fewer than 1000 characters together. *)
Theorem max_variant_similarity_common (a_raw b_raw : pystr) :
  let common :=
    exists v, In v (normalize_name_variants unidecode a_raw)
              /\ In v (normalize_name_variants unidecode b_raw) in
  let res := max_variant_similarity unidecode a_raw b_raw in
  ((res == 1)%Q -> common)
  /\ (common -> (999 # 1000 <= res)%Q)
  /\ (length (unidecode a_raw) + length (unidecode b_raw) < 1000 ->
      common -> (res == 1)%Q).
Proof.
  intros common res. unfold common, res, max_variant_similarity.
  pose proof (@normalize_variant_nonempty unidecode a_raw) as Hne.
  pose proof (@normalize_variant_length unidecode a_raw) as Hla.
  pose proof (@normalize_variant_length unidecode b_raw) as Hlb.
  revert Hne Hla Hlb.
  generalize (normalize_name_variants unidecode a_raw) as a_vars.
  generalize (normalize_name_variants unidecode b_raw) as b_vars.
  intros b_vars a_vars Hne Hla Hlb.
  destruct (@similarity_rows_one a_vars b_vars Hne) as [H1 [H2 H3]].
  split; [exact H1|]. split; [exact H2|].
  intros Hshort. apply H3. intros av bv Ha Hb.
  specialize (Hla av Ha). specialize (Hlb bv Hb). lia.
Qed.

End SimilarityExtras.

Lemma max_variant_similarity_common_witness :
  length (unidecode_table (str "GoldFarmer1"))
  + length (unidecode_table (str "G0ld_Farmer1")) < 1000
  /\ (max_variant_similarity unidecode_table (str "GoldFarmer1")
        (str "G0ld_Farmer1") == 1)%Q.
Proof.
  assert (Hlen : length (unidecode_table (str "GoldFarmer1"))
                 + length (unidecode_table (str "G0ld_Farmer1")) < 1000)
    by (vm_compute; lia).
  split; [exact Hlen|].
  destruct (max_variant_similarity_common unidecode_table
              (str "GoldFarmer1") (str "G0ld_Farmer1")) as [_ [_ H]].
  apply (H Hlen). exists (str "goldfarmerl").
  assert (EA : normalize_name_variants unidecode_table (str "GoldFarmer1")
               = [str "goldfarmer1"; str "goldfarmerl"; str "goldfarmer"])
    by (vm_compute; reflexivity).
  assert (EB : normalize_name_variants unidecode_table (str "G0ld_Farmer1")
               = [str "g0ldfarmer1"; str "g0ldfarmer1"; str "goldfarmerl";
                  str "goldfarmerl"; str "gldfarmer"; str "gldfarmer"])
    by (vm_compute; reflexivity).
  rewrite EA, EB. split.
  - right. left. reflexivity.
  - right. right. left. reflexivity.
Defined.

(** ** The average over the pairs of a group *)

Lemma similarity_rows_range a_vars b_vars :
  (0 <= similarity_rows a_vars b_vars 0 <= 1)%Q.
Proof.
  rewrite similarity_rows_scan.
  destruct (@scan_zero_range (ratios a_vars b_vars)) as [H _];
    [|exact H].
  intros r Hr. eapply ratios_range. exact Hr.
Qed.

Lemma sum_ok_step acc sim :
  sum_ok acc -> (0 <= sim <= 1)%Q ->
  sum_ok ((fst acc + sim)%Q, S (snd acc)).
Proof.
  unfold sum_ok. cbn [fst snd]. intros [H1 H2] [S1 S2].
  rewrite Nat2Z.inj_succ, <- Z.add_1_r, inject_Z_plus. split.
  - replace 0%Q with (0 + 0)%Q by reflexivity.
    apply Qplus_le_compat; assumption.
  - apply Qplus_le_compat; assumption.
Qed.

Section AverageExtras.

Variable unidecode : pystr -> pystr.

Lemma max_variant_similarity_dyn_range x y sim :
  max_variant_similarity_dyn unidecode x y = Ok sim -> (0 <= sim <= 1)%Q.
Proof.
  unfold max_variant_similarity_dyn.
  destruct (normalize_name_variants_dyn unidecode x) as [a_vars|e];
    cbn [bind]; [|discriminate].
  destruct (normalize_name_variants_dyn unidecode y) as [b_vars|e];
    cbn [bind]; [|discriminate].
  intros H. inversion H. apply similarity_rows_range.
Qed.

Lemma pair_row_sum x rest acc acc' :
  pair_row unidecode x rest acc = Ok acc' -> sum_ok acc -> sum_ok acc'.
Proof.
  revert acc. induction rest as [|y rest IH]; intros acc H Hacc;
    cbn [pair_row] in H.
  - inversion H; subst. exact Hacc.
  - destruct (max_variant_similarity_dyn unidecode x y) as [sim|e] eqn:E;
      cbn [bind] in H; [|discriminate].
    apply (IH _ H). apply sum_ok_step; [exact Hacc|].
    eapply max_variant_similarity_dyn_range. exact E.
Qed.

Lemma pair_rows_sum names acc acc' :
  pair_rows unidecode names acc = Ok acc' -> sum_ok acc -> sum_ok acc'.
Proof.
  revert acc. induction names as [|x rest IH]; intros acc H Hacc;
    cbn [pair_rows] in H.
  - inversion H; subst. exact Hacc.
  - destruct (pair_row unidecode x rest acc) as [acc1|e] eqn:E;
      cbn [bind] in H; [|discriminate].
    apply (IH _ H). eapply pair_row_sum; eassumption.
Qed.

Lemma pairwise_avg_similarity_bounds names avg :
  pairwise_avg_similarity unidecode names = Ok avg -> (0 <= avg <= 1)%Q.
Proof.
  unfold pairwise_avg_similarity.
  destruct (length names <? 2).
  - intros H. inversion H. split; unfold Qle; simpl; lia.
  - destruct (pair_rows unidecode names (0%Q, 0)) as [acc|e] eqn:E;
      cbn [bind]; [|discriminate].
    assert (Hs : sum_ok acc).
    { eapply pair_rows_sum; [exact E|].
      split; unfold Qle; simpl; lia. }
    destruct acc as [s n]. cbn [fst snd] in *.
    destruct n as [|n].
    + intros H. inversion H. split; unfold Qle; simpl; lia.
    + intros H. inversion H. unfold sum_ok in Hs. cbn [fst snd] in Hs.
      destruct Hs as [Hs1 Hs2].
      assert (Hpos : (0 < inject_Z (Z.of_nat (S n)))%Q).
      { unfold Qlt. simpl. lia. }
      split.
      * apply Qle_shift_div_l; [exact Hpos|]. rewrite Qmult_0_l. exact Hs1.
      * apply Qle_shift_div_r; [exact Hpos|]. rewrite Qmult_1_l. exact Hs2.
Qed.

(** X10.  On names that are strings [pairwise_avg_similarity] returns,
    and whatever it returns lies between 0.0 and 1.0. *)
Theorem pairwise_avg_similarity_range (names : list pyval) :
  (all_strings names ->
   exists avg, pairwise_avg_similarity unidecode names = Ok avg)
  /\ forall avg,
       pairwise_avg_similarity unidecode names = Ok avg ->
       (0 <= avg <= 1)%Q.
Proof.
  split.
  - apply pairwise_avg_similarity_returns.
  - apply pairwise_avg_similarity_bounds.
Qed.

End AverageExtras.

(** ** File names *)

Lemma dropwhile_split p s :
  exists pre, s = pre ++ Py.dropwhile p s.
Proof.
  induction s as [|c t [pre IH]]; [now exists []|].
  cbn [Py.dropwhile]. destruct (p c).
  - exists (c :: pre). cbn [app]. now rewrite <- IH.
  - now exists [].
Qed.

Lemma dropwhile_head p s x t :
  Py.dropwhile p s = x :: t -> p x = false.
Proof.
  induction s as [|c s IH]; cbn [Py.dropwhile]; [discriminate|].
  destruct (p c) eqn:E; [exact IH|].
  intros H. inversion H; subst. exact E.
Qed.

Lemma dropwhile_fixed p s :
  (forall x t, s = x :: t -> p x = false) -> Py.dropwhile p s = s.
Proof.
  destruct s as [|c t]; [reflexivity|].
  intros H. cbn [Py.dropwhile]. now rewrite (H c t eq_refl).
Qed.

Lemma strip_char_incl c s x : In x (strip_char c s) -> In x s.
Proof.
  unfold strip_char. intros H. apply in_rev in H.
  apply dropwhile_incl in H. apply in_rev in H.
  now apply dropwhile_incl in H.
Qed.

Lemma strip_char_length c s : length (strip_char c s) <= length s.
Proof.
  unfold strip_char. rewrite length_rev.
  etransitivity; [apply dropwhile_length|].
  rewrite length_rev. apply dropwhile_length.
Qed.

Lemma strip_char_ends c s :
  (forall t, strip_char c s <> c :: t)
  /\ (forall t, strip_char c s <> t ++ [c]).
Proof.
  unfold strip_char.
  set (u := Py.dropwhile (N.eqb c) s).
  set (w := Py.dropwhile (N.eqb c) (rev u)).
  split.
  - intros t E.
    destruct (dropwhile_split (N.eqb c) (rev u)) as [pre Hpre].
    fold w in Hpre.
    assert (Hu : u = rev w ++ rev pre).
    { rewrite <- rev_app_distr, <- Hpre. now rewrite rev_involutive. }
    rewrite E in Hu. cbn [app] in Hu.
    apply dropwhile_head in Hu. rewrite N.eqb_refl in Hu. discriminate.
  - intros t E.
    assert (Hw : w = c :: rev t).
    { rewrite <- (rev_involutive w), E, rev_app_distr. reflexivity. }
    apply dropwhile_head in Hw. rewrite N.eqb_refl in Hw. discriminate.
Qed.

Lemma strip_char_fixed c s :
  (forall t, s <> c :: t) -> (forall t, s <> t ++ [c]) ->
  strip_char c s = s.
Proof.
  intros H1 H2. unfold strip_char.
  rewrite (@dropwhile_fixed (N.eqb c) s).
  - rewrite dropwhile_fixed; [apply rev_involutive|].
    intros x t E. destruct (N.eqb c x) eqn:Ex; [|reflexivity].
    apply N.eqb_eq in Ex. subst x. exfalso. apply (H2 (rev t)).
    rewrite <- (rev_involutive s), E. reflexivity.
  - intros x t E. destruct (N.eqb c x) eqn:Ex; [|reflexivity].
    apply N.eqb_eq in Ex. subst x. exfalso. exact (H1 t E).
Qed.

Lemma firstn_incl (A : Type) n (l : list A) x : In x (firstn n l) -> In x l.
Proof.
  intros H. rewrite <- (firstn_skipn n l). apply in_or_app. now left.
Qed.

Lemma slice_to_incl s n x : In x (slice_to s n) -> In x s.
Proof.
  unfold slice_to. destruct (0 <=? n)%Z; apply firstn_incl.
Qed.

Lemma slice_to_length s n :
  (0 <= n)%Z -> (Z.of_nat (length (slice_to s n)) <= n)%Z.
Proof.
  intros H. unfold slice_to. rewrite (proj2 (Z.leb_le 0 n) H).
  rewrite length_firstn. lia.
Qed.

Lemma slice_to_all s n :
  (Z.of_nat (length s) <= n)%Z -> slice_to s n = s.
Proof.
  intros H. unfold slice_to. rewrite (proj2 (Z.leb_le 0 n)) by lia.
  apply firstn_all2. lia.
Qed.

Lemma sanitize_filename_cases s maxlen :
  let s2 :=
    strip_char (ch "_")
      (slice_to
         (List.map (fun c => if is_filename_char c then c else ch "_") s)
         maxlen) in
  (s2 <> [] /\ sanitize_filename_maxlen s maxlen = s2)
  \/ (s2 = [] /\ sanitize_filename_maxlen s maxlen = str "group").
Proof.
  intros s2. unfold sanitize_filename_maxlen. fold s2.
  destruct s2; [right|left]; split; try reflexivity. discriminate.
Qed.

Lemma group_safe maxlen : (5 <= maxlen)%Z -> filename_safe (str "group") maxlen.
Proof.
  intros H. split; [discriminate|]. split.
  - repeat constructor.
  - split; [intros t E; discriminate E|]. split.
    + intros t E. apply (f_equal (@rev N)) in E.
      rewrite rev_app_distr in E. discriminate E.
    + cbn. lia.
Qed.

Lemma sanitize_filename_of_safe s maxlen :
  filename_safe s maxlen -> sanitize_filename_maxlen s maxlen = s.
Proof.
  intros [Hne [Hch [Hhd [Hlast Hlen]]]]. unfold sanitize_filename_maxlen.
  rewrite map_fixed.
  - rewrite slice_to_all by exact Hlen.
    rewrite strip_char_fixed by assumption.
    destruct s; [congruence|reflexivity].
  - rewrite Forall_forall in Hch. intros c Hc. now rewrite (Hch c Hc).
Qed.

Lemma sanitize_filename_result s maxlen :
  let r := sanitize_filename_maxlen s maxlen in
  r <> []
  /\ Forall (fun c => is_filename_char c = true) r
  /\ (forall t, r <> ch "_" :: t)
  /\ (forall t, r <> t ++ [ch "_"])
  /\ ((0 <= maxlen)%Z -> (Z.of_nat (length r) <= Z.max maxlen 5)%Z).
Proof.
  intros r. unfold r.
  destruct (sanitize_filename_cases s maxlen) as [[Hne ->]|[_ ->]].
  - split; [exact Hne|]. split; [|split; [|split]].
    + apply Forall_forall. intros c Hc.
      apply strip_char_incl, slice_to_incl in Hc.
      apply in_map_iff in Hc. destruct Hc as [x [<- _]].
      destruct (is_filename_char x) eqn:E; [exact E|reflexivity].
    + apply strip_char_ends.
    + apply strip_char_ends.
    + intros Hm.
      pose proof (strip_char_length (ch "_")
                    (slice_to
                       (List.map
                          (fun c => if is_filename_char c then c else ch "_")
                          s) maxlen)) as H1.
      pose proof (slice_to_length
                    (List.map
                       (fun c => if is_filename_char c then c else ch "_")
                       s) Hm) as H2.
      lia.
  - destruct (@group_safe 5) as [H1 [H2 [H3 [H4 _]]]]; [lia|].
    split; [exact H1|]. split; [exact H2|]. split; [exact H3|].
    split; [exact H4|]. intros _. cbn [length str]. cbn. lia.
Qed.

(** X11.  Whatever the input, [sanitize_filename] returns a name that is
    not empty, holds only characters of [A-Za-z0-9_-], neither starts nor
    ends with an underscore, and with the default [maxlen] has at most 64
    characters. *)
Theorem sanitize_filename_safe (s : pystr) (maxlen : Z) :
  let r := sanitize_filename_maxlen s maxlen in
  r <> []
  /\ Forall (fun c => is_filename_char c = true) r
  /\ (forall t, r <> ch "_" :: t)
  /\ (forall t, r <> t ++ [ch "_"])
  /\ length (sanitize_filename s) <= 64.
Proof.
  destruct (sanitize_filename_result s maxlen) as [H1 [H2 [H3 [H4 _]]]].
  cbv zeta. split; [exact H1|]. split; [exact H2|]. split; [exact H3|].
  split; [exact H4|].
  destruct (sanitize_filename_result s MAX_FILENAME_LEN)
    as [_ [_ [_ [_ H5]]]].
  unfold sanitize_filename. unfold MAX_FILENAME_LEN in *. lia.
Qed.

(** X12.  For a [maxlen] of five or more, [sanitize_filename] leaves a
    name as it is exactly when the name is fit for a file name: not
    empty, over [A-Za-z0-9_-], without an underscore at either end, and
    of at most [maxlen] characters.  A second pass changes nothing. *)
Theorem sanitize_filename_fixed (s : pystr) (maxlen : Z) :
  (5 <= maxlen)%Z ->
  (sanitize_filename_maxlen s maxlen = s <-> filename_safe s maxlen)
  /\ sanitize_filename_maxlen (sanitize_filename_maxlen s maxlen) maxlen
     = sanitize_filename_maxlen s maxlen.
Proof.
  intros Hm.
  assert (Hsafe : forall x, filename_safe (sanitize_filename_maxlen x maxlen)
                              maxlen).
  { intros x.
    destruct (sanitize_filename_result x maxlen) as [H1 [H2 [H3 [H4 H5]]]].
    repeat split; try assumption. specialize (H5 ltac:(lia)). lia. }
  split; [split|].
  - intros E. rewrite <- E. apply Hsafe.
  - apply sanitize_filename_of_safe.
  - apply sanitize_filename_of_safe. apply Hsafe.
Qed.

Lemma sanitize_filename_fixed_witness :
  (5 <= MAX_FILENAME_LEN)%Z
  /\ sanitize_filename (sanitize_filename (str "Gold Farmer #1"))
     = sanitize_filename (str "Gold Farmer #1").
Proof.
  assert (H : (5 <= MAX_FILENAME_LEN)%Z) by (unfold MAX_FILENAME_LEN; lia).
  split; [exact H|].
  exact (proj2 (sanitize_filename_fixed (str "Gold Farmer #1") H)).
Defined.

(** X13.  The name of the file that [process_batches] writes for a group
    holds no path separator and no dot before its extension: it is made
    of characters of [A-Za-z0-9_-], followed by [.json], and has at most
    134 characters. *)
Theorem group_file_name_safe (entry_name first_username : pystr) :
  exists stem,
    group_file_name entry_name first_username = stem ++ str ".json"
    /\ Forall (fun c => is_filename_char c = true) stem
    /\ length stem <= 129.
Proof.
  unfold group_file_name.
  set (u := if nonempty first_username then first_username else str "group").
  exists (sanitize_filename entry_name ++ str "_" ++ sanitize_filename u).
  destruct (sanitize_filename_result entry_name MAX_FILENAME_LEN)
    as [_ [A2 [_ [_ A5]]]].
  destruct (sanitize_filename_result u MAX_FILENAME_LEN)
    as [_ [B2 [_ [_ B5]]]].
  fold (sanitize_filename entry_name) in A2, A5.
  fold (sanitize_filename u) in B2, B5.
  split; [now rewrite <- !app_assoc|]. split.
  - apply Forall_app. split; [exact A2|].
    apply Forall_app. split; [repeat constructor|exact B2].
  - rewrite !length_app. unfold MAX_FILENAME_LEN in *. cbn [length str].
    cbn. lia.
Qed.

(** ** Edge cases of the cluster builder *)

Lemma filter_none (A : Type) (f : A -> bool) (l : list A) :
  (forall x, In x l -> f x = false) -> List.filter f l = [].
Proof.
  induction l as [|x l IH]; intros H; cbn [List.filter]; [reflexivity|].
  rewrite H by now left. apply IH. intros y Hy. apply H. now right.
Qed.

Lemma set_of_fold_nodup l acc :
  NoDup acc ->
  NoDup (fold_left (fun acc u => if uid_mem u acc then acc else acc ++ [u])
           l acc).
Proof.
  revert acc. induction l as [|u l IH]; intros acc H; cbn [fold_left];
    [exact H|].
  apply IH. destruct (uid_mem u acc) eqn:E; [exact H|].
  apply uid_mem_false in E.
  apply NoDup_app; [exact H|repeat constructor; intros []|].
  intros x Hx [<-|[]]. exact (E Hx).
Qed.

Lemma set_of_fold_length l acc :
  length (fold_left (fun acc u => if uid_mem u acc then acc else acc ++ [u])
            l acc)
  <= length acc + length l.
Proof.
  revert acc. induction l as [|u l IH]; intros acc; cbn [fold_left length];
    [lia|].
  specialize (IH (if uid_mem u acc then acc else acc ++ [u])).
  destruct (uid_mem u acc); [lia|].
  rewrite length_app in IH. cbn [length] in IH. lia.
Qed.

Lemma concat_member_length (A : Type) (g : list A) (l : list (list A)) :
  In g l -> length g <= length (concat l).
Proof.
  induction l as [|h l IH]; [intros []|].
  cbn [concat]. rewrite length_app. intros [->|H]; [lia|].
  specialize (IH H). lia.
Qed.

(** What [cluster_similar_users] returns: the groups that were formed and
    are large enough. *)
Lemma cluster_similar_users_formed unidecode set_iter users name_threshold
    min_group groups :
  cluster_similar_users unidecode set_iter users name_threshold min_group
  = Ok groups ->
  exists entries,
    entries_of users = Ok entries
    /\ groups
       = List.filter (fun g => min_group <=? length g)
           (formed_groups unidecode set_iter entries name_threshold entries
              (set_of (List.map fst entries))).
Proof.
  intros H. unfold cluster_similar_users in H.
  destruct (entries_of users) as [entries|e] eqn:Ee; cbn [bind] in H;
    [|discriminate].
  exists entries. split; [reflexivity|].
  pose proof (@seed_loop_inv unidecode entries name_threshold set_iter
                min_group entries (set_of (List.map fst entries)) []
                groups H) as Hc.
  rewrite (@seed_loop_run unidecode entries name_threshold set_iter
             min_group entries (set_of (List.map fst entries)) [] Hc) in H.
  cbn [app] in H. inversion H. reflexivity.
Qed.

Section ClusterExtras.

Variable unidecode : pystr -> pystr.
Variable set_iter : list uid -> list uid.

(** X14.  With a threshold above 1.0 no account joins another one, so
    [cluster_similar_users] returns no group of two or more. *)
Theorem cluster_similar_users_threshold_above_one (users : pydict)
    (name_threshold : Q) (min_group : nat) (groups : list (list uid)) :
  (1 < name_threshold)%Q ->
  2 <= min_group ->
  cluster_similar_users unidecode set_iter users name_threshold min_group
  = Ok groups ->
  groups = [].
Proof.
  intros Hthr Hmin H.
  destruct (cluster_similar_users_formed _ _ _ _ _ H) as [entries [_ ->]].
  apply filter_none. intros g Hg.
  destruct (@formed_groups_members unidecode set_iter entries
              name_threshold entries (set_of (List.map fst entries)) g Hg)
    as [seed [nm [members [-> [_ Hmem]]]]].
  apply Nat.leb_gt. destruct members as [|m members]; [cbn; lia|].
  exfalso.
  destruct (joined_true _ _ _ _ _ (Hmem m (or_introl eq_refl)))
    as [m_nm [sim [_ [Es Hle]]]].
  apply max_variant_similarity_dyn_range in Es. destruct Es as [_ Es].
  apply (Qlt_not_le _ _ Hthr). eapply Qle_trans; eassumption.
Qed.

Hypothesis set_iter_perm : forall l, Permutation (set_iter l) l.

Lemma formed_group_length entries name_threshold g :
  In g (formed_groups unidecode set_iter entries name_threshold entries
          (set_of (List.map fst entries))) ->
  length g <= length entries.
Proof.
  intros Hg.
  pose proof (@formed_groups_NoDup unidecode set_iter entries
                name_threshold set_iter_perm entries
                (set_of (List.map fst entries))) as Hnd.
  assert (Hset : NoDup (set_of (List.map fst entries)))
    by (apply set_of_fold_nodup; constructor).
  specialize (Hnd Hset).
  assert (Hincl : incl
                    (concat (formed_groups unidecode set_iter entries
                               name_threshold entries
                               (set_of (List.map fst entries))))
                    (set_of (List.map fst entries))).
  { intros x Hx.
    exact (@formed_groups_incl unidecode set_iter entries name_threshold
             set_iter_perm entries _ x Hx). }
  pose proof (NoDup_incl_length Hnd Hincl) as Hlen.
  pose proof (concat_member_length _ _ Hg) as Hg'.
  pose proof (set_of_fold_length (List.map fst entries) []) as Hs.
  fold (set_of (List.map fst entries)) in Hs.
  rewrite length_map in Hs. cbn [length] in Hs. lia.
Qed.

Lemma cluster_few (users : pydict) (name_threshold : Q) (min_group : nat)
    (groups : list (list uid)) :
  length users < min_group ->
  cluster_similar_users unidecode set_iter users name_threshold min_group
  = Ok groups ->
  groups = [].
Proof.
  intros Hfew H.
  destruct (cluster_similar_users_formed _ _ _ _ _ H)
    as [entries [Ee ->]].
  apply filter_none. intros g Hg. apply Nat.leb_gt.
  pose proof (formed_group_length _ _ _ Hg) as Hlen.
  pose proof (entries_of_keys _ Ee) as Ek.
  apply (f_equal (@length uid)) in Ek. rewrite !length_map in Ek. lia.
Qed.

Variable parse_float : pystr -> option F.float.

(** X15.  A batch with fewer accounts than the minimum group size gives
    no group: [cluster_similar_users] returns the empty list, and
    [process_batch], with its minimum of three, reports nothing. *)
Theorem process_batch_few (data : pydict) :
  (forall name_threshold min_group groups,
     length data < min_group ->
     cluster_similar_users unidecode set_iter data name_threshold min_group
     = Ok groups ->
     groups = [])
  /\ (length data < MIN_GROUP_SIZE ->
      forall suspicious,
        process_batch unidecode parse_float set_iter data = Ok suspicious ->
        suspicious = []).
Proof.
  split.
  - intros thr min groups. apply cluster_few.
  - intros Hfew suspicious H. unfold process_batch in H.
    destruct (cluster_similar_users unidecode set_iter data
                NAME_SIMILARITY_THRESHOLD MIN_GROUP_SIZE)
      as [clusters|e] eqn:Ec; cbn [bind] in H; [|discriminate].
    apply cluster_few in Ec; [|exact Hfew]. subst clusters.
    cbn [filter_clusters] in H.
    inversion H. reflexivity.
Qed.

(** A name without a variant is similar to nothing. *)
Lemma similarity_no_variants_l s x sim :
  normalize_name_variants unidecode s = [] ->
  max_variant_similarity_dyn unidecode (PStr s) x = Ok sim -> sim = 0%Q.
Proof.
  intros E. unfold max_variant_similarity_dyn.
  assert (En : normalize_name_variants_dyn unidecode (PStr s) = Ok []).
  { unfold normalize_name_variants_dyn, py_or. cbn [truthy].
    destruct s; cbn [nonempty]; now rewrite E. }
  rewrite En. cbn [bind].
  destruct (normalize_name_variants_dyn unidecode x) as [b_vars|e];
    cbn [bind]; [|discriminate].
  intros H. inversion H. reflexivity.
Qed.

Lemma similarity_no_variants_r s x sim :
  normalize_name_variants unidecode s = [] ->
  max_variant_similarity_dyn unidecode x (PStr s) = Ok sim -> sim = 0%Q.
Proof.
  intros E. unfold max_variant_similarity_dyn.
  assert (En : normalize_name_variants_dyn unidecode (PStr s) = Ok []).
  { unfold normalize_name_variants_dyn, py_or. cbn [truthy].
    destruct s; cbn [nonempty]; now rewrite E. }
  rewrite En.
  destruct (normalize_name_variants_dyn unidecode x) as [a_vars|e];
    cbn [bind]; [|discriminate].
  intros H. inversion H.
  rewrite similarity_rows_scan, ratios_nil_r. reflexivity.
Qed.

(** X16.  An account whose name holds no letter and no digit, the empty
    name included, is in no returned cluster, for a positive threshold
    and a minimum size of two or more. *)
Theorem account_without_letters_not_clustered (users : pydict)
    (name_threshold : Q) (min_group : nat) (groups : list (list uid))
    (u : uid) (udata : pyval) (s : pystr) :
  NoDup (List.map fst users) ->
  (0 < name_threshold)%Q ->
  2 <= min_group ->
  cluster_similar_users unidecode set_iter users name_threshold min_group
  = Ok groups ->
  In (u, udata) users ->
  username_of udata = Ok (PStr s) ->
  is_ascii (unidecode s) = true ->
  (forall c, In c (unidecode s) -> is_alnum c = false) ->
  forall g, In g groups -> ~ In u g.
Proof.
  intros Hkeys Hthr Hmin H Hin Hname Hascii Hsym g Hg Hu.
  assert (Hnone : normalize_name_variants unidecode s = [])
    by (apply (proj2 (normalize_empty_iff unidecode s Hascii)); exact Hsym).
  destruct (cluster_similar_users_formed _ _ _ _ _ H)
    as [entries [Ee Hgroups]].
  pose proof (entries_of_keys _ Ee) as Ek.
  rewrite Hgroups in Hg. apply filter_In in Hg.
  destruct Hg as [Hg Hlen]. apply Nat.leb_le in Hlen.
  destruct (@formed_groups_members unidecode set_iter entries
              name_threshold entries (set_of (List.map fst entries)) g Hg)
    as [seed [nm [members [-> [Hseed Hmem]]]]].
  assert (Hempty : forall nm', In (u, nm') entries -> nm' = PStr s).
  { intros nm' H'.
    destruct (entries_of_In _ _ _ Ee H') as [r [H1 H2]].
    rewrite (NoDup_keys_unique _ _ _ _ Hkeys H1 Hin) in H2. congruence. }
  assert (Hzero : ~ (name_threshold <= 0)%Q)
    by (apply Qlt_not_le; exact Hthr).
  destruct Hu as [->|Hu].
  - rewrite (Hempty nm Hseed) in Hmem.
    destruct members as [|m members]; [cbn [length] in Hlen; lia|].
    destruct (joined_true _ _ _ _ _ (Hmem m (or_introl eq_refl)))
      as [m_nm [sim [_ [Es Hle]]]].
    rewrite (@similarity_no_variants_l _ _ _ Hnone Es) in Hle.
    exact (Hzero Hle).
  - destruct (joined_true _ _ _ _ _ (Hmem u Hu))
      as [m_nm [sim [Hm [Es Hle]]]].
    rewrite (Hempty m_nm Hm) in Es.
    rewrite (@similarity_no_variants_r _ _ _ Hnone Es) in Hle.
    exact (Hzero Hle).
Qed.

(** *** The exceptions of a batch *)

Lemma max_variant_similarity_dyn_raises x y e :
  max_variant_similarity_dyn unidecode x y = Raise e -> e = AttributeError.
Proof.
  unfold max_variant_similarity_dyn, normalize_name_variants_dyn.
  destruct (py_or x (PStr [])); cbn [bind]; try congruence.
  destruct (py_or y (PStr [])); cbn [bind]; congruence.
Qed.

Lemma entries_of_raise users e :
  entries_of users = Raise e -> e = AttributeError.
Proof.
  induction users as [|[u udata] rest IH]; cbn [entries_of];
    [discriminate|].
  destruct (username_of udata) as [uname|e'] eqn:E; cbn [bind].
  - destruct (entries_of rest) as [es|e'']; cbn [bind]; [discriminate|].
    intros H. inversion H; subst. now apply IH.
  - intros H. inversion H; subst. exact (username_of_raises _ E).
Qed.

Lemma scan_others_raises entries nm name_threshold to_check group
    unassigned e :
  (forall o, In o to_check -> In o (List.map fst entries)) ->
  scan_others unidecode entries nm name_threshold to_check group unassigned
  = Raise e ->
  e = AttributeError.
Proof.
  revert group unassigned.
  induction to_check as [|o rest IH]; intros group unassigned Hin H;
    cbn [scan_others] in H; [discriminate|].
  destruct (name_map_get_key entries o (Hin o (or_introl eq_refl)))
    as [onm Eo].
  rewrite Eo in H. cbn [bind] in H.
  destruct (max_variant_similarity_dyn unidecode nm onm) as [sim|e'] eqn:Es;
    cbn [bind] in H.
  - assert (Hrest : forall x, In x rest -> In x (List.map fst entries))
      by (intros x Hx; apply Hin; now right).
    destruct (Qle_bool name_threshold sim); eapply IH; eassumption.
  - inversion H; subst. exact (max_variant_similarity_dyn_raises _ _ Es).
Qed.

Lemma seed_loop_raises entries name_threshold min_group todo unassigned
    clusters e :
  (forall x, In x unassigned -> In x (List.map fst entries)) ->
  seed_loop unidecode set_iter entries name_threshold min_group todo
    unassigned clusters = Raise e ->
  e = AttributeError.
Proof.
  revert unassigned clusters.
  induction todo as [|[u nm] rest IH]; intros unassigned clusters Hun H;
    cbn [seed_loop] in H; [discriminate|].
  destruct (negb (uid_mem u unassigned)); [eapply IH; eassumption|].
  assert (Hcheck : forall o, In o (set_iter (set_remove u unassigned)) ->
                     In o (List.map fst entries)).
  { intros o Ho. apply (Permutation_in _ (set_iter_perm _)) in Ho.
    apply set_remove_In in Ho. apply Hun. tauto. }
  destruct (scan_others unidecode entries nm name_threshold
              (set_iter (set_remove u unassigned)) [u]
              (set_remove u unassigned)) as [st|e'] eqn:E;
    cbn [bind] in H.
  - pose proof (scan_others_inv _ _ _ _ _ _ _ E) as Hc.
    rewrite (scan_others_run _ _ _ _ _ _ Hc) in E. inversion E; subst st.
    assert (Hun' : forall x,
              In x (remove_all
                      (List.filter
                         (joined unidecode entries nm name_threshold)
                         (set_iter (set_remove u unassigned)))
                      (set_remove u unassigned)) ->
              In x (List.map fst entries)).
    { intros x Hx. apply remove_all_In in Hx. destruct Hx as [Hx _].
      apply set_remove_In in Hx. apply Hun. tauto. }
    destruct (min_group <=? _); eapply IH; eassumption.
  - inversion H; subst. eapply scan_others_raises; eassumption.
Qed.

Lemma cluster_similar_users_raises users name_threshold min_group e :
  cluster_similar_users unidecode set_iter users name_threshold min_group
  = Raise e ->
  e = AttributeError.
Proof.
  unfold cluster_similar_users.
  destruct (entries_of users) as [entries|e'] eqn:Ee; cbn [bind].
  - apply seed_loop_raises. intros x Hx. now apply set_of_incl.
  - intros H. inversion H; subst. exact (entries_of_raise _ Ee).
Qed.

Lemma numeric_score_raises val e :
  numeric_score parse_float val = Raise e -> e = OverflowError.
Proof.
  unfold numeric_score, float_of_int.
  destruct val as [|b|z|f|s|l|d]; try discriminate.
  - destruct (F.is_inf _); cbn [bind]; congruence.
  - destruct (F.is_inf _); cbn [bind]; congruence.
Qed.

Lemma payload_step_raises users st u e :
  payload_step parse_float users st u = Raise e ->
  e = AttributeError \/ e = OverflowError.
Proof.
  destruct st as [[accounts names] scores]. unfold payload_step.
  destruct (username_of _) as [uname|e'] eqn:Eu; cbn [bind].
  - destruct (py_get _ _ _) as [score|e'] eqn:Eg; cbn [bind].
    + destruct (numeric_score parse_float score) as [sc|e'] eqn:En;
        cbn [bind]; [discriminate|].
      intros H. inversion H; subst. right.
      exact (numeric_score_raises _ En).
    + intros H. inversion H; subst. left. revert Eg. unfold py_get.
      destruct (dict_get_default users u (PDict [])); congruence.
  - intros H. inversion H; subst. left. exact (username_of_raises _ Eu).
Qed.

Lemma payload_loop_raises users group_uids st e :
  payload_loop parse_float users group_uids st = Raise e ->
  e = AttributeError \/ e = OverflowError.
Proof.
  revert st. induction group_uids as [|u rest IH]; intros st;
    cbn [payload_loop]; [discriminate|].
  destruct (payload_step parse_float users st u) as [st'|e'] eqn:E;
    cbn [bind]; [apply IH|].
  intros H. inversion H; subst. exact (payload_step_raises _ _ _ E).
Qed.

Lemma pair_row_raises x rest acc e :
  pair_row unidecode x rest acc = Raise e -> e = AttributeError.
Proof.
  revert acc. induction rest as [|y rest IH]; intros acc;
    cbn [pair_row]; [discriminate|].
  destruct (max_variant_similarity_dyn unidecode x y) as [sim|e'] eqn:E;
    cbn [bind]; [apply IH|].
  intros H. inversion H; subst.
  exact (max_variant_similarity_dyn_raises _ _ E).
Qed.

Lemma pair_rows_raises names acc e :
  pair_rows unidecode names acc = Raise e -> e = AttributeError.
Proof.
  revert acc. induction names as [|x rest IH]; intros acc;
    cbn [pair_rows]; [discriminate|].
  destruct (pair_row unidecode x rest acc) as [acc'|e'] eqn:E;
    cbn [bind]; [apply IH|].
  intros H. inversion H; subst. exact (pair_row_raises _ _ _ E).
Qed.

Lemma pairwise_avg_similarity_raises names e :
  pairwise_avg_similarity unidecode names = Raise e -> e = AttributeError.
Proof.
  unfold pairwise_avg_similarity.
  destruct (length names <? 2); [discriminate|].
  destruct (pair_rows unidecode names (0%Q, 0)) as [acc|e'] eqn:E;
    cbn [bind].
  - destruct (snd acc); discriminate.
  - intros H. inversion H; subst. exact (pair_rows_raises _ _ E).
Qed.

Lemma build_group_payload_raises group_uids users e :
  build_group_payload unidecode parse_float group_uids users = Raise e ->
  e = AttributeError \/ e = OverflowError.
Proof.
  unfold build_group_payload.
  destruct (payload_loop parse_float users group_uids ([], [], []))
    as [[[accounts names] scores]|e'] eqn:El; cbn [bind].
  - destruct (pairwise_avg_similarity unidecode names) as [avg|e'] eqn:Ea;
      cbn [bind].
    + destruct scores as [|s0 scores']; cbn [bind]; [discriminate|].
      destruct (@median_total (s0 :: scores')) as [m Em]; [discriminate|].
      rewrite Em. cbn [bind].
      destruct (scores_consistent_returns (s0 :: scores')
                  SCORE_TOLERANCE_RATIO) as [ok Es].
      rewrite Es. cbn [bind]. discriminate.
    + intros H. inversion H; subst. left.
      exact (pairwise_avg_similarity_raises _ Ea).
  - intros H. inversion H; subst. exact (payload_loop_raises _ _ _ El).
Qed.

Lemma filter_clusters_raises data clusters acc e :
  filter_clusters unidecode parse_float data clusters acc = Raise e ->
  e = AttributeError \/ e = OverflowError.
Proof.
  revert acc. induction clusters as [|c rest IH]; intros acc;
    cbn [filter_clusters]; [discriminate|].
  destruct (build_group_payload unidecode parse_float c data)
    as [p|e'] eqn:E; cbn [bind].
  - destruct (kept p); apply IH.
  - intros H. inversion H; subst. exact (build_group_payload_raises _ _ E).
Qed.

(** X17.  The only exceptions of a batch are the [AttributeError] of a
    record, a [latest] or a username of the wrong type and the
    [OverflowError] of a score beyond the doubles.  The lookups
    [name_map[other]] never raise [KeyError], and the median is never
    taken of no score. *)
Theorem process_batch_raises (data : pydict) (e : exn) :
  process_batch unidecode parse_float set_iter data = Raise e ->
  e = AttributeError \/ e = OverflowError.
Proof.
  unfold process_batch.
  destruct (cluster_similar_users unidecode set_iter data
              NAME_SIMILARITY_THRESHOLD MIN_GROUP_SIZE)
    as [clusters|e'] eqn:Ec; cbn [bind].
  - apply filter_clusters_raises.
  - intros H. inversion H; subst. left.
    exact (cluster_similar_users_raises _ _ _ Ec).
Qed.

End ClusterExtras.

Lemma cluster_similar_users_threshold_above_one_witness :
  (1 < 2)%Q /\ 2 <= MIN_GROUP_SIZE
  /\ cluster_similar_users unidecode_table (fun l => l) gold_batch 2%Q
       MIN_GROUP_SIZE = Ok [].
Proof.
  assert (H1 : (1 < 2)%Q) by reflexivity.
  assert (H2 : 2 <= MIN_GROUP_SIZE) by (unfold MIN_GROUP_SIZE; lia).
  split; [exact H1|]. split; [exact H2|].
  destruct (cluster_similar_users unidecode_table (fun l => l) gold_batch
              2%Q MIN_GROUP_SIZE) as [groups|e] eqn:E.
  - f_equal.
    exact (@cluster_similar_users_threshold_above_one unidecode_table
             (fun l => l) gold_batch 2%Q MIN_GROUP_SIZE groups H1 H2 E).
  - exfalso. vm_compute in E. discriminate E.
Defined.

Lemma process_batch_few_witness :
  length [(str "1", account (str "GoldFarmer1") 500);
          (str "3", account (str "GoldFarmer2") 520)] < MIN_GROUP_SIZE
  /\ process_batch unidecode_table no_text_scores (fun l => l)
       [(str "1", account (str "GoldFarmer1") 500);
        (str "3", account (str "GoldFarmer2") 520)] = Ok [].
Proof.
  assert (Hperm : forall l : list uid, Permutation ((fun l => l) l) l)
    by (intros l; apply Permutation_refl).
  assert (Hfew : length [(str "1", account (str "GoldFarmer1") 500);
                         (str "3", account (str "GoldFarmer2") 520)]
                 < MIN_GROUP_SIZE) by (cbn; unfold MIN_GROUP_SIZE; lia).
  split; [exact Hfew|].
  destruct (process_batch unidecode_table no_text_scores (fun l => l)
              [(str "1", account (str "GoldFarmer1") 500);
               (str "3", account (str "GoldFarmer2") 520)])
    as [suspicious|e] eqn:E.
  - f_equal.
    exact (proj2 (@process_batch_few unidecode_table (fun l => l) Hperm
                    no_text_scores _) Hfew suspicious E).
  - exfalso. vm_compute in E. discriminate E.
Defined.

Lemma account_without_letters_not_clustered_witness :
  exists groups,
    cluster_similar_users unidecode_table (fun l => l) symbol_batch
      NAME_SIMILARITY_THRESHOLD MIN_GROUP_SIZE = Ok groups
    /\ forall g, In g groups -> ~ In (str "2") g.
Proof.
  destruct (cluster_similar_users unidecode_table (fun l => l) symbol_batch
              NAME_SIMILARITY_THRESHOLD MIN_GROUP_SIZE)
    as [groups|e] eqn:E.
  - exists groups. split; [reflexivity|].
    apply (@account_without_letters_not_clustered unidecode_table
             (fun l => l) symbol_batch NAME_SIMILARITY_THRESHOLD
             MIN_GROUP_SIZE groups (str "2") (account (str "-_-") 505)
             (str "-_-")).
    + vm_compute.
      repeat (constructor; [cbn; intuition discriminate|]). constructor.
    + reflexivity.
    + unfold MIN_GROUP_SIZE. lia.
    + exact E.
    + right. left. reflexivity.
    + reflexivity.
    + reflexivity.
    + intros c Hc. vm_compute in Hc.
      repeat (destruct Hc as [<-|Hc]; [reflexivity|]). destruct Hc.
  - exfalso. vm_compute in E. discriminate E.
Defined.

Lemma process_batch_raises_witness :
  process_batch unidecode_table no_text_scores (fun l => l)
    [(str "u1", PDict [(k_latest, PNone)])] = Raise AttributeError
  /\ (AttributeError = AttributeError \/ AttributeError = OverflowError).
Proof.
  assert (Hperm : forall l : list uid, Permutation ((fun l => l) l) l)
    by (intros l; apply Permutation_refl).
  assert (E : process_batch unidecode_table no_text_scores (fun l => l)
                [(str "u1", PDict [(k_latest, PNone)])]
              = Raise AttributeError) by reflexivity.
  split; [exact E|].
  exact (@process_batch_raises unidecode_table (fun l => l) Hperm
           no_text_scores _ _ E).
Defined.

(** ** The payload of a group *)

Lemma update_fields_skipped fields acct k :
  k = k_latest \/ k = k_score ->
  dict_lookup (update_fields fields acct) k = dict_lookup acct k.
Proof.
  intros Hk. unfold update_fields. revert acct.
  induction fields as [|[k0 v0] t IH]; intros acct; cbn [fold_left];
    [reflexivity|].
  cbn [fst snd].
  destruct (pystr_eqb k0 k_latest || pystr_eqb k0 k_score) eqn:E;
    [apply IH|].
  rewrite IH, dict_lookup_set.
  destruct (pystr_eqb k k0) eqn:E0; [|reflexivity].
  apply pystr_eqb_eq in E0. subst k0.
  apply orb_false_elim in E. destruct E as [E1 E2].
  destruct Hk as [->| ->]; [rewrite pystr_eqb_refl in E1
                           |rewrite pystr_eqb_refl in E2]; discriminate.
Qed.

Lemma update_fields_absent fields acct k :
  dict_lookup fields k = None ->
  dict_lookup (update_fields fields acct) k = dict_lookup acct k.
Proof.
  unfold update_fields. revert acct.
  induction fields as [|[k0 v0] t IH]; intros acct; cbn [fold_left];
    [reflexivity|].
  cbn [dict_lookup fst snd].
  destruct (pystr_eqb k k0) eqn:E0; [discriminate|]. intros H.
  destruct (pystr_eqb k0 k_latest || pystr_eqb k0 k_score);
    [now apply IH|].
  rewrite IH by exact H. rewrite dict_lookup_set, E0. reflexivity.
Qed.

Lemma dict_lookup_absent (d : pydict) k :
  ~ In k (List.map fst d) -> dict_lookup d k = None.
Proof.
  induction d as [|[k0 v0] t IH]; cbn [dict_lookup List.map fst In];
    [reflexivity|].
  intros H. destruct (pystr_eqb k k0) eqn:E.
  - apply pystr_eqb_eq in E. subst k0. tauto.
  - apply IH. tauto.
Qed.

Lemma update_fields_present fields acct k v :
  NoDup (List.map fst fields) ->
  k <> k_latest -> k <> k_score ->
  dict_lookup fields k = Some v ->
  dict_lookup (update_fields fields acct) k = Some v.
Proof.
  intros Hnd H1 H2. unfold update_fields. revert acct.
  induction fields as [|[k0 v0] t IH]; intros acct;
    cbn [fold_left dict_lookup]; [discriminate|].
  cbn [fst snd]. inversion Hnd as [|x l Hx Ht]; subst.
  destruct (pystr_eqb k k0) eqn:E0.
  - apply pystr_eqb_eq in E0. subst k0. intros H. inversion H; subst v0.
    rewrite (proj2 (pystr_eqb_neq k k_latest) H1).
    rewrite (proj2 (pystr_eqb_neq k k_score) H2). cbn [orb].
    fold (update_fields t (dict_set acct k v)).
    rewrite update_fields_absent by (apply dict_lookup_absent; exact Hx).
    rewrite dict_lookup_set, pystr_eqb_refl. reflexivity.
  - intros H.
    destruct (pystr_eqb k0 k_latest || pystr_eqb k0 k_score);
      apply IH; assumption.
Qed.

Section PayloadExtras.

Variable unidecode : pystr -> pystr.
Variable parse_float : pystr -> option F.float.

(** One round of the loop over the members of a group. *)
Lemma payload_step_account users accounts names scores u st' :
  payload_step parse_float users (accounts, names, scores) u = Ok st' ->
  exists d uname score sc,
    record_of users u = PDict d
    /\ username_of (PDict d) = Ok uname
    /\ dict_get_default d k_score PNone = score
    /\ numeric_score parse_float score = Ok sc
    /\ st' = (accounts
              ++ [update_fields d
                    (match sc with
                     | Some f =>
                         dict_set [(k_user_id, PStr u); (k_username, uname)]
                           k_score (PFloat f)
                     | None => [(k_user_id, PStr u); (k_username, uname)]
                     end)],
              names ++ [uname],
              match sc with Some f => scores ++ [f] | None => scores end).
Proof.
  unfold payload_step, record_of.
  destruct (dict_get_default users u (PDict [])) as [| | | | | |d] eqn:Er;
    try (cbn; discriminate).
  destruct (username_of (PDict d)) as [uname|e] eqn:Eu; cbn [bind];
    [|discriminate].
  cbn [py_get bind].
  destruct (numeric_score parse_float (dict_get_default d k_score PNone))
    as [sc|e] eqn:En; cbn [bind]; [|discriminate].
  intros H. inversion H; subst st'.
  exists d, uname, (dict_get_default d k_score PNone), sc.
  repeat split; try assumption.
Qed.

Lemma payload_loop_members users group_uids accounts names scores st' :
  payload_loop parse_float users group_uids (accounts, names, scores)
  = Ok st' ->
  exists accounts' names',
    fst (fst st') = accounts ++ accounts'
    /\ snd (fst st') = names ++ names'
    /\ length accounts' = length group_uids
    /\ length names' = length group_uids
    /\ forall i u, nth_error group_uids i = Some u ->
         exists acct nm,
           nth_error accounts' i = Some acct
           /\ nth_error names' i = Some nm
           /\ member_ok parse_float users u acct nm.
Proof.
  revert accounts names scores.
  induction group_uids as [|u rest IH]; intros accounts names scores H;
    cbn [payload_loop] in H.
  - inversion H; subst. exists [], []. cbn [fst snd].
    rewrite !app_nil_r. repeat split; try reflexivity.
    intros i u Hi. destruct i; discriminate Hi.
  - destruct (payload_step parse_float users (accounts, names, scores) u)
      as [st1|e] eqn:E; cbn [bind] in H; [|discriminate].
    destruct (payload_step_account _ _ _ _ _ E)
      as [d [uname [score [sc [Hr [Hu [Hs [Hn ->]]]]]]]].
    apply IH in H.
    destruct H as [accounts' [names' [H1 [H2 [L1 [L2 Hm]]]]]].
    eexists (_ :: accounts'), (uname :: names').
    rewrite H1, H2, <- !app_assoc. cbn [app length].
    repeat split; try reflexivity; try (f_equal; assumption).
    intros i x Hi. destruct i as [|i]; cbn [nth_error] in *.
    + inversion Hi; subst x. eexists. exists uname.
      split; [reflexivity|]. split; [reflexivity|].
      exists d, sc. subst score. repeat split; assumption.
    + now apply Hm.
Qed.

(** The state of the loop when [build_group_payload] returns. *)
Lemma build_group_payload_loop group_uids users p :
  build_group_payload unidecode parse_float group_uids users = Ok p ->
  exists names scores,
    payload_loop parse_float users group_uids ([], [], [])
    = Ok (accounts p, names, scores)
    /\ usernames p
       = List.map (fun a => dict_get_default a k_username PNone) (accounts p)
    /\ count p = length (accounts p).
Proof.
  unfold build_group_payload. intros H.
  destruct (payload_loop parse_float users group_uids ([], [], []))
    as [[[accs names] scores]|e] eqn:El; cbn [bind] in H; [|discriminate].
  destruct (pairwise_avg_similarity unidecode names) as [avg|e];
    cbn [bind] in H; [|discriminate].
  exists names, scores.
  destruct scores as [|s0 scores'].
  - cbn [bind] in H. inversion H; subst p. cbn. repeat split.
  - destruct (median (s0 :: scores')) as [m|e]; cbn [bind] in H;
      [|discriminate].
    destruct (scores_consistent (s0 :: scores') SCORE_TOLERANCE_RATIO)
      as [ok|e]; cbn [bind] in H; [|discriminate].
    inversion H; subst p. cbn. repeat split.
Qed.

Lemma build_group_payload_member group_uids users p i u :
  build_group_payload unidecode parse_float group_uids users = Ok p ->
  nth_error group_uids i = Some u ->
  length (accounts p) = length group_uids
  /\ exists acct nm,
       nth_error (accounts p) i = Some acct
       /\ member_ok parse_float users u acct nm.
Proof.
  intros H Hi.
  destruct (build_group_payload_loop _ _ H) as [names [scores [El _]]].
  destruct (payload_loop_members _ _ _ _ _ El)
    as [accounts' [names' [H1 [_ [L1 [_ Hm]]]]]].
  cbn [fst snd app] in H1. rewrite H1. split; [exact L1|].
  destruct (Hm i u Hi) as [acct [nm [Ha [_ Hok]]]].
  exists acct, nm. split; assumption.
Qed.

(** X18.  A payload has one account and one username for every member of
    the group, known to the batch or not, and [count] is their number. *)
Theorem build_group_payload_count (group_uids : list uid) (users : pydict)
    (p : payload) :
  build_group_payload unidecode parse_float group_uids users = Ok p ->
  count p = length group_uids
  /\ length (usernames p) = length group_uids
  /\ length (accounts p) = length group_uids.
Proof.
  intros H.
  destruct (build_group_payload_loop _ _ H) as [names [scores [El [Eu Ec]]]].
  destruct (payload_loop_members _ _ _ _ _ El)
    as [accounts' [names' [H1 [_ [L1 _]]]]].
  cbn [fst snd app] in H1.
  rewrite Ec, Eu, length_map, H1. repeat split; exact L1.
Qed.

(** X19.  No account of a payload holds the key [latest], and its key
    [score] holds the float that [numeric_score] made of the record's
    score, or is absent when there is none; the score of the record is
    never copied as it stands. *)
Theorem build_group_payload_accounts (group_uids : list uid)
    (users : pydict) (p : payload) (i : nat) (u : uid) :
  build_group_payload unidecode parse_float group_uids users = Ok p ->
  nth_error group_uids i = Some u ->
  exists acct d sc,
    nth_error (accounts p) i = Some acct
    /\ record_of users u = PDict d
    /\ numeric_score parse_float (dict_get_default d k_score PNone) = Ok sc
    /\ dict_lookup acct k_latest = None
    /\ dict_lookup acct k_score = option_map PFloat sc.
Proof.
  intros H Hi.
  destruct (build_group_payload_member _ _ _ H Hi)
    as [_ [acct [nm [Ha [d [sc [Hr [_ [Hn ->]]]]]]]]].
  eexists. exists d, sc. split; [exact Ha|]. split; [exact Hr|].
  split; [exact Hn|].
  rewrite !update_fields_skipped by (auto).
  destruct sc as [f|]; cbn [option_map].
  - rewrite !dict_lookup_set, pystr_eqb_refl. split; reflexivity.
  - split; reflexivity.
Qed.

(** X20.  The entry of [usernames] for a member is the name that was
    compared, [latest.username], unless the record has a field
    [username] of its own, which then takes its place. *)
Theorem build_group_payload_usernames (group_uids : list uid)
    (users : pydict) (p : payload) (i : nat) (u : uid) :
  build_group_payload unidecode parse_float group_uids users = Ok p ->
  nth_error group_uids i = Some u ->
  exists d nm,
    record_of users u = PDict d
    /\ nth_error (usernames p) i = Some nm
    /\ match dict_lookup d k_username with
       | None => username_of (PDict d) = Ok nm
       | Some v => NoDup (List.map fst d) -> nm = v
       end.
Proof.
  intros H Hi.
  destruct (build_group_payload_loop _ _ H) as [_ [_ [_ [Eu _]]]].
  destruct (build_group_payload_member _ _ _ H Hi)
    as [_ [acct [nm [Ha [d [sc [Hr [Hu [Hn ->]]]]]]]]].
  exists d. eexists. split; [exact Hr|].
  split; [rewrite Eu; apply map_nth_error; exact Ha|].
  unfold dict_get_default.
  destruct (dict_lookup d k_username) as [v|] eqn:Ed.
  - intros Hnd.
    rewrite (@update_fields_present d _ k_username v Hnd);
      [reflexivity|discriminate|discriminate|exact Ed].
  - rewrite (@update_fields_absent d _ k_username Ed).
    destruct sc as [f|]; [rewrite dict_lookup_set|]; exact Hu.
Qed.

End PayloadExtras.

Lemma build_group_payload_count_witness :
  exists p,
    build_group_payload unidecode_table no_text_scores
      [str "1"; str "3"; str "5"] gold_batch = Ok p
    /\ count p = 3.
Proof.
  destruct (build_group_payload unidecode_table no_text_scores
              [str "1"; str "3"; str "5"] gold_batch) as [p|e] eqn:E.
  - exists p. split; [reflexivity|].
    exact (proj1 (build_group_payload_count _ _ _ _ E)).
  - exfalso. vm_compute in E. discriminate E.
Defined.

Lemma build_group_payload_accounts_witness :
  exists p acct,
    build_group_payload unidecode_table no_text_scores
      [str "1"; str "3"; str "5"] gold_batch = Ok p
    /\ nth_error (accounts p) 1 = Some acct
    /\ dict_lookup acct k_latest = None
    /\ dict_lookup acct k_score = Some (PFloat (F.of_Z 520)).
Proof.
  destruct (build_group_payload unidecode_table no_text_scores
              [str "1"; str "3"; str "5"] gold_batch) as [p|e] eqn:E.
  - destruct (@build_group_payload_accounts unidecode_table no_text_scores
                [str "1"; str "3"; str "5"] gold_batch p 1 (str "3") E
                eq_refl)
      as [acct [d [sc [Ha [Hr [Hn [Hl Hs]]]]]]].
    exists p, acct. split; [reflexivity|]. split; [exact Ha|].
    split; [exact Hl|].
    vm_compute in Hr. inversion Hr; subst d.
    vm_compute in Hn. inversion Hn; subst sc.
    rewrite Hs. vm_compute. reflexivity.
  - exfalso. vm_compute in E. discriminate E.
Defined.

Lemma build_group_payload_usernames_witness :
  exists p,
    build_group_payload unidecode_table no_text_scores [str "1"]
      renamed_batch = Ok p
    /\ nth_error (usernames p) 0 = Some (PStr (str "Other")).
Proof.
  destruct (build_group_payload unidecode_table no_text_scores [str "1"]
              renamed_batch) as [p|e] eqn:E.
  - destruct (@build_group_payload_usernames unidecode_table
                no_text_scores [str "1"] renamed_batch p 0 (str "1") E
                eq_refl)
      as [d [nm [Hr [Hu Hm]]]].
    exists p. split; [reflexivity|]. rewrite Hu. f_equal.
    vm_compute in Hr. inversion Hr; subst d.
    apply Hm. vm_compute.
    repeat (constructor; [cbn; intuition discriminate|]). constructor.
  - exfalso. vm_compute in E. discriminate E.
Defined.

(** ** The summary fields of a payload *)

Lemma round3_range x :
  (0 <= x <= 1)%Q ->
  exists k : Z, (0 <= k <= 1000)%Z /\ round3 x = (k # 1000)%Q.
Proof.
  intros [H0 H1]. unfold round3.
  destruct x as [n d]. unfold Qle in H0, H1. cbn [Qnum Qden] in *.
  assert (Hn : (0 <= n * 1000)%Z) by lia.
  assert (Hd : (0 < Z.pos d)%Z) by lia.
  pose proof (Z.div_mod (n * 1000) (Z.pos d) ltac:(lia)) as Hdm.
  pose proof (Z.mod_pos_bound (n * 1000) (Z.pos d) Hd) as Hr.
  assert (Hq0 : (0 <= n * 1000 / Z.pos d)%Z) by (apply Z.div_pos; lia).
  assert (Hq1 : (n * 1000 / Z.pos d <= 1000)%Z).
  { apply Z.div_le_upper_bound; lia. }
  assert (Htop : (n * 1000 / Z.pos d = 1000 ->
                  (n * 1000) mod Z.pos d = 0)%Z) by nia.
  eexists. split; [|reflexivity].
  destruct (2 * ((n * 1000) mod Z.pos d) <? Z.pos d)%Z eqn:E1; [lia|].
  apply Z.ltb_ge in E1.
  assert (Hlt : (n * 1000 / Z.pos d < 1000)%Z).
  { destruct (Z.eq_dec (n * 1000 / Z.pos d) 1000) as [E|E]; [|lia].
    specialize (Htop E). lia. }
  destruct (Z.pos d <? 2 * ((n * 1000) mod Z.pos d))%Z; [lia|].
  destruct (Z.even _); lia.
Qed.

Section SummaryExtras.

Variable unidecode : pystr -> pystr.
Variable parse_float : pystr -> option F.float.

(** X21.  The average name similarity of a payload is a number of
    thousandths between 0.0 and 1.0, and a payload without a median score
    is not score-consistent. *)
Theorem build_group_payload_summary (group_uids : list uid)
    (users : pydict) (p : payload) :
  build_group_payload unidecode parse_float group_uids users = Ok p ->
  (exists k : Z,
     (0 <= k <= 1000)%Z /\ avg_name_similarity p = (k # 1000)%Q)
  /\ (median_score p = None -> score_consistent p = false).
Proof.
  unfold build_group_payload. intros H.
  destruct (payload_loop parse_float users group_uids ([], [], []))
    as [[[accs names] scores]|e]; cbn [bind] in H; [|discriminate].
  destruct (pairwise_avg_similarity unidecode names) as [avg|e] eqn:Ea;
    cbn [bind] in H; [|discriminate].
  apply pairwise_avg_similarity_bounds in Ea.
  destruct scores as [|s0 scores'].
  - cbn [bind] in H. inversion H; subst p. cbn.
    split; [now apply round3_range|reflexivity].
  - destruct (median (s0 :: scores')) as [m|e]; cbn [bind] in H;
      [|discriminate].
    destruct (scores_consistent (s0 :: scores') SCORE_TOLERANCE_RATIO)
      as [ok|e]; cbn [bind] in H; [|discriminate].
    inversion H; subst p. cbn.
    split; [now apply round3_range|discriminate].
Qed.

End SummaryExtras.

Lemma build_group_payload_summary_witness :
  exists p,
    build_group_payload unidecode_table no_text_scores
      [str "1"; str "3"; str "5"] gold_batch = Ok p
    /\ exists k : Z,
         (0 <= k <= 1000)%Z /\ avg_name_similarity p = (k # 1000)%Q.
Proof.
  destruct (build_group_payload unidecode_table no_text_scores
              [str "1"; str "3"; str "5"] gold_batch) as [p|e] eqn:E.
  - exists p. split; [reflexivity|].
    exact (proj1 (build_group_payload_summary _ _ _ _ E)).
  - exfalso. vm_compute in E. discriminate E.
Defined.

(** ** The files of the collection *)

Lemma string_of_uint_inj d d' :
  DecimalString.NilEmpty.string_of_uint d
  = DecimalString.NilEmpty.string_of_uint d' ->
  d = d'.
Proof.
  revert d'.
  induction d as [|d IH|d IH|d IH|d IH|d IH|d IH|d IH|d IH|d IH|d IH];
    intros d' H; destruct d';
    cbn [DecimalString.NilEmpty.string_of_uint] in H;
    try discriminate H; try reflexivity;
    inversion H as [H']; f_equal; now apply IH.
Qed.

Lemma string_of_uint_digits d :
  Forall (fun c => Py.is_digit c = true)
    (str (DecimalString.NilEmpty.string_of_uint d)).
Proof.
  induction d; cbn [DecimalString.NilEmpty.string_of_uint];
    unfold str in *;
    cbn [list_ascii_of_string List.map]; constructor;
    try reflexivity; assumption.
Qed.

Lemma to_uint_nonnil n : Nat.to_uint n <> Decimal.Nil.
Proof.
  rewrite <- (DecimalNat.Unsigned.of_to n) at 1.
  rewrite DecimalNat.Unsigned.to_of. apply DecimalFacts.unorm_nonnil.
Qed.

Lemma str_inj s s' : str s = str s' -> s = s'.
Proof.
  unfold str. intros H.
  assert (E : list_ascii_of_string s = list_ascii_of_string s').
  { revert H. generalize (list_ascii_of_string s) as l.
    generalize (list_ascii_of_string s') as l'.
    intros l' l. revert l'.
    induction l as [|a l IH]; intros l' H; destruct l'; try discriminate H;
      [reflexivity|].
    cbn [List.map] in H. inversion H as [[Ha Hl]].
    f_equal; [|now apply IH].
    rewrite <- (ascii_N_embedding a), <- (ascii_N_embedding a0).
    now rewrite Ha. }
  rewrite <- (string_of_list_ascii_of_string s),
    <- (string_of_list_ascii_of_string s').
  now rewrite E.
Qed.

Lemma str_of_nat_inj n n' : str_of_nat n = str_of_nat n' -> n = n'.
Proof.
  unfold str_of_nat. intros H. apply str_inj in H.
  apply DecimalNat.Unsigned.to_uint_inj.
  pose proof (to_uint_nonnil n) as Hn. pose proof (to_uint_nonnil n') as Hn'.
  destruct (Nat.to_uint n) eqn:E; [congruence| | | | | | | | | |];
    destruct (Nat.to_uint n') eqn:E'; try congruence;
    apply string_of_uint_inj; exact H.
Qed.

Lemma str_of_nat_digits n :
  Forall (fun c => Py.is_digit c = true) (str_of_nat n).
Proof.
  unfold str_of_nat. pose proof (to_uint_nonnil n) as Hn.
  pose proof (string_of_uint_digits (Nat.to_uint n)) as H.
  destruct (Nat.to_uint n); [congruence| | | | | | | | | |]; exact H.
Qed.

(** Two strings that agree up to the first [x] of each. *)
Lemma split_at_first (x : N) l1 r1 l2 r2 :
  ~ In x l1 -> ~ In x l2 ->
  l1 ++ x :: r1 = l2 ++ x :: r2 -> l1 = l2.
Proof.
  revert l2. induction l1 as [|a l1 IH]; intros l2 H1 H2 E;
    destruct l2 as [|b l2]; cbn [app] in E.
  - reflexivity.
  - inversion E; subst. exfalso. apply H2. now left.
  - inversion E; subst. exfalso. apply H1. now left.
  - inversion E; subst. f_equal. apply IH; try assumption.
    + intros H. apply H1. now right.
    + intros H. apply H2. now right.
Qed.

Lemma collection_file_name_index (i j : nat) (a b : pystr) :
  collection_file_name i a = collection_file_name j b -> i = j.
Proof.
  unfold collection_file_name. intros H.
  apply app_inv_head in H.
  apply str_of_nat_inj.
  assert (Hd : forall n, ~ In (ch "_") (str_of_nat n)).
  { intros n Hin. pose proof (str_of_nat_digits n) as Hf.
    rewrite Forall_forall in Hf. specialize (Hf _ Hin).
    discriminate Hf. }
  change (str "_") with [ch "_"] in H. cbn [app] in H.
  eapply split_at_first; [apply Hd|apply Hd|exact H].
Qed.

(** X22.  The files of [suspicious_accounts_collections] never overwrite
    each other: the names of two groups with different indices are
    different, whatever their first usernames. *)
Theorem collection_file_name_distinct (i j : nat) (a b : pystr) :
  i <> j -> collection_file_name i a <> collection_file_name j b.
Proof.
  intros Hij H. apply Hij. exact (@collection_file_name_index i j a b H).
Qed.

Lemma collection_file_name_distinct_witness :
  1 <> 2
  /\ collection_file_name 1 (str "GoldFarmer1")
     <> collection_file_name 2 (str "GoldFarmer1").
Proof.
  assert (H : 1 <> 2) by discriminate.
  split; [exact H|].
  exact (@collection_file_name_distinct 1 2 (str "GoldFarmer1")
           (str "GoldFarmer1") H).
Defined.

(** ** Accounts with the same name *)

Lemma name_map_get_unique entries u nm :
  NoDup (List.map fst entries) -> In (u, nm) entries ->
  name_map_get entries u = Ok nm.
Proof.
  intros Hnd Hin.
  destruct (name_map_get_key entries u) as [nm' E].
  { change u with (fst (u, nm)). now apply in_map. }
  rewrite E. f_equal.
  exact (NoDup_keys_unique _ _ _ _ Hnd (name_map_get_In _ _ E) Hin).
Qed.

Section TwinExtras.

Variable unidecode : pystr -> pystr.
Variable set_iter : list uid -> list uid.

Hypothesis set_iter_perm : forall l, Permutation (set_iter l) l.

Lemma similarity_self s :
  normalize_name_variants unidecode s <> [] ->
  exists sim,
    max_variant_similarity_dyn unidecode (PStr s) (PStr s) = Ok sim
    /\ (sim == 1)%Q.
Proof.
  intros Hne. rewrite max_variant_similarity_dyn_typed.
  eexists. split; [reflexivity|].
  unfold max_variant_similarity.
  pose proof (@normalize_variant_nonempty unidecode s) as Hnon.
  destruct (normalize_name_variants unidecode s) as [|v rest];
    [congruence|].
  assert (Hv : nonempty v = true) by (apply Hnon; left; reflexivity).
  pose proof (name_similarity_refl v Hv) as Hone.
  cbn [similarity_rows similarity_row].
  assert (E1 : Qlt_bool 0 (name_similarity v v) = true).
  { apply Qlt_bool_iff. rewrite Hone. reflexivity. }
  assert (E2 : Qle_bool (999 # 1000) (name_similarity v v) = true).
  { apply Qle_bool_iff. rewrite Hone. unfold Qle. simpl. lia. }
  rewrite E1, E2. exact Hone.
Qed.

Variable entries : list (uid * pyval).
Variable name_threshold : Q.
Variables u u' : uid.
Variable s : pystr.

Hypothesis entries_nodup : NoDup (List.map fst entries).
Hypothesis threshold_le_one : (name_threshold <= 1)%Q.
Hypothesis name_u : In (u, PStr s) entries.
Hypothesis name_u' : In (u', PStr s) entries.
Hypothesis has_variant : normalize_name_variants unidecode s <> [].

Lemma joined_twins nm :
  joined unidecode entries nm name_threshold u
  = joined unidecode entries nm name_threshold u'.
Proof.
  unfold joined, joins.
  rewrite (@name_map_get_unique entries u (PStr s) entries_nodup name_u).
  rewrite (@name_map_get_unique entries u' (PStr s) entries_nodup name_u').
  reflexivity.
Qed.

Lemma joined_twin_of_seed :
  joined unidecode entries (PStr s) name_threshold u = true.
Proof.
  unfold joined, joins.
  rewrite (@name_map_get_unique entries u (PStr s) entries_nodup name_u).
  cbn [bind].
  destruct (@similarity_self s has_variant) as [sim [E Hone]].
  rewrite E. cbn [bind]. apply Qle_bool_iff. rewrite Hone.
  exact threshold_le_one.
Qed.

Lemma formed_groups_twins todo un g :
  (forall x nm, In (x, nm) todo -> In (x, nm) entries) ->
  (In u un <-> In u' un) ->
  In g (formed_groups unidecode set_iter entries name_threshold todo un) ->
  (In u g <-> In u' g).
Proof.
  revert un. induction todo as [|[x nm] rest IH]; intros un Htodo Hun Hg;
    cbn [formed_groups] in Hg; [destruct Hg|].
  assert (Hrest : forall y n, In (y, n) rest -> In (y, n) entries)
    by (intros y n H; apply Htodo; now right).
  destruct (uid_mem x un) eqn:Ex; cbn [negb] in Hg;
    [|exact (IH un Hrest Hun Hg)].
  cbv zeta in Hg.
  set (un1 := set_remove x un) in *.
  set (members := List.filter (joined unidecode entries nm name_threshold)
                    (set_iter un1)) in *.
  assert (Hmem : forall y, In y members <->
                   In y un1
                   /\ joined unidecode entries nm name_threshold y = true).
  { intros y. unfold members. rewrite filter_In. split; intros [H1 H2].
    - split; [|exact H2].
      eapply Permutation_in; [apply set_iter_perm|exact H1].
    - split; [|exact H2].
      eapply Permutation_in; [apply Permutation_sym, set_iter_perm|exact H1]. }
  assert (Hnm : In (x, nm) entries) by (apply Htodo; now left).
  apply uid_mem_In in Ex.
  (* the group of this seed holds both twins or none *)
  assert (Hgroup : In u (x :: members) <-> In u' (x :: members)).
  { destruct (list_eq_dec N.eq_dec x u) as [Exu|Nxu].
    - subst x.
      assert (nm = PStr s)
        by exact (NoDup_keys_unique _ _ _ _ entries_nodup Hnm name_u).
      subst nm. split; intros _.
      + destruct (list_eq_dec N.eq_dec u u') as [E|N]; [now left|].
        right. apply Hmem. split.
        * apply set_remove_In. split; [apply Hun; exact Ex|congruence].
        * rewrite <- joined_twins. exact joined_twin_of_seed.
      + now left.
    - destruct (list_eq_dec N.eq_dec x u') as [Exu'|Nxu'].
      + subst x.
        assert (nm = PStr s)
          by exact (NoDup_keys_unique _ _ _ _ entries_nodup Hnm name_u').
        subst nm. split; intros _; [now left|].
        right. apply Hmem. split.
        * apply set_remove_In. split; [apply Hun; exact Ex|congruence].
        * exact joined_twin_of_seed.
      + cbn [In]. rewrite !Hmem. unfold un1. rewrite !set_remove_In.
        rewrite (joined_twins nm). split.
        * intros [H|[[H1 H2] H3]]; [congruence|].
          right. split; [split; [now apply Hun|congruence]|exact H3].
        * intros [H|[[H1 H2] H3]]; [congruence|].
          right. split; [split; [now apply Hun|congruence]|exact H3]. }
  destruct Hg as [<-|Hg]; [exact Hgroup|].
  apply (IH (remove_all members un1) Hrest); [|exact Hg].
  rewrite !remove_all_In. unfold un1. rewrite !set_remove_In.
  cbn [In] in Hgroup.
  destruct (list_eq_dec N.eq_dec x u) as [Exu|Nxu];
    destruct (list_eq_dec N.eq_dec x u') as [Exu'|Nxu'].
  - subst. tauto.
  - subst x. split; [intros [[_ H] _]; congruence|].
    intros [[H1 H2] H3]. exfalso. apply H3. tauto.
  - subst x. split; [|intros [[_ H] _]; congruence].
    intros [[H1 H2] H3]. exfalso. apply H3. tauto.
  - split; intros [[H1 H2] H3].
    + split; [split; [now apply Hun|congruence]|].
      intros H. apply H3. destruct (proj2 Hgroup (or_intror H)); congruence.
    + split; [split; [now apply Hun|congruence]|].
      intros H. apply H3. destruct (proj1 Hgroup (or_intror H)); congruence.
Qed.

End TwinExtras.

Lemma entries_of_member users entries u udata :
  entries_of users = Ok entries ->
  In (u, udata) users ->
  exists nm, username_of udata = Ok nm /\ In (u, nm) entries.
Proof.
  revert entries. induction users as [|[u0 udata0] rest IH];
    intros entries H Hin; [destruct Hin|].
  cbn [entries_of] in H.
  destruct (username_of udata0) as [uname|e] eqn:E0; cbn [bind] in H;
    [|discriminate].
  destruct (entries_of rest) as [es|e]; cbn [bind] in H; [|discriminate].
  inversion H; subst entries. destruct Hin as [Heq|Hin].
  - inversion Heq; subst. exists uname. split; [exact E0|now left].
  - destruct (IH es eq_refl Hin) as [nm [H1 H2]].
    exists nm. split; [exact H1|now right].
Qed.

(** X23.  Two accounts with the same username are never separated: for a
    threshold of at most 1.0 and a name that has a variant, every
    returned cluster holds both of them or neither. *)
Theorem same_name_same_cluster (unidecode : pystr -> pystr)
    (set_iter : list uid -> list uid) (users : pydict)
    (name_threshold : Q) (min_group : nat) (groups : list (list uid))
    (u u' : uid) (udata udata' : pyval) (s : pystr) :
  (forall l, Permutation (set_iter l) l) ->
  NoDup (List.map fst users) ->
  (name_threshold <= 1)%Q ->
  cluster_similar_users unidecode set_iter users name_threshold min_group
  = Ok groups ->
  In (u, udata) users ->
  In (u', udata') users ->
  username_of udata = Ok (PStr s) ->
  username_of udata' = Ok (PStr s) ->
  normalize_name_variants unidecode s <> [] ->
  forall g, In g groups -> (In u g <-> In u' g).
Proof.
  intros Hperm Hkeys Hthr H Hin Hin' Hname Hname' Hvar g Hg.
  destruct (cluster_similar_users_formed _ _ _ _ _ H)
    as [entries [Ee Hgroups]].
  pose proof (entries_of_keys _ Ee) as Ek.
  assert (Hnd : NoDup (List.map fst entries)) by (rewrite Ek; exact Hkeys).
  destruct (entries_of_member _ _ _ Ee Hin) as [nm [E1 Hu]].
  destruct (entries_of_member _ _ _ Ee Hin') as [nm' [E1' Hu']].
  assert (nm = PStr s) by congruence. subst nm.
  assert (nm' = PStr s) by congruence. subst nm'.
  rewrite Hgroups in Hg. apply filter_In in Hg. destruct Hg as [Hg _].
  apply (@formed_groups_twins unidecode set_iter Hperm entries
           name_threshold u u' s Hnd Hthr Hu Hu' Hvar entries
           (set_of (List.map fst entries)) g).
  - intros x n Hx. exact Hx.
  - rewrite (set_of_NoDup Hnd). split; intros _.
    + change u' with (fst (u', PStr s)). now apply in_map.
    + change u with (fst (u, PStr s)). now apply in_map.
  - exact Hg.
Qed.

Lemma same_name_same_cluster_witness :
  exists groups,
    cluster_similar_users unidecode_table (fun l => l) twin_batch
      NAME_SIMILARITY_THRESHOLD MIN_GROUP_SIZE = Ok groups
    /\ forall g, In g groups -> (In (str "2") g <-> In (str "4") g).
Proof.
  destruct (cluster_similar_users unidecode_table (fun l => l) twin_batch
              NAME_SIMILARITY_THRESHOLD MIN_GROUP_SIZE)
    as [groups|e] eqn:E.
  - exists groups. split; [reflexivity|].
    apply (@same_name_same_cluster unidecode_table (fun l => l) twin_batch
             NAME_SIMILARITY_THRESHOLD MIN_GROUP_SIZE groups
             (str "2") (str "4") (account (str "Alex") 10)
             (account (str "Alex") 9999) (str "Alex")).
    + intros l. apply Permutation_refl.
    + vm_compute.
      repeat (constructor; [cbn; intuition discriminate|]). constructor.
    + unfold NAME_SIMILARITY_THRESHOLD, Qle. simpl. lia.
    + exact E.
    + right. left. reflexivity.
    + do 3 right. left. reflexivity.
    + reflexivity.
    + reflexivity.
    + vm_compute. discriminate.
  - exfalso. vm_compute in E. discriminate E.
Defined.

(** ** Names that are written differently *)

Lemma filter_dropwhile (g p : N -> bool) s :
  (forall c, p c = true -> g c = false) ->
  List.filter g (Py.dropwhile p s) = List.filter g s.
Proof.
  intros H. induction s as [|c t IH]; cbn [Py.dropwhile List.filter];
    [reflexivity|].
  destruct (p c) eqn:E; [|reflexivity].
  now rewrite (H c E).
Qed.

Lemma filter_strip (g : N -> bool) s :
  (forall c, Py.is_space c = true -> g c = false) ->
  List.filter g (Py.strip s) = List.filter g s.
Proof.
  intros H. unfold Py.strip, Py.rstrip, Py.lstrip.
  rewrite filter_rev, (filter_dropwhile g _ _ H), filter_rev,
    rev_involutive.
  apply filter_dropwhile. exact H.
Qed.

Lemma filter_sub_runs_from (g p : N -> bool) repl r s :
  (forall c, p c = true -> g c = false) ->
  List.filter g repl = [] ->
  List.filter g (Py.sub_runs_from p repl r s) = List.filter g s.
Proof.
  intros H Hrepl. revert r.
  induction s as [|c t IH]; intros r; cbn [Py.sub_runs_from List.filter];
    [reflexivity|].
  destruct (p c) eqn:E.
  - rewrite (H c E). destruct r; [apply IH|].
    rewrite filter_app, Hrepl. apply IH.
  - cbn [List.filter]. now rewrite IH.
Qed.

Lemma sub_runs_from_chars p repl r s c :
  In c (Py.sub_runs_from p repl r s) ->
  (In c s /\ p c = false) \/ In c repl.
Proof.
  revert r. induction s as [|d t IH]; intros r; cbn [Py.sub_runs_from];
    [intros []|].
  destruct (p d) eqn:E.
  - destruct r.
    + intros H. destruct (IH _ H) as [[H1 H2]|H1]; [left|right]; [|exact H1].
      split; [now right|exact H2].
    + intros H. apply in_app_or in H. destruct H as [H|H]; [now right|].
      destruct (IH _ H) as [[H1 H2]|H1]; [left|right]; [|exact H1].
      split; [now right|exact H2].
  - intros [<-|H]; [left; split; [now left|exact E]|].
    destruct (IH _ H) as [[H1 H2]|H1]; [left|right]; [|exact H1].
    split; [now right|exact H2].
Qed.

Lemma space_not_alnum c :
  Py.is_space c = true -> Py.is_alnum_lower c = false.
Proof.
  intros H. destruct (Py.is_alnum_lower c) eqn:E; [|reflexivity].
  destruct (alnum_not_separator _ E) as [_ H2]. congruence.
Qed.

Lemma name_separator_not_alnum c :
  is_name_separator c = true -> Py.is_alnum_lower c = false.
Proof.
  intros H. destruct (Py.is_alnum_lower c) eqn:E; [|reflexivity].
  destruct (alnum_not_separator _ E) as [H1 _]. congruence.
Qed.

Lemma map_filter_comm_in (A : Type) (f : A -> A) (g g' : A -> bool)
    (l : list A) :
  (forall x, In x l -> g' (f x) = g x) ->
  List.map f (List.filter g l) = List.filter g' (List.map f l).
Proof.
  induction l as [|x l IH]; intros H; cbn [List.filter List.map];
    [reflexivity|].
  rewrite (H x) by now left.
  rewrite <- IH by (intros y Hy; apply H; now right).
  destruct (g x); reflexivity.
Qed.

(** [de_leet] keeps a lower-case letter, a digit or a space in its
    class. *)
Lemma de_leet_char_alnum c :
  Py.is_alnum_lower c = true \/ c = 32%N ->
  Py.is_alnum_lower (de_leet_char c) = Py.is_alnum_lower c.
Proof.
  intros H.
  assert (Hc : (c < 128)%N).
  { destruct H as [H| ->]; [|lia].
    unfold Py.is_alnum_lower, Py.is_lower, Py.is_digit, Py.in_range in H.
    destruct (c <? 128)%N eqn:E; [now apply N.ltb_lt|].
    apply N.ltb_ge in E.
    rewrite (proj2 (N.leb_gt c 122)), (proj2 (N.leb_gt c 57)) in H by lia.
    rewrite !andb_false_r in H. discriminate H. }
  assert (Hall : implb (Py.is_alnum_lower c || (c =? 32)%N)
                   (Bool.eqb (Py.is_alnum_lower (de_leet_char c))
                      (Py.is_alnum_lower c)) = true).
  { revert c Hc H. intros c Hc _. revert c Hc. apply ascii_cases.
    vm_compute. reflexivity. }
  assert (Hp : Py.is_alnum_lower c || (c =? 32)%N = true).
  { destruct H as [H| ->]; [now rewrite H|]. apply orb_true_r. }
  rewrite Hp in Hall. cbn [implb] in Hall. now apply eqb_prop.
Qed.

Lemma de_leet_lower s : de_leet (Py.lower s) = de_leet s.
Proof.
  unfold de_leet, Py.lower. rewrite map_map. apply map_ext. intros c.
  destruct (c <? 128)%N eqn:E.
  - apply N.ltb_lt in E. apply N.eqb_eq. revert c E.
    apply (ascii_cases
             (fun c => (de_leet_char (Py.lower_char c) =? de_leet_char c)%N)).
    vm_compute. reflexivity.
  - apply N.ltb_ge in E.
    assert (El : Py.lower_char c = c).
    { unfold Py.lower_char, Py.in_range.
      rewrite (proj2 (N.leb_gt c 90)) by lia. now rewrite andb_false_r. }
    now rewrite El.
Qed.

Section SkeletonExtras.

Variable unidecode : pystr -> pystr.

Lemma v1_of_chars base c :
  (forall x, In x base -> is_base_char x = true) ->
  In c (v1_of base) -> Py.is_alnum_lower c = true \/ c = 32%N.
Proof.
  intros Hb Hc. unfold v1_of, Py.sub_runs in Hc.
  apply sub_runs_from_chars in Hc. destruct Hc as [[Hc _]|Hc].
  - apply strip_incl in Hc. apply sub_runs_from_chars in Hc.
    destruct Hc as [[Hc Hs]|Hc].
    + left. specialize (Hb c Hc). unfold is_base_char in Hb.
      rewrite Hs, orb_false_r in Hb. exact Hb.
    + right. destruct Hc as [<-|[]]. reflexivity.
  - right. destruct Hc as [<-|[]]. reflexivity.
Qed.

Lemma clean_v1_of raw :
  is_ascii (unidecode raw) = true ->
  clean (v1_of (base_of unidecode raw))
  = Py.lower (List.filter is_alnum (unidecode raw)).
Proof.
  intros Hascii. rewrite clean_filter. unfold v1_of, Py.sub_runs.
  rewrite filter_sub_runs_from; [|exact space_not_alnum|reflexivity].
  rewrite filter_strip by exact space_not_alnum.
  rewrite filter_sub_runs_from;
    [|exact name_separator_not_alnum|reflexivity].
  unfold base_of. rewrite (replace_homoglyphs_fixed _ Hascii).
  rewrite filter_strip by exact space_not_alnum.
  unfold Py.sub_each_empty. rewrite filter_absorb.
  - unfold Py.lower. symmetry. apply map_filter_comm_in.
    intros x _. apply alnum_lower_char.
  - intros x Hx. unfold is_base_char. now rewrite Hx.
Qed.

(** The skeleton of a name is one of its variants. *)
Lemma skeleton_variant raw :
  is_ascii (unidecode raw) = true ->
  skeleton (unidecode raw) <> [] ->
  In (skeleton (unidecode raw)) (normalize_name_variants unidecode raw).
Proof.
  intros Hascii Hne.
  assert (E : clean (de_leet (v1_of (base_of unidecode raw)))
              = skeleton (unidecode raw)).
  { rewrite clean_filter. unfold de_leet at 1.
    rewrite <- (@map_filter_comm_in N de_leet_char Py.is_alnum_lower
                  Py.is_alnum_lower).
    - fold (de_leet (List.filter Py.is_alnum_lower
                       (v1_of (base_of unidecode raw)))).
      rewrite <- clean_filter, (clean_v1_of _ Hascii).
      apply de_leet_lower.
    - intros x Hx. apply de_leet_char_alnum.
      apply (@v1_of_chars (base_of unidecode raw)); [|exact Hx].
      intros y Hy. apply base_of_In in Hy. tauto. }
  rewrite <- E in *. rewrite normalize_unfold.
  unfold normalize_name_variants_leet. apply filter_In. split.
  - apply in_map. unfold dedup. apply dedup_fold_complete.
    unfold variants_of. cbv zeta. unfold LEET_MODE.
    right. right. right. left. reflexivity.
  - destruct (clean _); [congruence|reflexivity].
Qed.

(** X24.  Two names with the same letters and digits, up to case, to the
    substitutions of [LEET_SUBS] and to every other character, have a
    variant in common: their similarity is 0.999 or more, and 1.0 when
    their transliterations have fewer than 1000 characters together. *)
Theorem max_variant_similarity_skeleton (a_raw b_raw : pystr) :
  is_ascii (unidecode a_raw) = true ->
  is_ascii (unidecode b_raw) = true ->
  skeleton (unidecode a_raw) = skeleton (unidecode b_raw) ->
  skeleton (unidecode a_raw) <> [] ->
  (999 # 1000 <= max_variant_similarity unidecode a_raw b_raw)%Q
  /\ (length (unidecode a_raw) + length (unidecode b_raw) < 1000 ->
      (max_variant_similarity unidecode a_raw b_raw == 1)%Q).
Proof.
  intros Ha Hb Heq Hne.
  pose proof (skeleton_variant _ Ha Hne) as Hva.
  assert (Hne' : skeleton (unidecode b_raw) <> [])
    by (rewrite <- Heq; exact Hne).
  pose proof (skeleton_variant _ Hb Hne') as Hvb.
  rewrite <- Heq in Hvb.
  unfold max_variant_similarity.
  pose proof (@normalize_variant_nonempty unidecode a_raw) as Hnon.
  pose proof (@normalize_variant_length unidecode a_raw) as Hla.
  pose proof (@normalize_variant_length unidecode b_raw) as Hlb.
  revert Hva Hvb Hnon Hla Hlb.
  generalize (skeleton (unidecode a_raw)) as v.
  generalize (normalize_name_variants unidecode a_raw) as a_vars.
  generalize (normalize_name_variants unidecode b_raw) as b_vars.
  intros b_vars a_vars v Hva Hvb Hnon Hla Hlb.
  destruct (@similarity_rows_one a_vars b_vars Hnon) as [_ [H2 H3]].
  assert (Hc : exists v, In v a_vars /\ In v b_vars)
    by (exists v; split; assumption).
  split; [exact (H2 Hc)|].
  intros Hshort. apply H3; [|exact Hc]. intros av bv Hav Hbv.
  specialize (Hla av Hav). specialize (Hlb bv Hbv). lia.
Qed.

End SkeletonExtras.

Lemma max_variant_similarity_skeleton_witness :
  skeleton (unidecode_table (str "G0ld_Farmer"))
  = skeleton (unidecode_table (str "gold farmer!!"))
  /\ (max_variant_similarity unidecode_table (str "G0ld_Farmer")
        (str "gold farmer!!") == 1)%Q.
Proof.
  assert (Heq : skeleton (unidecode_table (str "G0ld_Farmer"))
                = skeleton (unidecode_table (str "gold farmer!!")))
    by (vm_compute; reflexivity).
  split; [exact Heq|].
  apply (@max_variant_similarity_skeleton unidecode_table
           (str "G0ld_Farmer") (str "gold farmer!!")).
  - reflexivity.
  - reflexivity.
  - exact Heq.
  - vm_compute. discriminate.
  - vm_compute. lia.
Defined.

(** ** The score validator away from NaN *)

(** X25.  [scores_consistent] raises nothing, and when neither the
    tolerance nor a deviation is NaN it does what its formula says: for
    two or more scores with a median other than zero it returns whether
    every score has [abs(v - med) / max(abs(med), 1.0) <= tolerance]. *)
Theorem scores_consistent_away_from_nan (vals : list F.float)
    (tolerance_ratio : F.float) :
  (exists b, scores_consistent vals tolerance_ratio = Ok b)
  /\ (2 <= length vals ->
      exists med,
        median vals = Ok med
        /\ (F.eqb med F.zero = false ->
            F.is_nan tolerance_ratio = false ->
            (forall v, In v vals -> F.is_nan (deviation v med) = false) ->
            scores_consistent vals tolerance_ratio
            = Ok (forallb (fun v => F.leb (deviation v med) tolerance_ratio)
                    vals))).
Proof.
  split; [apply scores_consistent_returns|].
  intros Hlen.
  destruct (scores_consistent_spec vals tolerance_ratio) as [_ H].
  destruct (H Hlen) as [med [Em [_ [_ Hnan]]]].
  exists med. split; [exact Em|exact Hnan].
Qed.

